(** * fix_hashes: the iterative fix loop and its matching engine

    A shallow embedding of [fix_hashes.py]: the log-scraping parser
    ([extract_hash_mismatch_info]), the tree search over the manifest
    ([find_entry_by_rev]), the patcher ([update_json_by_rev]), the
    placeholder counter ([count_remaining_placeholders]), the description
    lookup ([get_entry_description]) and the build/patch loop of [main].

    Text is a [string] whose characters are the code points U+0000..U+00FF;
    the character classes of the regular expressions ([\s], [\w]) are given
    the meaning Python's [re] gives them on those code points. *)

From Stdlib Require Import ZArith Ascii String List Lia Bool DecimalString.
From stdpp Require Import base gmap strings list.



(** ** Python [str] operations used by the program *)

Module Str.

(** [s[len(p):]] when [s.startswith(p)]. *)
Fixpoint strip_prefix (p s : string) : option string :=
  match p with
  | EmptyString => Some s
  | String a p' =>
      match s with
      | EmptyString => None
      | String b s' => if Ascii.eqb a b then strip_prefix p' s' else None
      end
  end.

Definition startswith (s p : string) : bool :=
  match strip_prefix p s with Some _ => true | None => false end.

(** [sub in s]. *)
Fixpoint contains (sub s : string) : bool :=
  startswith s sub ||
  match s with
  | EmptyString => false
  | String _ s' => contains sub s'
  end.

(** The scan behind [str.count] for a non-empty [sub]: [skip] characters
    of the occurrence found last are still to be passed over. *)
Fixpoint count_scan (sub : string) (skip : nat) (s : string) : nat :=
  match s with
  | EmptyString => 0
  | String _ s' =>
      match skip with
      | S k => count_scan sub k s'
      | O => if startswith s sub
             then S (count_scan sub (String.length sub - 1) s')
             else count_scan sub 0 s'
      end
  end.

(** [s.count(sub)]: non-overlapping occurrences, left to right; the empty
    string occurs [len(s) + 1] times. *)
Definition count (s sub : string) : nat :=
  match sub with
  | EmptyString => S (String.length s)
  | _ => count_scan sub 0 s
  end.

Fixpoint replace_scan (old new : string) (skip : nat) (s : string) : string :=
  match s with
  | EmptyString => EmptyString
  | String c s' =>
      match skip with
      | S k => replace_scan old new k s'
      | O => if startswith s old
             then new +:+ replace_scan old new (String.length old - 1) s'
             else String c (replace_scan old new 0 s')
      end
  end.

Fixpoint interleave (new s : string) : string :=
  match s with
  | EmptyString => new
  | String c s' => new +:+ String c (interleave new s')
  end.

(** [s.replace(old, new)]. *)
Definition replace (s old new : string) : string :=
  match old with
  | EmptyString => interleave new s
  | _ => replace_scan old new 0 s
  end.

(** [s.split(sep)] for a one-character separator; the list is never
    empty. *)
Fixpoint split (sep : ascii) (s : string) : list string :=
  match s with
  | EmptyString => [EmptyString]
  | String c s' =>
      if Ascii.eqb c sep then EmptyString :: split sep s'
      else match split sep s' with
           | h :: t => String c h :: t
           | [] => [String c EmptyString]
           end
  end.

(** [l[-1]] on a list of strings. *)
Definition last (l : list string) : string := List.last l EmptyString.

(** [s[:n]] for [n >= 0]. *)
Definition slice_to (n : nat) (s : string) : string := String.substring 0 n s.

Fixpoint all (f : ascii -> bool) (s : string) : bool :=
  match s with
  | EmptyString => true
  | String c s' => f c && all f s'
  end.

(** [str(i)] for a non-negative integer. *)
Definition of_nat (n : nat) : string := NilZero.string_of_uint (Nat.to_uint n).

End Str.

(** ** The fragment of Python's [re] the program uses

    A pattern is a sequence of tokens; [search] is the backtracking,
    leftmost, priority-ordered search of [re.search].  A successful match
    yields the text consumed by each token, from which the capture groups
    are read off. *)

Module Re.

Inductive tok : Type :=
| TLit (l : string)               (* escaped literal text *)
| TPlus (cls : ascii -> bool)     (* [...]+, greedy *)
| TPlusLazy (cls : ascii -> bool) (* [...]+?, lazy *)
| TOpt (l : string)               (* (?:literal)?, greedy *)
| TEnd.                           (* $ *)

Definition in_range (lo hi : nat) (c : ascii) : bool :=
  (lo <=? nat_of_ascii c)%nat && (nat_of_ascii c <=? hi)%nat.

(** [\s] on a [str] pattern: the Unicode white space below U+0100. *)
Definition is_space (c : ascii) : bool :=
  in_range 9 13 c || in_range 28 32 c || in_range 133 133 c || in_range 160 160 c.

(** [\w] on a [str] pattern: alphanumeric (letters, decimal digits and
    other numeric characters) or the underscore, below U+0100. *)
Definition is_word (c : ascii) : bool :=
  in_range 48 57 c || in_range 65 90 c || in_range 97 122 c || in_range 95 95 c
  || in_range 170 170 c || in_range 178 179 c || in_range 181 181 c
  || in_range 185 186 c || in_range 188 190 c
  || in_range 192 214 c || in_range 216 246 c || in_range 248 255 c.

(** [[\w+/=]] *)
Definition is_hash_char (c : ascii) : bool :=
  is_word c || Ascii.eqb c "+" || Ascii.eqb c "/" || Ascii.eqb c "=".

(** [[a-f0-9]] *)
Definition is_hex (c : ascii) : bool := in_range 97 102 c || in_range 48 57 c.

(** [[^\s]] *)
Definition not_space (c : ascii) : bool := negb (is_space c).

(** [[^/]] *)
Definition not_slash (c : ascii) : bool := negb (Ascii.eqb c "/").

(** [.] without DOTALL *)
Definition not_newline (c : ascii) : bool := negb (Ascii.eqb c "010").

Definition continuation : Type := string -> option (list string).

(** Zero or more characters of [cls], the longest run first, then [k]. *)
Fixpoint greedy (cls : ascii -> bool) (k : continuation) (s : string)
  : option (string * list string) :=
  match s with
  | String c s' =>
      if cls c then
        match greedy cls k s' with
        | Some (w, r) => Some (String c w, r)
        | None => option_map (pair EmptyString) (k s)
        end
      else option_map (pair EmptyString) (k s)
  | EmptyString => option_map (pair EmptyString) (k s)
  end.

(** Zero or more characters of [cls], the shortest run first, then [k]. *)
Fixpoint lazy_run (cls : ascii -> bool) (k : continuation) (s : string)
  : option (string * list string) :=
  match k s with
  | Some r => Some (EmptyString, r)
  | None =>
      match s with
      | String c s' =>
          if cls c then
            match lazy_run cls k s' with
            | Some (w, r) => Some (String c w, r)
            | None => None
            end
          else None
      | EmptyString => None
      end
  end.

Definition at_end (s : string) : bool :=
  match s with
  | EmptyString => true
  | String c EmptyString => Ascii.eqb c "010"
  | _ => false
  end.

(** Match the tokens at the start of [s]; the result lists the text each
    token consumed. *)
Fixpoint match_here (ts : list tok) : continuation :=
  match ts with
  | [] => fun _ => Some []
  | t :: ts' =>
      let k := match_here ts' in
      match t with
      | TLit l => fun s =>
          match Str.strip_prefix l s with
          | Some s' => option_map (cons l) (k s')
          | None => None
          end
      | TPlus cls => fun s =>
          match s with
          | String c s' =>
              if cls c then
                match greedy cls k s' with
                | Some (w, r) => Some (String c w :: r)
                | None => None
                end
              else None
          | EmptyString => None
          end
      | TPlusLazy cls => fun s =>
          match s with
          | String c s' =>
              if cls c then
                match lazy_run cls k s' with
                | Some (w, r) => Some (String c w :: r)
                | None => None
                end
              else None
          | EmptyString => None
          end
      | TOpt l => fun s =>
          match match Str.strip_prefix l s with
                | Some s' => option_map (cons l) (k s')
                | None => None
                end with
          | Some r => Some r
          | None => option_map (cons EmptyString) (k s)
          end
      | TEnd => fun s =>
          if at_end s then option_map (cons EmptyString) (k s) else None
      end
  end.

(** [re.search]: the first start position, left to right, at which the
    pattern matches. *)
Fixpoint search (ts : list tok) (s : string) : option (list string) :=
  match match_here ts s with
  | Some m => Some m
  | None =>
      match s with
      | String _ s' => search ts s'
      | EmptyString => None
      end
  end.

(** The text of a group spanning [len] tokens from token [from]. *)
Definition group (m : list string) (from len : nat) : string :=
  String.concat EmptyString (take len (drop from m)).

End Re.

(** ** OutputParser *)

(** [r"got:\s+(sha256-[\w+/=]+)"] *)
Definition hash_pattern : list Re.tok :=
  [Re.TLit "got:"; Re.TPlus Re.is_space; Re.TLit "sha256-"; Re.TPlus Re.is_hash_char].

(** [r"unpacking source archive /build/([a-f0-9]+)\.tar\.gz"] *)
Definition rev_pattern : list Re.tok :=
  [Re.TLit "unpacking source archive /build/"; Re.TPlus Re.is_hex; Re.TLit ".tar.gz"].

(** [r"trying (https://[^\s]+/\+archive/([a-f0-9]+)\.tar\.gz)"] *)
Definition url_pattern : list Re.tok :=
  [Re.TLit "trying "; Re.TLit "https://"; Re.TPlus Re.not_space;
   Re.TLit "/+archive/"; Re.TPlus Re.is_hex; Re.TLit ".tar.gz"].

(** [r"trying (https://[^\s]+/\+archive/" + re.escape(rev) + r"\.tar\.gz)"] *)
Definition url_pattern_for (rev : string) : list Re.tok :=
  [Re.TLit "trying "; Re.TLit "https://"; Re.TPlus Re.not_space;
   Re.TLit "/+archive/"; Re.TLit rev; Re.TLit ".tar.gz"].

(** The [(rev, new_hash, url)] triple, [None] for Python's [None]. *)
Definition mismatch_info : Type := option string * option string * option string.

Definition extract_hash_mismatch_info (output : string) : mismatch_info :=
  match Re.search hash_pattern output with
  | None => (None, None, None)
  | Some hash_match =>
      let new_hash := Re.group hash_match 2 2 in
      match Re.search rev_pattern output with
      | None =>
          match Re.search url_pattern output with
          | Some url_match =>
              let url :=
                Str.replace (Re.group url_match 1 5)
                  ("/+archive/" +:+ Re.group url_match 4 1 +:+ ".tar.gz") "" in
              (Some (Re.group url_match 4 1), Some new_hash, Some url)
          | None => (None, Some new_hash, None)
          end
      | Some rev_match =>
          let rev := Re.group rev_match 1 1 in
          let url :=
            match Re.search (url_pattern_for rev) output with
            | Some url_match =>
                Some (Str.replace (Re.group url_match 1 5)
                        ("/+archive/" +:+ rev +:+ ".tar.gz") "")
            | None => None
            end in
          (Some rev, Some new_hash, url)
      end
  end.

(** ** The manifest document *)

(** A parsed JSON document as [json.load] builds it: [dict] (insertion
    ordered), [list], [str], [int], [float], [bool] and [None]. 
    The members of a [JObject] are in stored order; [json.load] gives
    them distinct keys. *)
Unset Elimination Schemes.
Inductive json : Type :=
| JNull
| JBool (b : bool)
| JInt (z : Z)
| JFloat (repr : string)
| JString (s : string)
| JArray (items : list json)
| JObject (members : list (string * json)).
Set Elimination Schemes.

Section JsonInduction.
Variable P : json -> Prop.
Hypothesis Hnull : P JNull.
Hypothesis Hbool : forall b, P (JBool b).
Hypothesis Hint : forall z, P (JInt z).
Hypothesis Hfloat : forall r, P (JFloat r).
Hypothesis Hstring : forall s, P (JString s).
Hypothesis Harray : forall items, Forall P items -> P (JArray items).
Hypothesis Hobject :
  forall members, Forall (fun kv => P (snd kv)) members -> P (JObject members).

Fixpoint json_tree_ind (d : json) : P d :=
  match d with
  | JNull => Hnull
  | JBool b => Hbool b
  | JInt z => Hint z
  | JFloat r => Hfloat r
  | JString s => Hstring s
  | JArray items =>
      Harray items
        ((fix all (l : list json) : Forall P l :=
            match l with
            | [] => @List.Forall_nil json P
            | x :: l' => @List.Forall_cons json P x l' (json_tree_ind x) (all l')
            end) items)
  | JObject members =>
      Hobject members
        ((fix all (l : list (string * json)) : Forall (fun kv => P (snd kv)) l :=
            match l with
            | [] => @List.Forall_nil (string * json) (fun kv => P (snd kv))
            | kv :: l' =>
                @List.Forall_cons (string * json) (fun kv => P (snd kv)) kv l'
                  (json_tree_ind (snd kv)) (all l')
            end) members)
  end.
End JsonInduction.

(** [obj[key]] on the members of a [dict]; [None] when [key not in obj]. *)
Fixpoint dict_get (key : string) (members : list (string * json)) : option json :=
  match members with
  | [] => None
  | (k, v) :: members' => if String.eqb k key then Some v else dict_get key members'
  end.

(** [obj[key] = v]: an existing key keeps its position, a new one goes last. *)
Fixpoint dict_set (key : string) (v : json) (members : list (string * json))
  : list (string * json) :=
  match members with
  | [] => [(key, v)]
  | (k, v') :: members' =>
      if String.eqb k key then (k, v) :: members'
      else (k, v') :: dict_set key v members'
  end.

(** [value == s] for a Python [str] [s]: only an equal [str] compares equal. *)
Definition py_eq_str (value : json) (s : string) : bool :=
  match value with
  | JString t => String.eqb t s
  | _ => false
  end.

(** Truth value of a document node ([if not entry]). *)
Definition py_truthy (value : json) : bool :=
  match value with
  | JNull => false
  | JBool b => b
  | JInt z => negb (z =? 0)%Z
  | JFloat r => negb (String.eqb r "0.0" || String.eqb r "-0.0")
  | JString s => negb (String.eqb s "")
  | JArray items => match items with [] => false | _ => true end
  | JObject members => match members with [] => false | _ => true end
  end.

(** ** ManifestLocator *)

(** What the search hands back: the display path and the entry.  The entry
    is a reference into the document, not a copy; [found_ref] is that
    reference, the child positions leading from the root to the node. *)
Record found : Type := Found {
  found_path : string;
  found_ref : list nat;
  found_entry : json
}.

Definition under (i : nat) (r : found) : found :=
  Found (found_path r) (i :: found_ref r) (found_entry r).

(** The test at the head of [search_recursive] on a [dict]:
    ['rev' in obj and 'hash' in obj], then
    [obj['rev'] == target_rev and obj['hash'] == placeholder_hash]. *)
Definition is_match (target_rev placeholder_hash : string)
  (members : list (string * json)) : bool :=
  match dict_get "rev" members, dict_get "hash" members with
  | Some rev, Some hash => py_eq_str rev target_rev && py_eq_str hash placeholder_hash
  | _, _ => false
  end.

(** [f"{path}.{key}" if path else key] *)
Definition key_path (path key : string) : string :=
  if String.eqb path "" then key else path +:+ "." +:+ key.

(** [f"{path}[{i}]"] *)
Definition index_path (path : string) (i : nat) : string :=
  path +:+ "[" +:+ Str.of_nat i +:+ "]".

(** A loop over an enumerated sequence that returns the first result its
    body produces: [for i, x in enumerate(l): r = body(i, x); if r[0] is
    not None: return r]. *)
Section FirstIn.
Context {A : Type} (body : nat -> A -> option found).

Fixpoint first_in (i : nat) (l : list A) : option found :=
  match l with
  | [] => None
  | x :: l' =>
      match body i x with
      | Some result => Some result
      | None => first_in (S i) l'
      end
  end.
End FirstIn.

Section Locator.
Variables target_rev placeholder_hash : string.

Fixpoint search_recursive (obj : json) (path : string) : option found :=
  match obj with
  | JObject members =>
      if is_match target_rev placeholder_hash members
      then Some (Found path [] obj)
      else
        first_in
          (fun i kv =>
             match kv with
             | (key, value) =>
                 under i <$> search_recursive value (key_path path key)
             end) 0%nat members
  | JArray elements =>
      first_in
        (fun i item => under i <$> search_recursive item (index_path path i))
        0%nat elements
  | _ => None
  end.

Definition find_entry_by_rev (data : json) : option found :=
  search_recursive data "".
End Locator.

(** The node a reference denotes, and an update through a reference. *)
Fixpoint deref (ref : list nat) (d : json) : option json :=
  match ref with
  | [] => Some d
  | i :: ref' =>
      match d with
      | JObject members =>
          match members !! i with
          | Some (_, v) => deref ref' v
          | None => None
          end
      | JArray items =>
          match items !! i with
          | Some v => deref ref' v
          | None => None
          end
      | _ => None
      end
  end.

Fixpoint update_at (ref : list nat) (f : json -> json) (d : json) : json :=
  match ref with
  | [] => f d
  | i :: ref' =>
      match d with
      | JObject members =>
          JObject (alter (fun kv => (fst kv, update_at ref' f (snd kv))) i members)
      | JArray items => JArray (alter (update_at ref' f) i items)
      | _ => d
      end
  end.

(** [entry[key] = v] *)
Definition set_item (key : string) (v : json) (entry : json) : json :=
  match entry with
  | JObject members => JObject (dict_set key v members)
  | _ => entry
  end.

(** ** Storage and the [json] module *)

(** What one [with open(filepath, 'w') as f: json.dump(data, f, indent=2)]
    does to the file. *)
Inductive write_outcome : Type :=
| Written
    (* the file is truncated and the whole text is written *)
| OpenFails (err : string)
    (* [open] raises before it truncates: the file stays as it was *)
| WriteFails (kept : nat) (err : string).
    (* [open] truncates the file, [kept] characters of the text reach it,
       then the write raises *)

(** The manifest file as the program can observe it. *)
Inductive file : Type :=
| Missing (err : string)
    (* nothing at the path; [err] is the text of the error [open] raises *)
| Unreadable (err : string)
    (* the path exists but reading it raises; [err] is the error's text *)
| Stored (content : string) (writes : list write_outcome).
    (* readable text; [writes] is what the coming attempts to write the
       file do, in order; the attempts past the end of the list succeed *)

(** What the next attempt to write does, and what is left for the later
    ones. *)
Definition next_write (writes : list write_outcome)
  : write_outcome * list write_outcome :=
  match writes with
  | [] => (Written, [])
  | w :: writes' => (w, writes')
  end.

(** The text a file holds, if it can be read. *)
Definition text_of (f : file) : option string :=
  match f with
  | Stored content _ => Some content
  | Missing _ | Unreadable _ => None
  end.

Definition exists_ (f : file) : bool :=
  match f with Missing _ => false | _ => true end.

(** Outcome of [json.load]. *)
Inductive loaded : Type :=
| Loaded (data : json)
| JSONDecodeError (msg : string).

(** The default placeholder, [PLACEHOLDER_HASH]. *)
Definition PLACEHOLDER_HASH : string :=
  "sha256-AAAAAAAAAAAAAAAAAAAAAAAAAAAAAAAAAAAAAAAAAAA=".

(** [r'github\.com/([^/]+/[^/]+)'] *)
Definition github_pattern : list Re.tok :=
  [Re.TLit "github.com/"; Re.TPlus Re.not_slash; Re.TLit "/"; Re.TPlus Re.not_slash].

(** [r'chromium\.googlesource\.com/(.+?)(?:\.git)?$'] *)
Definition chromium_pattern : list Re.tok :=
  [Re.TLit "chromium.googlesource.com/"; Re.TPlusLazy Re.not_newline;
   Re.TOpt ".git"; Re.TEnd].

(** [url.split('/')[-1].replace('.git', '')] *)
Definition last_segment (url : string) : string :=
  Str.replace (Str.last (Str.split "/" url)) ".git" "".

(** The name read off a [str] URL in [get_entry_description]. *)
Definition url_name (url : string) : string :=
  if Str.contains "github.com" url then
    match Re.search github_pattern url with
    | Some m => Re.group m 1 3
    | None => last_segment url
    end
  else if Str.contains "chromium.googlesource.com" url then
    match Re.search chromium_pattern url with
    | Some m => Re.group m 1 1
    | None => last_segment url
    end
  else last_segment url.

(** [rev[:12] + "..."] *)
Definition short_rev (rev : string) : string := Str.slice_to 12 rev +:+ "...".

(** ** PlaceholderCounter *)

Definition count_remaining_placeholders (f : file) (placeholder_hash : string) : nat :=
  match f with
  | Stored content _ => Str.count content placeholder_hash
  | _ => 0%nat
  end.

(** ** The fix loop's vocabulary *)

(** Command-line arguments the loop reads ([args.json_file] is the [file]
    of the state). *)
Record args : Type := Args {
  dry_run : bool;
  max_iterations : Z;
  no_backup : bool;
  placeholder_hash : string
}.

(** One [run_build_command]: the finished process, a keyboard interrupt
    raised while waiting for it, or an exception raised by
    [subprocess.run] (the shell cannot be started, the output of the build
    is not UTF-8).  [KeyboardInterrupt] is modelled at the two places where
    the program waits for the outside world: the build and the prompt
    below. *)
Inductive build_event : Type :=
| Completed (returncode : Z) (stdout stderr : string)
| Interrupted
| BuildError (err : string).

(** What [input()] does at the prompt: a line, the end of the input
    ([EOFError]) or a keyboard interrupt. *)
Inductive prompt_reply : Type :=
| Answered (answer : string)
| EndOfInput (err : string)
| PromptInterrupted.

(** [backup_file] and the prompt that follows its failure. *)
Inductive backup_outcome : Type :=
| BackupCreated
| BackupFailed (reply : prompt_reply).

(** A [(rev, new_hash, description)] tuple. *)
Definition replacement : Type := string * string * string.

(** What the run prints on standard output to tell its course, message by
    message.  The banner, the echoed output of the builds and the records
    handed to [logging] are left out. *)
Inductive event : Type :=
| EFileNotFound
| EInvalidJson (msg : string)
| EUnexpectedError (msg : string)
| EAbortedByUser
| EFound (initial_count : nat)
| ENoPlaceholders
| EAttempt (number : nat)
| EBuildSuccessful
| EAlreadyProcessed (rev : string)
| EMismatch (description rev : string) (url : option string) (new_hash : string)
| EDryRun (message : string)
| EUpdated (message : string)
| EProgress (updated remaining : nat)
| EAllReplaced
| EFinalBuild
| EError (message : string)
| ESkipping
| ENoRev (new_hash : string)
| EUnrelated (remaining : nat)
| EMaxIterations (limit : Z)
| ESummaryTotal (count : nat)
| ESummaryEntry (i : nat) (description rev12 new_hash : string)
| EApplyHint
| EInterrupted.

Record state : Type := State {
  json_file : file;
  replacements : list replacement;
  processed_revs : gset string;
  attempts : nat;
  out : list event
}.

Definition emit (es : list event) (st : state) : state :=
  State (json_file st) (replacements st) (processed_revs st) (attempts st)
    (out st ++ es).

(** How one pass through the loop body ends. *)
Inductive flow : Type :=
| Continue
| Break
| SysExit (code : Z)
| KeyboardInterrupt
| Exception (err : string).

(** How the [for ... else] ends. *)
Inductive loop_end : Type :=
| Broke
| Exhausted
| Exited (code : Z)
| Raised
| Errored (err : string).

(** The terminal states of the loop; [UnexpectedError] is the exit through
    the [except Exception] handler around [main]. *)
Inductive terminal : Type :=
| Success
| ExhaustedIterations
| UnrecoverableBuildFailure
| UserAborted
| UnexpectedError.

(** The value of an expression in [if new_hash and rev], when it is true. *)
Definition truthy (o : option string) : option string :=
  match o with
  | Some s => if String.eqb s "" then None else Some s
  | None => None
  end.

(** [print_summary]: the total, then one entry per record, numbered from 1,
    with the revision cut to its first 12 characters.  The line giving the
    elapsed time is left out. *)
Fixpoint summary_entries (i : nat) (rs : list replacement) : list event :=
  match rs with
  | [] => []
  | (rev, new_hash, description) :: rs' =>
      ESummaryEntry i description (Str.slice_to 12 rev) new_hash
      :: summary_entries (S i) rs'
  end.

Definition print_summary (rs : list replacement) : list event :=
  ESummaryTotal (length rs) :: summary_entries 1 rs.

Section Program.
(** [json.load] on the text of a file and [json.dump(data, f, indent=2)]. *)
Variable json_load : string -> loaded.
Variable json_dump : json -> string.

(** *** ManifestPatcher *)

Definition not_found_message (target_rev : string) : string :=
  "No entry found with rev '" +:+ target_rev +:+ "' and placeholder hash".

Definition update_json_by_rev (f : file)
  (target_rev new_hash placeholder_hash : string) (dry_run : bool)
  : (bool * string * option string) * file :=
  match f with
  | Stored content writes =>
      match json_load content with
      | Loaded data =>
          match find_entry_by_rev target_rev placeholder_hash data with
          | Some r =>
              if negb (py_truthy (found_entry r)) then
                ((false, not_found_message target_rev, None), f)
              else if dry_run then
                ((true, "Would update hash for entry at path: " +:+ found_path r,
                  Some (found_path r)), f)
              else
                let data' :=
                  update_at (found_ref r) (set_item "hash" (JString new_hash)) data in
                match next_write writes with
                | (Written, writes') =>
                    ((true, "Updated hash for entry at path: " +:+ found_path r,
                      Some (found_path r)),
                     Stored (json_dump data') writes')
                | (OpenFails e, writes') =>
                    ((false, "Error updating file: " +:+ e, None),
                     Stored content writes')
                | (WriteFails kept e, writes') =>
                    ((false, "Error updating file: " +:+ e, None),
                     Stored (Str.slice_to kept (json_dump data')) writes')
                end
          | None => ((false, not_found_message target_rev, None), f)
          end
      | JSONDecodeError e => ((false, "Invalid JSON in file: " +:+ e, None), f)
      end
  | Missing e | Unreadable e => ((false, "Error updating file: " +:+ e, None), f)
  end.

(** *** The description lookup *)

Definition get_entry_description (f : file) (rev : string) : string :=
  match f with
  | Stored content _ =>
      match json_load content with
      | Loaded data =>
          match find_entry_by_rev rev PLACEHOLDER_HASH data with
          | Some r =>
              match found_entry r with
              | JObject members =>
                  if py_truthy (found_entry r) then
                    match dict_get "url" members with
                    | Some (JString url) => url_name url
                    | Some _ => short_rev rev (* TypeError or AttributeError, caught *)
                    | None => short_rev rev
                    end
                  else short_rev rev
              | _ => short_rev rev
              end
          | None => short_rev rev
          end
      | JSONDecodeError _ => short_rev rev
      end
  | _ => short_rev rev
  end.

(** *** FixLoop *)

Definition start_attempt (st : state) : state :=
  State (json_file st) (replacements st) (processed_revs st) (S (attempts st))
    (out st ++ [EAttempt (S (attempts st))]).

(** One pass through the body of the [for] loop; [b] is what
    [run_build_command] does on this pass. *)
Definition iteration (a : args) (b : build_event) (st : state) : state * flow :=
  let st := start_attempt st in
  match b with
  | Interrupted => (st, KeyboardInterrupt)
  | BuildError err => (st, Exception err)
  | Completed returncode _ stderr =>
      if (returncode =? 0)%Z then (emit [EBuildSuccessful] st, Break)
      else
        let '(rev, new_hash, url) := extract_hash_mismatch_info stderr in
        match truthy new_hash, truthy rev with
        | Some new_hash, Some rev =>
            if decide (rev ∈ processed_revs st) then
              (emit [EAlreadyProcessed rev] st, Continue)
            else
              let processed := processed_revs st ∪ {[rev]} in
              let description := get_entry_description (json_file st) rev in
              let '(success, message, _, f') :=
                update_json_by_rev (json_file st) rev new_hash
                  (placeholder_hash a) (dry_run a) in
              let log := out st ++ [EMismatch description rev url new_hash] in
              if success then
                let rs := replacements st ++ [(rev, new_hash, description)] in
                let remaining := count_remaining_placeholders f' (placeholder_hash a) in
                let log :=
                  log ++ [if dry_run a then EDryRun message else EUpdated message;
                          EProgress (length rs) remaining] in
                if (remaining =? 0)%nat then
                  if negb (dry_run a) then
                    (State f' rs processed (attempts st)
                       (log ++ [EAllReplaced; EFinalBuild]), Continue)
                  else
                    (State f' rs processed (attempts st) (log ++ [EAllReplaced]), Break)
                else (State f' rs processed (attempts st) log, Continue)
              else
                if Str.contains "No entry found" message then
                  (State f' (replacements st) processed (attempts st)
                     (log ++ [EError message; ESkipping]), Continue)
                else
                  (State f' (replacements st) processed (attempts st)
                     (log ++ [EError message]), Continue)
        | Some new_hash, None => (emit [ENoRev new_hash] st, Continue)
        | None, _ =>
            (emit [EUnrelated
                     (count_remaining_placeholders (json_file st) (placeholder_hash a))]
               st,
             SysExit 1)
        end
  end.

(** [for iteration in range(n): ... else: ...]; [build k] is the [k]-th
    invocation of the build command, counted from zero. *)
Fixpoint for_loop (a : args) (build : nat -> build_event) (n : nat) (st : state)
  : state * loop_end :=
  match n with
  | O => (st, Exhausted)
  | S n' =>
      match iteration a (build (attempts st)) st with
      | (st', Continue) => for_loop a build n' st'
      | (st', Break) => (st', Broke)
      | (st', SysExit code) => (st', Exited code)
      | (st', KeyboardInterrupt) => (st', Raised)
      | (st', Exception err) => (st', Errored err)
      end
  end.

(** The environment of one run. *)
Record env : Type := Env {
  manifest : file;
  backup : backup_outcome;
  build : nat -> build_event
}.

(** The outcome of a run: the last state, the terminal state of the loop
    ([None] when the process left before the loop started) and the exit
    status of the process. *)
Record result : Type := Result {
  final : state;
  ended : option terminal;
  status : Z
}.

Definition initial_state (f : file) : state := State f [] ∅ 0 [].

(** [input().lower() != 'y'] *)
Definition declined (answer : string) : bool :=
  negb (String.eqb answer "y" || String.eqb answer "Y").

(** The loop of [main] and what follows it. *)
Definition run_loop (a : args) (e : env) (st : state) : result :=
  match for_loop a (build e) (Z.to_nat (max_iterations a)) st with
  | (st', Broke) =>
      let st' := emit (print_summary (replacements st')) st' in
      let st' :=
        if dry_run a && negb (length (replacements st') =? 0)%nat
        then emit [EApplyHint] st' else st' in
      Result st' (Some Success) 0
  | (st', Exhausted) =>
      let st' := emit [EMaxIterations (max_iterations a)] st' in
      let st' := emit (print_summary (replacements st')) st' in
      let st' :=
        if dry_run a && negb (length (replacements st') =? 0)%nat
        then emit [EApplyHint] st' else st' in
      Result st' (Some ExhaustedIterations) 0
  | (st', Exited code) => Result st' (Some UnrecoverableBuildFailure) code
  | (st', Raised) => Result (emit [EInterrupted] st') (Some UserAborted) 130
  | (st', Errored err) =>
      Result (emit [EUnexpectedError err] st') (Some UnexpectedError) 1
  end.

(** [main], with the handlers around its call. *)
Definition main (a : args) (e : env) : result :=
  let st := initial_state (manifest e) in
  match manifest e with
  | Missing _ => Result (emit [EFileNotFound] st) None 1
  | Unreadable err => Result (emit [EUnexpectedError err] st) None 1
  | Stored content _ =>
      match json_load content with
      | JSONDecodeError msg => Result (emit [EInvalidJson msg] st) None 1
      | Loaded _ =>
          let proceed :=
            let initial_count :=
              count_remaining_placeholders (manifest e) (placeholder_hash a) in
            if (0 <? initial_count)%nat
            then run_loop a e (emit [EFound initial_count] st)
            else Result (emit [ENoPlaceholders] st) None 0 in
          if negb (no_backup a) && negb (dry_run a) then
            match backup e with
            | BackupCreated => proceed
            | BackupFailed (Answered answer) =>
                if declined answer
                then Result (emit [EAbortedByUser] st) None 0
                else proceed
            | BackupFailed (EndOfInput err) =>
                Result (emit [EUnexpectedError err] st) None 1
            | BackupFailed PromptInterrupted =>
                Result (emit [EInterrupted] st) None 130
            end
          else proceed
      end
  end.

End Program.

(** ** The codec of the examples

    [dumps] writes a document the way [json.dump(data, f, indent=2)] does;
    [load_among docs] reads back the text of each document of [docs] and
    rejects any other text.  The examples below run the program with this
    codec on files written in that format. *)

Module Example.

Definition dq : string := String "034" EmptyString.
Definition bs : string := String "092" EmptyString.
Definition newline : string := String "010" EmptyString.

Definition hex_digit (n : nat) : ascii :=
  ascii_of_nat (if (n <? 10)%nat then 48 + n else 87 + n).

(** One character of a string under [ensure_ascii=True]. *)
Definition escape_char (c : ascii) : string :=
  let n := nat_of_ascii c in
  if Ascii.eqb c "034" then bs +:+ dq
  else if Ascii.eqb c "092" then bs +:+ bs
  else if Ascii.eqb c "010" then bs +:+ "n"
  else if Ascii.eqb c "013" then bs +:+ "r"
  else if Ascii.eqb c "009" then bs +:+ "t"
  else if Ascii.eqb c "008" then bs +:+ "b"
  else if Ascii.eqb c "012" then bs +:+ "f"
  else if (32 <=? n)%nat && (n <=? 126)%nat then String c EmptyString
  else bs +:+ "u00"
       +:+ String (hex_digit (n / 16)) (String (hex_digit (n mod 16)) EmptyString).

Fixpoint escape (s : string) : string :=
  match s with
  | EmptyString => EmptyString
  | String c s' => escape_char c +:+ escape s'
  end.

Definition quote (s : string) : string := dq +:+ escape s +:+ dq.

Fixpoint spaces (n : nat) : string :=
  match n with
  | O => EmptyString
  | S n' => String " " (spaces n')
  end.

Definition newline_indent (level : nat) : string := newline +:+ spaces (2 * level).

Fixpoint dumps (level : nat) (d : json) : string :=
  match d with
  | JNull => "null"
  | JBool true => "true"
  | JBool false => "false"
  | JInt z => NilZero.string_of_int (Z.to_int z)
  | JFloat repr => repr
  | JString s => quote s
  | JArray [] => "[]"
  | JArray items =>
      "[" +:+ newline_indent (S level)
      +:+ String.concat ("," +:+ newline_indent (S level))
            (map (dumps (S level)) items)
      +:+ newline_indent level +:+ "]"
  | JObject [] => "{}"
  | JObject members =>
      "{" +:+ newline_indent (S level)
      +:+ String.concat ("," +:+ newline_indent (S level))
            (map (fun kv => quote (fst kv) +:+ ": " +:+ dumps (S level) (snd kv))
               members)
      +:+ newline_indent level +:+ "}"
  end.

Definition dump (d : json) : string := dumps 0 d.

Definition load_among (docs : list json) (text : string) : loaded :=
  match List.find (fun d => String.eqb (dump d) text) docs with
  | Some d => Loaded d
  | None => JSONDecodeError "Expecting value"
  end.

(** A manifest with one unresolved entry. *)
Definition entry (rev hash url : string) : json :=
  JObject [("url", JString url); ("rev", JString rev); ("hash", JString hash)].

Definition manifest_of (entries : list json) : json :=
  JObject [("name", JString "demo"); ("deps", JArray entries)].

(** The diagnostic of a hash mismatch on the unpacked archive of [rev]. *)
Definition mismatch_output (rev new_hash : string) : string :=
  "unpacking source archive /build/" +:+ rev +:+ ".tar.gz" +:+ newline
  +:+ "error: hash mismatch in fixed-output derivation" +:+ newline
  +:+ "         specified: " +:+ PLACEHOLDER_HASH +:+ newline
  +:+ "            got:    " +:+ new_hash +:+ newline.

End Example.

(** Runs on a manifest with one unresolved entry. *)
Module Scenario.

Definition url : string := "https://github.com/org/repo".

Definition data0 : json :=
  Example.manifest_of [Example.entry "abc123" PLACEHOLDER_HASH url].

Definition data1 : json :=
  Example.manifest_of [Example.entry "abc123" "sha256-NEW=" url].

Definition load : string -> loaded := Example.load_among [data0; data1].

Definition stored : file := Stored (Example.dump data0) [].

Definition arguments (limit : Z) : args := Args false limit true PLACEHOLDER_HASH.

(** A failed build with the hash-mismatch diagnostic of [abc123]. *)
Definition mismatch : build_event :=
  Completed 1 "" (Example.mismatch_output "abc123" "sha256-NEW=").

(** A failed build with no hash mismatch in its output. *)
Definition unrelated : build_event :=
  Completed 1 "" "error: cannot connect to the substituter".

Definition always_mismatch : nat -> build_event := fun _ => mismatch.

Definition mismatch_then_unrelated : nat -> build_event :=
  fun k => match k with O => mismatch | S _ => unrelated end.

Definition run (limit : Z) (build : nat -> build_event) : result :=
  main load Example.dump (arguments limit) (Env stored BackupCreated build).



End Scenario.

(** ** What the claims speak of *)

(** [accepts ts s m]: the tokens [ts] match a prefix of [s], token by token
    consuming the texts [m]. *)
Inductive accepts : list Re.tok -> string -> list string -> Prop :=
| accepts_nil s : accepts [] s []
| accepts_lit l ts s m :
    accepts ts s m -> accepts (Re.TLit l :: ts) (l +:+ s) (l :: m)
| accepts_plus cls ts w s m :
    w <> "" -> Str.all cls w = true -> accepts ts s m ->
    accepts (Re.TPlus cls :: ts) (w +:+ s) (w :: m)
| accepts_plus_lazy cls ts w s m :
    w <> "" -> Str.all cls w = true -> accepts ts s m ->
    accepts (Re.TPlusLazy cls :: ts) (w +:+ s) (w :: m)
| accepts_opt_some l ts s m :
    accepts ts s m -> accepts (Re.TOpt l :: ts) (l +:+ s) (l :: m)
| accepts_opt_none l ts s m :
    accepts ts s m -> accepts (Re.TOpt l :: ts) s ("" :: m)
| accepts_end ts s m :
    Re.at_end s = true -> accepts ts s m -> accepts (Re.TEnd :: ts) s ("" :: m).

(** The text has a computed-hash line: [got:], white space, and a token
    [sha256-...] over the hash alphabet. *)
Definition has_computed_hash (output : string) : Prop :=
  exists before ws token after,
    output = before +:+ "got:" +:+ ws +:+ "sha256-" +:+ token +:+ after
    /\ ws <> "" /\ Str.all Re.is_space ws = true
    /\ token <> "" /\ Str.all Re.is_hash_char token = true.

(** The text has an unpack-source-archive line naming a revision. *)
Definition has_unpack_line (output : string) : Prop :=
  exists before rev after,
    output = before +:+ "unpacking source archive /build/" +:+ rev +:+ ".tar.gz" +:+ after
    /\ rev <> "" /\ Str.all Re.is_hex rev = true.

(** The text has an archive-URL line naming a revision. *)
Definition has_archive_url (output : string) : Prop :=
  exists before base rev after,
    output = before +:+ "trying " +:+ "https://" +:+ base +:+ "/+archive/" +:+ rev
             +:+ ".tar.gz" +:+ after
    /\ base <> "" /\ Str.all Re.not_space base = true
    /\ rev <> "" /\ Str.all Re.is_hex rev = true.

(** The nodes of a document in document order (depth first, a node before
    its children, mapping members in stored order, array elements by
    index), each with its display path and its reference. *)
Section FlatIn.
Context {A B : Type} (body : nat -> A -> list B).

Fixpoint flat_in (i : nat) (l : list A) : list B :=
  match l with
  | [] => []
  | x :: l' => body i x ++ flat_in (S i) l'
  end.
End FlatIn.

Fixpoint nodes (obj : json) (path : string) : list found :=
  Found path [] obj ::
  match obj with
  | JObject members =>
      flat_in
        (fun i kv =>
           match kv with
           | (key, value) => map (under i) (nodes value (key_path path key))
           end) 0%nat members
  | JArray elements =>
      flat_in (fun i item => map (under i) (nodes item (index_path path i)))
        0%nat elements
  | _ => []
  end.

(** A node is eligible for [(target_rev, placeholder_hash)]: it is a
    mapping with a ['rev'] field equal to the revision and a ['hash'] field
    equal to the placeholder. *)
Definition eligible (target_rev placeholder_hash : string) (n : found) : Prop :=
  exists members,
    found_entry n = JObject members
    /\ dict_get "rev" members = Some (JString target_rev)
    /\ dict_get "hash" members = Some (JString placeholder_hash).

Definition eligibleb (target_rev placeholder_hash : string) (n : found) : bool :=
  match found_entry n with
  | JObject members => is_match target_rev placeholder_hash members
  | _ => false
  end.

(** The number of eligible nodes in a document. *)
Fixpoint count_matches (target_rev placeholder_hash : string) (obj : json) : nat :=
  match obj with
  | JObject members =>
      (if is_match target_rev placeholder_hash members then 1 else 0)
      + sum_list (map (fun kv => count_matches target_rev placeholder_hash (snd kv)) members)
  | JArray elements =>
      sum_list (map (count_matches target_rev placeholder_hash) elements)
  | _ => 0
  end.

(** [sub] occurs in [s]. *)
Definition occurs (sub s : string) : Prop :=
  exists before after, s = before +:+ sub +:+ after.

(** In [before ++ sub] the text [sub] occurs at the end only: the
    occurrence after [before] is the first one. *)
Definition first_occurrence (sub before : string) : Prop :=
  forall p q, before +:+ sub = p +:+ sub +:+ q -> q = "".

(** [occurrences sub s n]: cutting [s] at the first occurrence of [sub],
    then the rest at its first occurrence, and so on, finds [n]
    occurrences (the non-overlapping occurrences, left to right). *)
Inductive occurrences (sub : string) : string -> nat -> Prop :=
| occurrences_none s : ~ occurs sub s -> occurrences sub s 0
| occurrences_next before rest n :
    first_occurrence sub before -> occurrences sub rest n ->
    occurrences sub (before +:+ sub +:+ rest) (S n).

(** The number of positions of [s] at which [sub] starts. *)
Fixpoint positions (sub s : string) : nat :=
  (if Str.startswith s sub then 1 else 0)
  + match s with
    | EmptyString => 0
    | String _ s' => positions sub s'
    end.

(** No proper, non-empty suffix of [sub] is a prefix of it: two
    occurrences of [sub] cannot overlap. *)
Definition unbordered (sub : string) : Prop :=
  forall u v w, sub = u +:+ v -> sub = v +:+ w -> v = "" \/ u = "".

(** [s[n:]] *)
Fixpoint slice_from (n : nat) (s : string) : string :=
  match n, s with
  | O, _ => s
  | S n', String _ s' => slice_from n' s'
  | S _, EmptyString => EmptyString
  end.

(** The decision procedure for [unbordered]. *)
Definition unborderedb (sub : string) : bool :=
  forallb (fun k => negb (Str.startswith sub (slice_from (S k) sub)))
    (seq 0 (String.length sub - 1)).

(** The revisions of the replacement records. *)
Definition revisions (rs : list replacement) : list string :=
  map (fun r => fst (fst r)) rs.

(** The records never name a revision twice, and name processed revisions
    only. *)
Definition patched_once (st : state) : Prop :=
  NoDup (revisions (replacements st))
  /\ forall rev, rev ∈ revisions (replacements st) -> rev ∈ processed_revs st.

Definition is_summary (e : event) : bool :=
  match e with
  | ESummaryTotal _ | ESummaryEntry _ _ _ _ => true
  | _ => false
  end.

(** Nothing of a summary has been printed. *)
Definition no_summary (st : state) : Prop :=
  forallb (fun e => negb (is_summary e)) (out st) = true.

(** The run printed the summary of its replacement records, as the last
    thing but for the hint of a preview. *)
Definition summarised (r : result) : Prop :=
  exists before after,
    out (final r) = before ++ print_summary (replacements (final r)) ++ after
    /\ (after = [] \/ after = [EApplyHint]).

(** ** The path of a backup

    [os.path] on POSIX, as far as [backup_file] uses it. *)

Module Path.

Definition is_sep (c : ascii) : bool := Ascii.eqb c "/".

(** [(p[:i], p[i:])] for [i = p.rfind('/') + 1]: the first part is empty
    exactly when [p] has no slash. *)
Fixpoint rsplit (p : string) : string * string :=
  match p with
  | EmptyString => (EmptyString, EmptyString)
  | String c s =>
      match rsplit s with
      | (EmptyString, _) =>
          if is_sep c then (String c EmptyString, s) else (EmptyString, String c s)
      | (h, t) => (String c h, t)
      end
  end.

(** [s.rstrip('/')] *)
Fixpoint rstrip (s : string) : string :=
  match s with
  | EmptyString => EmptyString
  | String c s' =>
      match rstrip s' with
      | EmptyString => if is_sep c then EmptyString else String c EmptyString
      | r => String c r
      end
  end.

(** [s.endswith('/')] *)
Fixpoint endswith_sep (s : string) : bool :=
  match s with
  | EmptyString => false
  | String c EmptyString => is_sep c
  | String _ s' => endswith_sep s'
  end.

(** [os.path.basename(p)] *)
Definition basename (p : string) : string := snd (rsplit p).

(** [os.path.dirname(p)]: the head, without its trailing slashes unless it
    is made of slashes only. *)
Definition dirname (p : string) : string :=
  let head := fst (rsplit p) in
  if negb (String.eqb head "") && negb (Str.all is_sep head)
  then rstrip head else head.

(** [os.path.join(a, b)] *)
Definition join (a b : string) : string :=
  if Str.startswith b "/" then b
  else if String.eqb a "" || endswith_sep a then a +:+ b
  else a +:+ "/" +:+ b.

End Path.

(** [os.path.dirname(filepath) or '.'] *)
Definition backup_dir (filepath : string) : string :=
  if String.eqb (Path.dirname filepath) "" then "." else Path.dirname filepath.

(** The path [backup_file] copies the file to; [timestamp] is the text
    [datetime.now().strftime("%Y%m%d_%H%M%S")] gives. *)
Definition backup_path (filepath timestamp : string) : string :=
  Path.join (backup_dir filepath)
    ("." +:+ Path.basename filepath +:+ ".backup_" +:+ timestamp).

(** ** What the further properties speak of *)

(** A computed-hash line starts at the head of [s]; [token] is its hash
    token and [after] the text that follows it. *)
Definition computed_hash_at (s token after : string) : Prop :=
  exists ws,
    s = "got:" +:+ ws +:+ "sha256-" +:+ token +:+ after
    /\ ws <> "" /\ Str.all Re.is_space ws = true
    /\ token <> "" /\ Str.all Re.is_hash_char token = true.

(** [s] does not begin with a character of the class. *)
Definition stops (cls : ascii -> bool) (s : string) : Prop :=
  match s with
  | EmptyString => True
  | String c _ => cls c = false
  end.

(** The text has an archive-URL line for the revision [rev], with [base]
    the part of the URL between [https://] and [/+archive/]. *)
Definition archive_url_for (rev base output : string) : Prop :=
  exists before after,
    output = before +:+ "trying " +:+ "https://" +:+ base +:+ "/+archive/" +:+ rev
             +:+ ".tar.gz" +:+ after
    /\ base <> "" /\ Str.all Re.not_space base = true.

(** ['/+archive/' + rev + '.tar.gz'] *)
Definition archive_suffix (rev : string) : string :=
  "/+archive/" +:+ rev +:+ ".tar.gz".

(** Two references part ways: after a common stretch they step to
    different children. *)
Definition diverge (ref1 ref2 : list nat) : Prop :=
  exists common i j rest1 rest2,
    ref1 = common ++ i :: rest1 /\ ref2 = common ++ j :: rest2 /\ i <> j.

(** The decision procedure for [first_occurrence]. *)
Definition first_occurrenceb (sub before : string) : bool :=
  forallb (fun k => negb (Str.startswith (slice_from k (before +:+ sub)) sub))
    (seq 0 (String.length before)).

(** The terminal state each way of leaving the loop stands for. *)
Definition terminal_of (l : loop_end) : terminal :=
  match l with
  | Broke => Success
  | Exhausted => ExhaustedIterations
  | Exited _ => UnrecoverableBuildFailure
  | Raised => UserAborted
  | Errored _ => UnexpectedError
  end.

(** ** Strings *)

Lemma str_app_cons c s t : String c s +:+ t = String c (s +:+ t).
Proof. reflexivity. Qed.

Lemma str_app_nil_l s : "" +:+ s = s.
Proof. reflexivity. Qed.

Lemma str_app_nil_r s : s +:+ "" = s.
Proof. induction s as [|c s IH]; [reflexivity|]. rewrite str_app_cons, IH. reflexivity. Qed.

Lemma app_assoc_s s t u : (s +:+ t) +:+ u = s +:+ t +:+ u.
Proof.
  induction s as [|c s IH]; [reflexivity|].
  rewrite !str_app_cons, IH. reflexivity.
Qed.

Lemma length_app_s s t : String.length (s +:+ t) = (String.length s + String.length t)%nat.
Proof.
  induction s as [|c s IH]; [reflexivity|].
  rewrite str_app_cons. simpl. rewrite IH. reflexivity.
Qed.

Lemma strip_prefix_spec p s t : Str.strip_prefix p s = Some t <-> s = p +:+ t.
Proof.
  revert s. induction p as [|a p IH]; intros s; simpl.
  - rewrite str_app_nil_l. split; [intros [= ->]|intros ->]; reflexivity.
  - rewrite str_app_cons. destruct s as [|b s]; [split; discriminate|].
    destruct (Ascii.eqb_spec a b) as [->|Hne].
    + rewrite IH. split; [intros ->; reflexivity|intros [= ->]; reflexivity].
    + split; [discriminate|intros [= ? ?]; congruence].
Qed.

Lemma strip_prefix_app p t : Str.strip_prefix p (p +:+ t) = Some t.
Proof. apply strip_prefix_spec. reflexivity. Qed.

Lemma startswith_spec s p : Str.startswith s p = true <-> exists t, s = p +:+ t.
Proof.
  unfold Str.startswith. destruct (Str.strip_prefix p s) as [t|] eqn:E.
  - apply strip_prefix_spec in E. split; eauto.
  - split; [discriminate|]. intros [t Ht].
    apply strip_prefix_spec in Ht. congruence.
Qed.

(** ** The matcher against its specification *)

Lemma greedy_sound cls k s w r :
  Re.greedy cls k s = Some (w, r) ->
  exists s', s = w +:+ s' /\ Str.all cls w = true /\ k s' = Some r.
Proof.
  revert w r. induction s as [|c s IH]; intros w r; simpl.
  - destruct (k "") eqn:E; simpl; [|discriminate].
    intros [= <- <-]. exists "". auto.
  - destruct (cls c) eqn:Hc.
    + destruct (Re.greedy cls k s) as [[w' r']|] eqn:G.
      * intros [= <- <-]. destruct (IH _ _ eq_refl) as (s' & -> & Hall & Hk).
        exists s'. rewrite str_app_cons. simpl. rewrite Hc, Hall. auto.
      * destruct (k (String c s)) eqn:E; simpl; [|discriminate].
        intros [= <- <-]. exists (String c s). auto.
    + destruct (k (String c s)) eqn:E; simpl; [|discriminate].
      intros [= <- <-]. exists (String c s). auto.
Qed.

Lemma greedy_complete cls k w s :
  Str.all cls w = true -> is_Some (k s) -> is_Some (Re.greedy cls k (w +:+ s)).
Proof.
  intros Hall Hk. induction w as [|c w IH].
  - rewrite str_app_nil_l. destruct Hk as [r Hr].
    destruct s as [|c s]; simpl.
    + rewrite Hr. eauto.
    + destruct (cls c); [destruct (Re.greedy cls k s) as [[? ?]|]|];
        rewrite ?Hr; simpl; eauto.
  - simpl in Hall. apply andb_true_iff in Hall as [Hc Hall].
    rewrite str_app_cons. simpl. rewrite Hc.
    destruct (IH Hall) as [[w' r'] ->]. eauto.
Qed.

Lemma lazy_sound cls k s w r :
  Re.lazy_run cls k s = Some (w, r) ->
  exists s', s = w +:+ s' /\ Str.all cls w = true /\ k s' = Some r.
Proof.
  revert w r. induction s as [|c s IH]; intros w r; simpl.
  - destruct (k "") eqn:E; [|discriminate].
    intros [= <- <-]. exists "". auto.
  - destruct (k (String c s)) eqn:E.
    + intros [= <- <-]. exists (String c s). auto.
    + destruct (cls c) eqn:Hc; [|discriminate].
      destruct (Re.lazy_run cls k s) as [[w' r']|] eqn:G; [|discriminate].
      intros [= <- <-]. destruct (IH _ _ eq_refl) as (s' & -> & Hall & Hk).
      exists s'. rewrite str_app_cons. simpl. rewrite Hc, Hall. auto.
Qed.

Lemma lazy_complete cls k w s :
  Str.all cls w = true -> is_Some (k s) -> is_Some (Re.lazy_run cls k (w +:+ s)).
Proof.
  intros Hall Hk. induction w as [|c w IH].
  - rewrite str_app_nil_l. destruct Hk as [r Hr].
    destruct s as [|c s]; simpl; rewrite Hr; eauto.
  - simpl in Hall. apply andb_true_iff in Hall as [Hc Hall].
    rewrite str_app_cons. simpl.
    destruct (k (String c (w +:+ s))); [eauto|].
    rewrite Hc. destruct (IH Hall) as [[w' r'] ->]. eauto.
Qed.

Lemma match_here_sound ts s m : Re.match_here ts s = Some m -> accepts ts s m.
Proof.
  revert s m. induction ts as [|t ts IH]; intros s m; simpl.
  - intros [= <-]. constructor.
  - destruct t as [l|cls|cls|l|].
    + destruct (Str.strip_prefix l s) as [s'|] eqn:E; [|discriminate].
      apply strip_prefix_spec in E as ->.
      destruct (Re.match_here ts s') eqn:M; simpl; [|discriminate].
      intros [= <-]. constructor. auto.
    + destruct s as [|c s]; [discriminate|].
      destruct (cls c) eqn:Hc; [|discriminate].
      destruct (Re.greedy cls _ s) as [[w r]|] eqn:G; [|discriminate].
      intros [= <-]. apply greedy_sound in G as (s' & -> & Hall & Hk).
      rewrite <- str_app_cons. constructor; [discriminate|simpl; rewrite Hc; auto|auto].
    + destruct s as [|c s]; [discriminate|].
      destruct (cls c) eqn:Hc; [|discriminate].
      destruct (Re.lazy_run cls _ s) as [[w r]|] eqn:G; [|discriminate].
      intros [= <-]. apply lazy_sound in G as (s' & -> & Hall & Hk).
      rewrite <- str_app_cons. constructor; [discriminate|simpl; rewrite Hc; auto|auto].
    + destruct (Str.strip_prefix l s) as [s'|] eqn:E.
      * destruct (Re.match_here ts s') eqn:M; simpl.
        -- intros [= <-]. apply strip_prefix_spec in E as ->.
           apply accepts_opt_some. auto.
        -- destruct (Re.match_here ts s) eqn:M'; simpl; [|discriminate].
           intros [= <-]. apply accepts_opt_none. auto.
      * destruct (Re.match_here ts s) eqn:M'; simpl; [|discriminate].
        intros [= <-]. apply accepts_opt_none. auto.
    + destruct (Re.at_end s) eqn:Hend; [|discriminate].
      destruct (Re.match_here ts s) eqn:M; simpl; [|discriminate].
      intros [= <-]. constructor; auto.
Qed.

Lemma match_here_complete ts s m : accepts ts s m -> is_Some (Re.match_here ts s).
Proof.
  induction 1 as [s|l ts s m _ IH|cls ts w s m Hw Hall _ IH|cls ts w s m Hw Hall _ IH
                 |l ts s m _ IH|l ts s m _ IH|ts s m Hend _ IH]; simpl.
  - eauto.
  - rewrite strip_prefix_app. destruct IH as [r ->]. simpl. eauto.
  - destruct w as [|c w]; [congruence|]. rewrite str_app_cons.
    simpl in Hall. apply andb_true_iff in Hall as [Hc Hall]. rewrite Hc.
    destruct (greedy_complete cls (Re.match_here ts) w s Hall IH) as [[w' r'] ->]. eauto.
  - destruct w as [|c w]; [congruence|]. rewrite str_app_cons.
    simpl in Hall. apply andb_true_iff in Hall as [Hc Hall]. rewrite Hc.
    destruct (lazy_complete cls (Re.match_here ts) w s Hall IH) as [[w' r'] ->]. eauto.
  - rewrite strip_prefix_app. destruct IH as [r ->]. simpl. eauto.
  - destruct IH as [r Hr].
    destruct (Str.strip_prefix l s) as [s'|];
      [destruct (Re.match_here ts s')|]; simpl; rewrite ?Hr; simpl; eauto.
  - rewrite Hend. destruct IH as [r ->]. simpl. eauto.
Qed.

(** [search] finds a match exactly when the pattern is accepted somewhere
    in the text. *)
Lemma search_sound ts s m :
  Re.search ts s = Some m -> exists before rest, s = before +:+ rest /\ accepts ts rest m.
Proof.
  induction s as [|c s IH]; simpl.
  - destruct (Re.match_here ts "") eqn:M; [|discriminate].
    intros [= <-]. exists "", "". split; [reflexivity|]. apply match_here_sound, M.
  - destruct (Re.match_here ts (String c s)) eqn:M.
    + intros [= <-]. exists "", (String c s). split; [reflexivity|].
      apply match_here_sound, M.
    + intros H. destruct (IH H) as (b & r & -> & Hacc).
      exists (String c b), r. rewrite str_app_cons. auto.
Qed.

Lemma search_complete ts before rest m :
  accepts ts rest m -> is_Some (Re.search ts (before +:+ rest)).
Proof.
  intros Hacc. induction before as [|c b IH].
  - rewrite str_app_nil_l. destruct (match_here_complete _ _ _ Hacc) as [r Hr].
    destruct rest; simpl; rewrite Hr; eauto.
  - rewrite str_app_cons. simpl.
    destruct (Re.match_here ts (String c (b +:+ rest))); eauto.
Qed.

Ltac invert_accepts :=
  repeat match goal with
         | H : accepts (_ :: _) _ _ |- _ => inversion H; subst; clear H
         | H : accepts [] _ _ |- _ => inversion H; subst; clear H
         end.

Lemma search_hash_pattern output m :
  Re.search hash_pattern output = Some m ->
  exists before ws token after,
    output = before +:+ "got:" +:+ ws +:+ "sha256-" +:+ token +:+ after
    /\ ws <> "" /\ Str.all Re.is_space ws = true
    /\ token <> "" /\ Str.all Re.is_hash_char token = true
    /\ Re.group m 2 2 = "sha256-" +:+ token.
Proof.
  intros H. apply search_sound in H as (before & rest & -> & Hacc).
  unfold hash_pattern in Hacc. invert_accepts.
  eexists before, _, _, _. repeat split; eauto.
Qed.

Lemma search_hash_pattern_iff output :
  is_Some (Re.search hash_pattern output) <-> has_computed_hash output.
Proof.
  split.
  - intros [m Hm]. apply search_hash_pattern in Hm
      as (before & ws & token & after & ? & ? & ? & ? & ? & _).
    exists before, ws, token, after. auto.
  - intros (before & ws & token & after & -> & Hws & Hsp & Htok & Hhc).
    apply search_complete with (m := ["got:"; ws; "sha256-"; token]).
    unfold hash_pattern. repeat constructor; auto.
Qed.

Lemma search_rev_pattern output m :
  Re.search rev_pattern output = Some m ->
  exists before rev after,
    output = before +:+ "unpacking source archive /build/" +:+ rev +:+ ".tar.gz" +:+ after
    /\ rev <> "" /\ Str.all Re.is_hex rev = true
    /\ Re.group m 1 1 = rev.
Proof.
  intros H. apply search_sound in H as (before & rest & -> & Hacc).
  unfold rev_pattern in Hacc. invert_accepts.
  eexists before, _, _. repeat split; eauto.
Qed.

Lemma search_rev_pattern_iff output :
  is_Some (Re.search rev_pattern output) <-> has_unpack_line output.
Proof.
  split.
  - intros [m Hm]. apply search_rev_pattern in Hm as (before & rev & after & ? & ? & ? & _).
    exists before, rev, after. auto.
  - intros (before & rev & after & -> & Hrev & Hhex).
    apply search_complete
      with (m := ["unpacking source archive /build/"; rev; ".tar.gz"]).
    unfold rev_pattern. repeat constructor; auto.
Qed.

Lemma search_url_pattern output m :
  Re.search url_pattern output = Some m ->
  exists before base rev after,
    output = before +:+ "trying " +:+ "https://" +:+ base +:+ "/+archive/" +:+ rev
             +:+ ".tar.gz" +:+ after
    /\ base <> "" /\ Str.all Re.not_space base = true
    /\ rev <> "" /\ Str.all Re.is_hex rev = true
    /\ Re.group m 4 1 = rev.
Proof.
  intros H. apply search_sound in H as (before & rest & -> & Hacc).
  unfold url_pattern in Hacc. invert_accepts.
  eexists before, _, _, _. repeat split; eauto.
Qed.

Lemma search_url_pattern_iff output :
  is_Some (Re.search url_pattern output) <-> has_archive_url output.
Proof.
  split.
  - intros [m Hm]. apply search_url_pattern in Hm
      as (before & base & rev & after & ? & ? & ? & ? & ? & _).
    exists before, base, rev, after. auto.
  - intros (before & base & rev & after & -> & Hb & Hns & Hrev & Hhex).
    apply search_complete
      with (m := ["trying "; "https://"; base; "/+archive/"; rev; ".tar.gz"]).
    unfold url_pattern. repeat constructor; auto.
Qed.

(** The parser never hands back an empty revision or an empty hash, so the
    truth tests of the loop only tell [None] apart. *)
Lemma extract_truthy output rev new_hash url :
  extract_hash_mismatch_info output = (rev, new_hash, url) ->
  truthy rev = rev /\ truthy new_hash = new_hash.
Proof.
  unfold extract_hash_mismatch_info.
  destruct (Re.search hash_pattern output) as [hm|] eqn:Hh.
  2: { intros [= <- <- <-]. auto. }
  apply search_hash_pattern in Hh as (_ & _ & token & _ & _ & _ & _ & _ & _ & Hg).
  rewrite Hg.
  destruct (Re.search rev_pattern output) as [rm|] eqn:Hr.
  - apply search_rev_pattern in Hr as (_ & r & _ & _ & Hne & _ & Hgr).
    rewrite Hgr. intros [= <- <- <-]. split; [|reflexivity].
    destruct r; [congruence|reflexivity].
  - destruct (Re.search url_pattern output) as [um|] eqn:Hu.
    + apply search_url_pattern in Hu as (_ & _ & r & _ & _ & _ & _ & Hne & _ & Hgr).
      rewrite Hgr. intros [= <- <- <-]. split; [|reflexivity].
      destruct r; [congruence|reflexivity].
    + intros [= <- <- <-]. auto.
Qed.

(** ** OutputParser *)

(** C6: a text with no computed-hash line ([got:], white space, a
    [sha256-] token) makes the parser return no revision, no hash and no
    URL, whatever else the text holds. *)
Theorem parser_all_null_without_hash output :
  ~ has_computed_hash output ->
  extract_hash_mismatch_info output = (None, None, None).
Proof.
  intros Hno. unfold extract_hash_mismatch_info.
  destruct (Re.search hash_pattern output) eqn:E; [|reflexivity].
  exfalso. apply Hno, search_hash_pattern_iff. eauto.
Qed.

Lemma no_computed_hash_by_search output :
  Re.search hash_pattern output = None -> ~ has_computed_hash output.
Proof.
  intros E H. apply search_hash_pattern_iff in H as [m Hm]. congruence.
Qed.

Lemma parser_all_null_without_hash_witness :
  ~ has_computed_hash "error: builder for 'x.drv' failed; got: nothing, sha256-AAAA"
  /\ extract_hash_mismatch_info
       "error: builder for 'x.drv' failed; got: nothing, sha256-AAAA"
     = (None, None, None).
Proof.
  assert (H : ~ has_computed_hash
                "error: builder for 'x.drv' failed; got: nothing, sha256-AAAA")
    by (apply no_computed_hash_by_search; vm_compute; reflexivity).
  split; [exact H|]. apply (parser_all_null_without_hash _ H).
Defined.

Lemma search_leftmost ts s m :
  Re.search ts s = Some m ->
  exists before rest,
    s = before +:+ rest /\ Re.match_here ts rest = Some m
    /\ forall b1 b2, before = b1 +:+ b2 -> b2 <> "" ->
         Re.match_here ts (b2 +:+ rest) = None.
Proof.
  induction s as [|c s IH]; simpl.
  - destruct (Re.match_here ts "") eqn:M; [|discriminate].
    intros [= <-]. exists "", "". split; [reflexivity|]. split; [exact M|].
    intros b1 b2 E Hb2. destruct b1, b2; try discriminate. congruence.
  - destruct (Re.match_here ts (String c s)) eqn:M.
    + intros [= <-]. exists "", (String c s). split; [reflexivity|].
      split; [exact M|]. intros b1 b2 E Hb2. destruct b1, b2; try discriminate.
      congruence.
    + intros H. destruct (IH H) as (before & rest & -> & Hm & Hleft).
      exists (String c before), rest. split; [reflexivity|]. split; [exact Hm|].
      intros b1 b2 E Hb2. destruct b1 as [|c' b1].
      * rewrite str_app_nil_l in E. subst b2. exact M.
      * rewrite str_app_cons in E. injection E as _ E. apply (Hleft b1 b2 E Hb2).
Qed.

Lemma search_at_first ts before rest m :
  Re.match_here ts rest = Some m ->
  (forall b1 b2, before = b1 +:+ b2 -> b2 <> "" ->
     Re.match_here ts (b2 +:+ rest) = None) ->
  Re.search ts (before +:+ rest) = Some m.
Proof.
  intros Hm. induction before as [|c before IH]; intros Hleft.
  - rewrite str_app_nil_l. destruct rest; simpl; rewrite Hm; reflexivity.
  - rewrite str_app_cons. simpl.
    rewrite <- str_app_cons, (Hleft "" (String c before) eq_refl) by discriminate.
    apply IH. intros b1 b2 E Hb2. apply (Hleft (String c b1) b2); [|exact Hb2].
    rewrite str_app_cons, E. reflexivity.
Qed.

Lemma greedy_maximal cls k s w r :
  (forall x, is_Some (k x)) ->
  Re.greedy cls k s = Some (w, r) ->
  exists s', s = w +:+ s' /\ Str.all cls w = true /\ stops cls s' /\ k s' = Some r.
Proof.
  intros Hk. revert w r. induction s as [|c s IH]; intros w r; simpl.
  - destruct (k "") eqn:E; simpl; [|discriminate].
    intros [= <- <-]. exists "". simpl. auto.
  - destruct (cls c) eqn:Hc.
    + destruct (Re.greedy cls k s) as [[w' r']|] eqn:G.
      * intros [= <- <-]. destruct (IH _ _ eq_refl) as (s' & -> & Hall & Hstop & Hks).
        exists s'. rewrite str_app_cons. simpl. rewrite Hc, Hall. auto.
      * exfalso. destruct (greedy_complete cls k "" s eq_refl (Hk s)) as [x Hx].
        rewrite str_app_nil_l in Hx. congruence.
    + destruct (k (String c s)) eqn:E; simpl; [|discriminate].
      intros [= <- <-]. exists (String c s). simpl. auto.
Qed.

(** A run of the class that stops is what the greedy loop takes first. *)
Lemma greedy_run cls k w s r :
  Str.all cls w = true -> stops cls s -> k s = Some r ->
  Re.greedy cls k (w +:+ s) = Some (w, r).
Proof.
  intros Hall Hstop Hk. induction w as [|c w IH].
  - rewrite str_app_nil_l. destruct s as [|c s]; simpl in *.
    + rewrite Hk. reflexivity.
    + rewrite Hstop, Hk. reflexivity.
  - simpl in Hall. apply andb_true_iff in Hall as [Hc Hall].
    rewrite str_app_cons. simpl. rewrite Hc, (IH Hall). reflexivity.
Qed.

Lemma match_here_hash_pattern rest m :
  Re.match_here hash_pattern rest = Some m ->
  exists token after,
    computed_hash_at rest token after /\ stops Re.is_hash_char after
    /\ Re.group m 2 2 = "sha256-" +:+ token.
Proof.
  unfold hash_pattern. cbn [Re.match_here].
  destruct (Str.strip_prefix "got:" rest) as [s1|] eqn:E1; [|discriminate].
  apply strip_prefix_spec in E1 as ->.
  destruct s1 as [|c s1]; [discriminate|].
  destruct (Re.is_space c) eqn:Hc; [|discriminate].
  destruct (Re.greedy Re.is_space _ s1) as [[ws r]|] eqn:G; [|discriminate].
  apply greedy_sound in G as (s2 & -> & Hws & Hk).
  destruct (Str.strip_prefix "sha256-" s2) as [s3|] eqn:E2; [|discriminate].
  apply strip_prefix_spec in E2 as ->.
  destruct s3 as [|d s3]; [discriminate|].
  destruct (Re.is_hash_char d) eqn:Hd; [|discriminate].
  destruct (Re.greedy Re.is_hash_char _ s3) as [[tok r']|] eqn:G'; [|discriminate].
  apply greedy_maximal in G' as (after & -> & Htok & Hstop & Hr'); [|eauto].
  injection Hr' as <-. simpl in Hk. injection Hk as <-.
  intros [= <-]. exists (String d tok), after. split; [|split].
  - exists (String c ws). repeat split; try discriminate.
    + simpl. rewrite Hc. exact Hws.
    + simpl. rewrite Hd. exact Htok.
  - exact Hstop.
  - reflexivity.
Qed.

Lemma match_here_hash_none rest :
  Re.match_here hash_pattern rest = None ->
  forall token after, ~ computed_hash_at rest token after.
Proof.
  intros Hnone token after (ws & -> & Hws & Hsp & Htok & Hhc).
  assert (H : accepts hash_pattern
                ("got:" +:+ ws +:+ "sha256-" +:+ token +:+ after)
                ["got:"; ws; "sha256-"; token])
    by (unfold hash_pattern; repeat constructor; auto).
  apply match_here_complete in H as [m Hm]. congruence.
Qed.

Lemma extract_hash_is_group output rev new_hash url :
  extract_hash_mismatch_info output = (rev, Some new_hash, url) ->
  exists hm, Re.search hash_pattern output = Some hm /\ new_hash = Re.group hm 2 2.
Proof.
  unfold extract_hash_mismatch_info.
  destruct (Re.search hash_pattern output) as [hm|]; [|discriminate].
  destruct (Re.search rev_pattern output);
    [|destruct (Re.search url_pattern output)];
    intros [= _ <- _]; eauto.
Qed.

(** C7: a text with a computed-hash line but neither an unpack line nor an
    archive-URL line gives a null revision, a null URL and the hash of the
    first computed-hash line of the text: no such line starts further
    left, and the token runs to the end of its hash characters.  The
    result is not the all-null one; on it the loop body logs the case and
    continues, leaving the file, the replacement records and the processed
    set as they were. *)
Theorem hash_without_revision_is_recoverable json_load json_dump output :
  has_computed_hash output -> ~ has_unpack_line output -> ~ has_archive_url output ->
  exists before line token after,
    output = before +:+ line
    /\ computed_hash_at line token after
    /\ stops Re.is_hash_char after
    /\ (forall b1 b2, before = b1 +:+ b2 -> b2 <> "" ->
          forall token' after', ~ computed_hash_at (b2 +:+ line) token' after')
    /\ extract_hash_mismatch_info output = (None, Some ("sha256-" +:+ token), None)
    /\ extract_hash_mismatch_info output <> (None, None, None)
    /\ forall a returncode stdout st,
         returncode <> 0%Z ->
         let '(st', next) :=
           iteration json_load json_dump a (Completed returncode stdout output) st in
         next = Continue
         /\ json_file st' = json_file st
         /\ replacements st' = replacements st
         /\ processed_revs st' = processed_revs st
         /\ out st' = out st ++ [EAttempt (S (attempts st));
                                 ENoRev ("sha256-" +:+ token)].
Proof.
  intros Hh Hr Hu.
  apply search_hash_pattern_iff in Hh as [hm Hhm].
  assert (Er : Re.search rev_pattern output = None).
  { destruct (Re.search rev_pattern output) eqn:E; [|reflexivity].
    exfalso. apply Hr, search_rev_pattern_iff. eauto. }
  assert (Eu : Re.search url_pattern output = None).
  { destruct (Re.search url_pattern output) eqn:E; [|reflexivity].
    exfalso. apply Hu, search_url_pattern_iff. eauto. }
  assert (Ex : extract_hash_mismatch_info output = (None, Some (Re.group hm 2 2), None)).
  { unfold extract_hash_mismatch_info. rewrite Hhm, Er, Eu. reflexivity. }
  destruct (search_leftmost _ _ _ Hhm) as (before & line & Hout & Hm & Hleft).
  destruct (match_here_hash_pattern _ _ Hm) as (token & after & Hat & Hstop & Hg).
  rewrite Hg in Ex.
  exists before, line, token, after.
  split; [exact Hout|]. split; [exact Hat|]. split; [exact Hstop|].
  split.
  { intros b1 b2 E Hb2. apply match_here_hash_none. eapply Hleft; eassumption. }
  split; [exact Ex|]. split; [rewrite Ex; discriminate|].
  intros a returncode stdout st Hrc. unfold iteration.
  apply Z.eqb_neq in Hrc. rewrite Hrc, Ex.
  destruct (extract_truthy _ _ _ _ Ex) as [_ ->]. simpl.
  rewrite <- app_assoc. auto.
Qed.

Lemma computed_hash_by_search output :
  is_Some (Re.search hash_pattern output) -> has_computed_hash output.
Proof. apply search_hash_pattern_iff. Qed.

Lemma no_unpack_line_by_search output :
  Re.search rev_pattern output = None -> ~ has_unpack_line output.
Proof.
  intros E H. apply search_rev_pattern_iff in H as [m Hm]. congruence.
Qed.

Lemma no_archive_url_by_search output :
  Re.search url_pattern output = None -> ~ has_archive_url output.
Proof.
  intros E H. apply search_url_pattern_iff in H as [m Hm]. congruence.
Qed.

Lemma hash_without_revision_is_recoverable_witness :
  let output :=
    "error: hash mismatch in fixed-output derivation" +:+ Example.newline
    +:+ "  got:    sha256-YYYY" +:+ Example.newline in
  has_computed_hash output /\ ~ has_unpack_line output /\ ~ has_archive_url output
  /\ extract_hash_mismatch_info output = (None, Some "sha256-YYYY", None)
  /\ exists before line after,
       output = before +:+ line
       /\ computed_hash_at line "YYYY" after
       /\ stops Re.is_hash_char after.
Proof.
  intros output.
  assert (Hh : has_computed_hash output)
    by (apply computed_hash_by_search; vm_compute; eauto).
  assert (Hr : ~ has_unpack_line output)
    by (apply no_unpack_line_by_search; vm_compute; reflexivity).
  assert (Hu : ~ has_archive_url output)
    by (apply no_archive_url_by_search; vm_compute; reflexivity).
  assert (Hx : extract_hash_mismatch_info output = (None, Some "sha256-YYYY", None))
    by (vm_compute; reflexivity).
  split; [exact Hh|]. split; [exact Hr|]. split; [exact Hu|]. split; [exact Hx|].
  destruct (hash_without_revision_is_recoverable
              (Example.load_among []) Example.dump output Hh Hr Hu)
    as (before & line & token & after & Hout & Hat & Hstop & _ & E & _).
  rewrite Hx in E.
  assert (Et : token = "YYYY")
    by (cbv beta iota fix delta [String.append] in E; congruence).
  subst token.
  exists before, line, after. split; [exact Hout|]. split; [exact Hat|exact Hstop].
Defined.

(** ** ManifestLocator *)

Lemma py_eq_str_spec v s : py_eq_str v s = true <-> v = JString s.
Proof.
  destruct v; simpl; try (split; [discriminate|intros [=]]).
  rewrite String.eqb_eq. split; [intros ->; reflexivity|intros [= ->]; reflexivity].
Qed.

Lemma is_match_spec tr ph members :
  is_match tr ph members = true <->
  dict_get "rev" members = Some (JString tr) /\ dict_get "hash" members = Some (JString ph).
Proof.
  unfold is_match.
  destruct (dict_get "rev" members) as [r|], (dict_get "hash" members) as [h|];
    try (split; [discriminate|intros [? ?]; discriminate]).
  rewrite andb_true_iff, !py_eq_str_spec.
  split; [intros [-> ->]; auto|intros [[= ->] [= ->]]; auto].
Qed.

Lemma eligibleb_spec tr ph n : eligibleb tr ph n = true <-> eligible tr ph n.
Proof.
  unfold eligibleb, eligible. split.
  - destruct (found_entry n); try discriminate.
    intros H. apply is_match_spec in H. eauto.
  - intros (members & -> & H). apply is_match_spec, H.
Qed.

Lemma eligibleb_under tr ph i n : eligibleb tr ph (under i n) = eligibleb tr ph n.
Proof. reflexivity. Qed.

Lemma head_app_or {A} (a b : list A) :
  head (a ++ b) = match head a with Some x => Some x | None => head b end.
Proof. destruct a; reflexivity. Qed.

Lemma head_filter_under tr ph i (l : list found) :
  head (List.filter (eligibleb tr ph) (map (under i) l))
  = under i <$> head (List.filter (eligibleb tr ph) l).
Proof.
  induction l as [|n l IH]; [reflexivity|]. simpl.
  rewrite eligibleb_under. destruct (eligibleb tr ph n); [reflexivity|exact IH].
Qed.

Lemma first_in_head {A} (p : found -> bool) (body : nat -> A -> option found)
  (lbody : nat -> A -> list found) (l : list A) :
  Forall (fun x => forall i, body i x = head (List.filter p (lbody i x))) l ->
  forall i, first_in body i l = head (List.filter p (flat_in lbody i l)).
Proof.
  induction 1 as [|x l Hx _ IH]; intros i; simpl; [reflexivity|].
  rewrite List.filter_app, head_app_or, <- Hx, IH.
  destruct (body i x); reflexivity.
Qed.

Lemma search_recursive_nodes tr ph obj :
  forall path,
    search_recursive tr ph obj path
    = head (List.filter (eligibleb tr ph) (nodes obj path)).
Proof.
  induction obj as [|b|z|repr|s|items IH|members IH] using json_tree_ind;
    intros path; try reflexivity.
  - cbn [search_recursive nodes List.filter eligibleb found_entry].
    apply first_in_head. eapply Forall_impl; [exact IH|].
    intros x Hx i. cbv beta. rewrite Hx. symmetry. apply head_filter_under.
  - cbn [search_recursive nodes List.filter eligibleb found_entry].
    destruct (is_match tr ph members); [reflexivity|].
    apply first_in_head. eapply Forall_impl; [exact IH|].
    intros [key value] Hx i. cbn [snd] in Hx. rewrite Hx.
    symmetry. apply head_filter_under.
Qed.

Lemma flat_in_elem {A B} (body : nat -> A -> list B) (l : list A) :
  forall i n,
    n ∈ flat_in body i l ->
    exists j x, l !! j = Some x /\ n ∈ body (i + j)%nat x.
Proof.
  induction l as [|x l IH]; intros i n Hn; simpl in Hn; [inversion Hn|].
  apply elem_of_app in Hn as [Hn|Hn].
  - exists 0%nat, x. rewrite Nat.add_0_r. auto.
  - destruct (IH _ _ Hn) as (j & y & Hj & Hn').
    exists (S j), y. rewrite Nat.add_succ_r. auto.
Qed.

(** The reference of a node leads to the node. *)
Lemma nodes_deref obj :
  forall path n, n ∈ nodes obj path -> deref (found_ref n) obj = Some (found_entry n).
Proof.
  induction obj as [|b|z|repr|s|items IH|members IH] using json_tree_ind;
    intros path n Hn; cbn [nodes] in Hn;
    apply elem_of_cons in Hn as [->|Hn]; try reflexivity; try (inversion Hn; fail).
  - apply flat_in_elem in Hn as (j & x & Hj & Hn).
    apply list_elem_of_fmap in Hn as (n' & -> & Hn').
    rewrite Forall_lookup in IH. specialize (IH _ _ Hj _ _ Hn').
    simpl. rewrite Hj. exact IH.
  - apply flat_in_elem in Hn as (j & [key value] & Hj & Hn).
    apply list_elem_of_fmap in Hn as (n' & -> & Hn').
    rewrite Forall_lookup in IH. specialize (IH _ _ Hj _ _ Hn').
    simpl. rewrite Hj. exact IH.
Qed.

Lemma head_filter_elem {A} (p : A -> bool) (l : list A) x :
  head (List.filter p l) = Some x -> x ∈ l /\ p x = true.
Proof.
  induction l as [|y l IH]; simpl; [discriminate|].
  destruct (p y) eqn:E.
  - intros [= <-]. split; [left|exact E].
  - intros H. destruct (IH H). split; [right|]; assumption.
Qed.

Lemma found_is_eligible tr ph data r :
  find_entry_by_rev tr ph data = Some r ->
  eligible tr ph r /\ deref (found_ref r) data = Some (found_entry r).
Proof.
  intros Hr. unfold find_entry_by_rev in Hr. rewrite search_recursive_nodes in Hr.
  apply head_filter_elem in Hr as [Hin He]. split.
  - apply eligibleb_spec, He.
  - eapply nodes_deref, Hin.
Qed.

(** C3: the locator returns at most one entry, the first eligible node of
    the document in document order (depth first, members in stored order,
    elements by index); a node is eligible exactly when it is a mapping
    whose ['rev'] is the target and whose ['hash'] is the placeholder; the
    entry handed back is the node of the document at the returned
    reference. *)
Theorem locator_returns_first_eligible tr ph data :
  find_entry_by_rev tr ph data = head (List.filter (eligibleb tr ph) (nodes data ""))
  /\ (forall n, eligibleb tr ph n = true <-> eligible tr ph n)
  /\ (forall r, find_entry_by_rev tr ph data = Some r ->
         eligible tr ph r /\ deref (found_ref r) data = Some (found_entry r)).
Proof.
  split; [apply search_recursive_nodes|]. split; [apply eligibleb_spec|].
  apply found_is_eligible.
Qed.

(** An entry with the revision but another hash is not handed back, and a
    later eligible entry is passed over for an earlier one. *)
Example locator_skips_other_hash :
  let data :=
    JArray [JObject [("rev", JString "abc"); ("hash", JString "sha256-done")];
            JObject [("inner", JObject [("rev", JString "abc"); ("hash", JString "P")])];
            JObject [("rev", JString "abc"); ("hash", JString "P")]] in
  find_entry_by_rev "abc" "P" data
  = Some (Found "[1].inner" [1; 0]%nat
            (JObject [("rev", JString "abc"); ("hash", JString "P")])).
Proof. reflexivity. Qed.

(** ** ManifestPatcher *)

Lemma py_eq_str_update ref key x v s :
  py_eq_str (update_at ref (set_item key x) v) s = py_eq_str v s.
Proof. destruct ref, v; reflexivity. Qed.

Lemma dict_get_alter key (h : json -> json) j members :
  dict_get key (alter (fun kv => (fst kv, h (snd kv))) j members) = dict_get key members
  \/ exists v, dict_get key members = Some v
              /\ dict_get key (alter (fun kv => (fst kv, h (snd kv))) j members)
                 = Some (h v).
Proof.
  revert j. induction members as [|[k v] members IH]; intros j; [left; reflexivity|].
  destruct j as [|j]; simpl.
  - destruct (String.eqb k key); [right; eauto|left; reflexivity].
  - destruct (String.eqb k key); [left; reflexivity|apply IH].
Qed.

Lemma is_match_alter tr ph (h : json -> json) j members :
  (forall v s, py_eq_str (h v) s = py_eq_str v s) ->
  is_match tr ph (alter (fun kv => (fst kv, h (snd kv))) j members)
  = is_match tr ph members.
Proof.
  intros Hh. unfold is_match.
  destruct (dict_get_alter "rev" h j members) as [->|(r & -> & ->)],
           (dict_get_alter "hash" h j members) as [->|(v & -> & ->)];
    rewrite ?Hh; reflexivity.
Qed.

Lemma dict_get_set key v members : dict_get key (dict_set key v members) = Some v.
Proof.
  induction members as [|[k v'] members IH]; simpl.
  - rewrite String.eqb_refl. reflexivity.
  - destruct (String.eqb k key) eqn:E; simpl; rewrite E; [reflexivity|exact IH].
Qed.

Lemma sum_dict_set (f : json -> nat) key v v' members :
  dict_get key members = Some v -> f v' = f v ->
  sum_list (map (fun kv => f (snd kv)) (dict_set key v' members))
  = sum_list (map (fun kv => f (snd kv)) members).
Proof.
  intros Hget Hf. induction members as [|[k w] members IH]; simpl in *; [discriminate|].
  destruct (String.eqb k key); simpl.
  - injection Hget as ->. rewrite Hf. reflexivity.
  - rewrite IH; auto.
Qed.

Lemma sum_list_alter {A} (f : A -> nat) (g : A -> A) j (l : list A) x :
  l !! j = Some x -> S (f (g x)) = f x ->
  S (sum_list (map f (alter g j l))) = sum_list (map f l).
Proof.
  revert j. induction l as [|y l IH]; intros j Hj Hf; [discriminate|].
  destruct j as [|j]; simpl in *.
  - injection Hj as ->. rewrite <- Hf. reflexivity.
  - rewrite <- (IH _ Hj Hf). rewrite Nat.add_succ_r. reflexivity.
Qed.

Lemma first_in_Some {A} (body : nat -> A -> option found) (l : list A) :
  forall i r, first_in body i l = Some r ->
    exists j x, l !! j = Some x /\ body (i + j)%nat x = Some r.
Proof.
  induction l as [|x l IH]; intros i r; simpl; [discriminate|].
  destruct (body i x) eqn:E.
  - intros [= <-]. exists 0%nat, x. rewrite Nat.add_0_r. auto.
  - intros H. destruct (IH _ _ H) as (j & y & Hj & Hb).
    exists (S j), y. rewrite Nat.add_succ_r. auto.
Qed.

(** Patching the entry the locator found takes exactly one node out of the
    eligible ones. *)
Lemma patch_removes_one_match tr ph new_hash obj :
  new_hash <> ph ->
  forall path r,
    search_recursive tr ph obj path = Some r ->
    S (count_matches tr ph
         (update_at (found_ref r) (set_item "hash" (JString new_hash)) obj))
    = count_matches tr ph obj.
Proof.
  intros Hnew.
  induction obj as [|b|z|repr|s|items IH|members IH] using json_tree_ind;
    intros path r; try discriminate.
  - cbn [search_recursive]. intros H.
    apply first_in_Some in H as (j & x & Hj & Hb). simpl in Hb.
    destruct (search_recursive tr ph x _) as [r'|] eqn:E; [|discriminate].
    injection Hb as <-. rewrite Forall_lookup in IH. specialize (IH _ _ Hj _ _ E).
    cbn [under found_ref update_at count_matches].
    apply sum_list_alter with (x := x); assumption.
  - cbn [search_recursive]. destruct (is_match tr ph members) eqn:M.
    + intros [= <-]. cbn [found_ref update_at set_item count_matches]. rewrite M.
      apply is_match_spec in M as [_ Hh].
      assert (M' : is_match tr ph (dict_set "hash" (JString new_hash) members) = false).
      { apply not_true_is_false. intros M'. apply is_match_spec in M' as [_ M'].
        rewrite dict_get_set in M'. congruence. }
      rewrite M'. simpl.
      rewrite (sum_dict_set (count_matches tr ph) "hash" (JString ph)); auto.
    + intros H. apply first_in_Some in H as (j & [key value] & Hj & Hb). simpl in Hb.
      destruct (search_recursive tr ph value _) as [r'|] eqn:E; [|discriminate].
      injection Hb as <-. rewrite Forall_lookup in IH. specialize (IH _ _ Hj _ _ E).
      cbn [under found_ref update_at count_matches].
      rewrite is_match_alter by (intros; apply py_eq_str_update). rewrite M. simpl.
      apply (sum_list_alter (fun kv => count_matches tr ph (snd kv))
               (fun kv => (fst kv, update_at (found_ref r') _ (snd kv))) j members
               (key, value)); assumption.
Qed.

Lemma filter_flat_in_length {A} (p : found -> bool) (lbody : nat -> A -> list found)
  (f : A -> nat) (l : list A) :
  Forall (fun x => forall i, length (List.filter p (lbody i x)) = f x) l ->
  forall i, length (List.filter p (flat_in lbody i l)) = sum_list (map f l).
Proof.
  induction 1 as [|x l Hx _ IH]; intros i; simpl; [reflexivity|].
  rewrite List.filter_app, length_app, Hx, IH. reflexivity.
Qed.

Lemma filter_under_length tr ph i (l : list found) :
  length (List.filter (eligibleb tr ph) (map (under i) l))
  = length (List.filter (eligibleb tr ph) l).
Proof.
  induction l as [|n l IH]; [reflexivity|]. simpl.
  rewrite eligibleb_under. destruct (eligibleb tr ph n); simpl; congruence.
Qed.

(** [count_matches] counts the eligible nodes of the document. *)
Lemma count_matches_nodes tr ph obj :
  forall path,
    count_matches tr ph obj = length (List.filter (eligibleb tr ph) (nodes obj path)).
Proof.
  induction obj as [|b|z|repr|s|items IH|members IH] using json_tree_ind;
    intros path; try reflexivity.
  - cbn [count_matches nodes List.filter eligibleb found_entry]. symmetry.
    apply filter_flat_in_length. eapply Forall_impl; [exact IH|].
    intros x Hx i. cbv beta. rewrite filter_under_length. symmetry. apply Hx.
  - cbn [count_matches nodes List.filter eligibleb found_entry].
    assert (E : length (List.filter (eligibleb tr ph)
                   (flat_in (fun i (kv : string * json) =>
                               let (key, value) := kv in
                               map (under i) (nodes value (key_path path key)))
                      0 members))
                = sum_list (map (fun kv => count_matches tr ph (snd kv)) members)).
    { apply filter_flat_in_length. eapply Forall_impl; [exact IH|].
      intros [key value] Hx i. cbn [snd] in *. rewrite filter_under_length.
      symmetry. apply Hx. }
    destruct (is_match tr ph members); simpl; rewrite E; reflexivity.
Qed.

Lemma no_match_not_found tr ph data :
  count_matches tr ph data = 0%nat <-> find_entry_by_rev tr ph data = None.
Proof.
  unfold find_entry_by_rev.
  rewrite (count_matches_nodes tr ph data ""), search_recursive_nodes.
  destruct (List.filter (eligibleb tr ph) (nodes data "")); simpl;
    split; congruence.
Qed.

(** The entry the locator hands back is a non-empty mapping. *)
Lemma found_is_truthy tr ph data r :
  find_entry_by_rev tr ph data = Some r -> py_truthy (found_entry r) = true.
Proof.
  intros H. apply found_is_eligible in H as [(members & -> & Hrev & _) _].
  destruct members; [discriminate|reflexivity].
Qed.

(** C5: the patcher changes the file only when an eligible entry is found
    and preview mode is off.  When no entry matches it reports failure with
    the not-found message and leaves the file as it was; in preview mode it
    leaves the file as it was whatever it finds, and on an entry it reports
    success and says what it would update.  When the file is not as it was,
    preview mode was off, an entry was found and the write was attempted:
    a write that succeeds leaves the text of the patched document and the
    success message; one that fails is reported as a failure and leaves the
    old text, if the file could not be opened, or else the part of the new
    text that was written before the error. *)
Theorem patcher_mutates_only_on_real_patch json_load json_dump f tr new_hash ph dry :
  let run := update_json_by_rev json_load json_dump f tr new_hash ph dry in
  (forall content w data,
      f = Stored content w -> json_load content = Loaded data ->
      find_entry_by_rev tr ph data = None ->
      run = ((false, not_found_message tr, None), f)
      /\ Str.contains "No entry found" (not_found_message tr) = true)
  /\ (forall content w data r,
        f = Stored content w -> json_load content = Loaded data ->
        find_entry_by_rev tr ph data = Some r -> dry = true ->
        run = ((true, "Would update hash for entry at path: " +:+ found_path r,
                Some (found_path r)), f))
  /\ (dry = true -> snd run = f)
  /\ (snd run <> f ->
      dry = false
      /\ exists content writes data r,
          f = Stored content writes /\ json_load content = Loaded data
          /\ find_entry_by_rev tr ph data = Some r
          /\ let text :=
               json_dump (update_at (found_ref r)
                            (set_item "hash" (JString new_hash)) data) in
             run = match next_write writes with
                   | (Written, writes') =>
                       ((true, "Updated hash for entry at path: " +:+ found_path r,
                         Some (found_path r)),
                        Stored text writes')
                   | (OpenFails err, writes') =>
                       ((false, "Error updating file: " +:+ err, None),
                        Stored content writes')
                   | (WriteFails kept err, writes') =>
                       ((false, "Error updating file: " +:+ err, None),
                        Stored (Str.slice_to kept text) writes')
                   end).
Proof.
  intros run. subst run. split; [|split; [|split]].
  - intros content w data -> Hload Hfind. unfold update_json_by_rev.
    rewrite Hload, Hfind. split; reflexivity.
  - intros content w data r -> Hload Hfind ->. unfold update_json_by_rev.
    rewrite Hload, Hfind, (found_is_truthy _ _ _ _ Hfind). reflexivity.
  - intros ->. unfold update_json_by_rev.
    destruct f as [e|e|content w]; try reflexivity.
    destruct (json_load content) as [data|msg]; [|reflexivity].
    destruct (find_entry_by_rev tr ph data) as [r|]; [|reflexivity].
    destruct (negb (py_truthy (found_entry r))); reflexivity.
  - unfold update_json_by_rev.
    destruct f as [e|e|content w]; try (intros H; exfalso; apply H; reflexivity).
    destruct (json_load content) as [data|msg] eqn:Hload;
      [|intros H; exfalso; apply H; reflexivity].
    destruct (find_entry_by_rev tr ph data) as [r|] eqn:Hfind;
      [|intros H; exfalso; apply H; reflexivity].
    rewrite (found_is_truthy _ _ _ _ Hfind). simpl.
    destruct dry; [intros H; exfalso; apply H; reflexivity|].
    intros _. split; [reflexivity|]. exists content, w, data, r.
    split; [reflexivity|]. split; [exact Hload|]. split; [exact Hfind|].
    cbv zeta. destruct (next_write w) as [[|err|kept err] w']; reflexivity.
Qed.

(** A write that fails after [open] has truncated the file is reported as
    a failure and leaves a text that is no longer the document's. *)
Example failed_write_truncates :
  let data := Example.manifest_of
                [Example.entry "abc123" PLACEHOLDER_HASH "https://github.com/org/repo"] in
  update_json_by_rev (Example.load_among [data]) Example.dump
    (Stored (Example.dump data) [WriteFails 12 "[Errno 28] No space left on device"])
    "abc123" "sha256-NEW=" PLACEHOLDER_HASH false
  = ((false, "Error updating file: [Errno 28] No space left on device", None),
     Stored ("{" +:+ Example.newline +:+ "  " +:+ Example.dq +:+ "name"
             +:+ Example.dq +:+ ": ") []).
Proof. vm_compute. reflexivity. Qed.

(** C4, as it holds: a successful non-preview patch with a new hash other
    than the placeholder takes the patched entry, and no other, out of the
    eligible ones; a locate on the resulting document for the same
    revision and placeholder returns not-found exactly when the patched
    entry was the only eligible one. *)
Theorem patch_then_locate json_load json_dump content data tr new_hash ph r :
  json_load content = Loaded data ->
  find_entry_by_rev tr ph data = Some r ->
  new_hash <> ph ->
  let data' := update_at (found_ref r) (set_item "hash" (JString new_hash)) data in
  update_json_by_rev json_load json_dump (Stored content []) tr new_hash ph false
  = ((true, "Updated hash for entry at path: " +:+ found_path r, Some (found_path r)),
     Stored (json_dump data') [])
  /\ S (count_matches tr ph data') = count_matches tr ph data
  /\ (find_entry_by_rev tr ph data' = None <-> count_matches tr ph data = 1%nat).
Proof.
  intros Hload Hfind Hnew data'. split; [|split].
  - unfold update_json_by_rev.
    rewrite Hload, Hfind, (found_is_truthy _ _ _ _ Hfind). reflexivity.
  - apply (patch_removes_one_match tr ph new_hash data Hnew "" r Hfind).
  - rewrite <- no_match_not_found.
    pose proof (patch_removes_one_match tr ph new_hash data Hnew "" r Hfind) as H.
    fold data' in H. lia.
Qed.

Lemma patch_then_locate_witness :
  let data := Example.manifest_of
                [Example.entry "abc123" PLACEHOLDER_HASH "https://github.com/org/repo"] in
  let data' := Example.manifest_of
                 [Example.entry "abc123" "sha256-NEW=" "https://github.com/org/repo"] in
  Example.load_among [data] (Example.dump data) = Loaded data
  /\ "sha256-NEW=" <> PLACEHOLDER_HASH
  /\ count_matches "abc123" PLACEHOLDER_HASH data = 1%nat
  /\ find_entry_by_rev "abc123" PLACEHOLDER_HASH data' = None.
Proof.
  intros data data'.
  assert (Hload : Example.load_among [data] (Example.dump data) = Loaded data)
    by (vm_compute; reflexivity).
  assert (Hnew : "sha256-NEW=" <> PLACEHOLDER_HASH) by discriminate.
  assert (Hfind : find_entry_by_rev "abc123" PLACEHOLDER_HASH data
                  = Some (Found "deps[0]" [1; 0]%nat
                            (Example.entry "abc123" PLACEHOLDER_HASH
                               "https://github.com/org/repo")))
    by (vm_compute; reflexivity).
  assert (Hone : count_matches "abc123" PLACEHOLDER_HASH data = 1%nat)
    by (vm_compute; reflexivity).
  split; [exact Hload|]. split; [exact Hnew|]. split; [exact Hone|].
  destruct (patch_then_locate (Example.load_among [data]) Example.dump
              (Example.dump data) data "abc123" "sha256-NEW=" PLACEHOLDER_HASH _
              Hload Hfind Hnew) as (_ & _ & Hiff).
  apply Hiff, Hone.
Defined.

(** C4, as stated, fails when a second entry carries the same revision and
    the placeholder: the patch succeeds, the new hash differs from the
    placeholder, and the locate on the written document finds the second
    entry. *)
Lemma patch_then_locate_counterexample :
  let first := Example.entry "abc123" PLACEHOLDER_HASH "https://a.example/x" in
  let second := Example.entry "abc123" PLACEHOLDER_HASH "https://b.example/y" in
  let patched := Example.entry "abc123" "sha256-NEW=" "https://a.example/x" in
  let data := Example.manifest_of [first; second] in
  let data' := Example.manifest_of [patched; second] in
  let load := Example.load_among [data; data'] in
  update_json_by_rev load Example.dump (Stored (Example.dump data) [])
    "abc123" "sha256-NEW=" PLACEHOLDER_HASH false
  = ((true, "Updated hash for entry at path: deps[0]", Some "deps[0]"),
     Stored (Example.dump data') [])
  /\ "sha256-NEW=" <> PLACEHOLDER_HASH
  /\ load (Example.dump data') = Loaded data'
  /\ find_entry_by_rev "abc123" PLACEHOLDER_HASH data'
     = Some (Found "deps[1]" [1; 1]%nat second).
Proof.
  repeat split; try discriminate; vm_compute; reflexivity.
Qed.

(** ** PlaceholderCounter *)

Lemma app_prefix_length p t x y :
  p +:+ t = x +:+ y -> (String.length p <= String.length x)%nat ->
  exists q, x = p +:+ q.
Proof.
  revert x. induction p as [|a p IH]; intros x H Hlen.
  - exists x. reflexivity.
  - destruct x as [|b x]; [simpl in Hlen; lia|].
    rewrite !str_app_cons in H. injection H as -> H.
    simpl in Hlen. destruct (IH x H ltac:(lia)) as [q ->].
    exists q. reflexivity.
Qed.

Lemma length_zero_empty s : String.length s = 0%nat -> s = "".
Proof. destruct s; [reflexivity|discriminate]. Qed.

Lemma count_scan_skip sub w rest :
  Str.count_scan sub (String.length w) (w +:+ rest) = Str.count_scan sub 0 rest.
Proof.
  induction w as [|c w IH]; [reflexivity|].
  rewrite str_app_cons. simpl. exact IH.
Qed.

Lemma occurs_tail sub c s : occurs sub s -> occurs sub (String c s).
Proof.
  intros (before & after & ->). exists (String c before), after. reflexivity.
Qed.

Lemma contains_spec sub s : Str.contains sub s = true <-> occurs sub s.
Proof.
  induction s as [|c s IH].
  - simpl. rewrite orb_false_r, startswith_spec. split.
    + intros [t Ht]. exists "", t. exact Ht.
    + intros (b & a & E). destruct b; [|discriminate]. eauto.
  - simpl. rewrite orb_true_iff, startswith_spec, IH. split.
    + intros [[t Ht]|H]; [exists "", t; exact Ht|apply occurs_tail, H].
    + intros (b & a & E). destruct b as [|c' b].
      * left. eauto.
      * right. rewrite str_app_cons in E. injection E as _ ->. exists b, a. reflexivity.
Qed.

Lemma classic_occurs sub s : occurs sub s \/ ~ occurs sub s.
Proof.
  destruct (Str.contains sub s) eqn:E.
  - left. apply contains_spec, E.
  - right. intros H. apply contains_spec in H. congruence.
Qed.

Lemma count_scan_none sub s : ~ occurs sub s -> Str.count_scan sub 0 s = 0%nat.
Proof.
  induction s as [|c s IH]; intros Hno; [reflexivity|]. simpl.
  destruct (Str.startswith (String c s) sub) eqn:E.
  - exfalso. apply Hno. apply startswith_spec in E as [t Ht].
    exists "", t. exact Ht.
  - apply IH. intros H. apply Hno, occurs_tail, H.
Qed.

Lemma first_occurrence_tail sub c before :
  first_occurrence sub (String c before) -> first_occurrence sub before.
Proof.
  intros H p q E. apply (H (String c p) q). rewrite !str_app_cons, E. reflexivity.
Qed.

Lemma first_occurrence_not_start sub c before rest :
  first_occurrence sub (String c before) ->
  Str.startswith (String c before +:+ sub +:+ rest) sub = false.
Proof.
  intros Hfirst. apply not_true_is_false. intros E.
  apply startswith_spec in E as [t Ht].
  rewrite <- app_assoc_s in Ht. symmetry in Ht.
  destruct (app_prefix_length _ _ _ _ Ht) as [q Hq].
  { rewrite length_app_s. lia. }
  pose proof (Hfirst "" q Hq) as ->.
  apply (f_equal String.length) in Hq.
  rewrite str_app_nil_r, length_app_s in Hq. simpl in Hq. lia.
Qed.

Lemma count_scan_first sub before rest :
  sub <> "" -> first_occurrence sub before ->
  Str.count_scan sub 0 (before +:+ sub +:+ rest) = S (Str.count_scan sub 0 rest).
Proof.
  intros Hne. induction before as [|c before IH]; intros Hfirst.
  - rewrite str_app_nil_l. destruct sub as [|a sub]; [congruence|].
    rewrite str_app_cons.
    change (Str.count_scan (String a sub) 0 (String a (sub +:+ rest)))
      with (if Str.startswith (String a (sub +:+ rest)) (String a sub)
            then S (Str.count_scan (String a sub) (String.length (String a sub) - 1)
                      (sub +:+ rest))
            else Str.count_scan (String a sub) 0 (sub +:+ rest)).
    rewrite <- str_app_cons.
    rewrite (proj2 (startswith_spec _ _)) by eauto.
    simpl String.length.
    replace (S (String.length sub) - 1)%nat with (String.length sub) by lia.
    rewrite count_scan_skip. reflexivity.
  - pose proof (first_occurrence_not_start sub c before rest Hfirst) as E.
    rewrite str_app_cons in *.
    change (Str.count_scan sub 0 (String c (before +:+ sub +:+ rest)))
      with (if Str.startswith (String c (before +:+ sub +:+ rest)) sub
            then S (Str.count_scan sub (String.length sub - 1)
                      (before +:+ sub +:+ rest))
            else Str.count_scan sub 0 (before +:+ sub +:+ rest)).
    rewrite E. apply IH. eapply first_occurrence_tail, Hfirst.
Qed.

Lemma occurrences_count sub s n :
  sub <> "" -> occurrences sub s n -> Str.count_scan sub 0 s = n.
Proof.
  intros Hne. induction 1 as [s Hno|before rest n Hfirst _ IH].
  - apply count_scan_none, Hno.
  - rewrite count_scan_first, IH; auto.
Qed.

Lemma first_occurrence_split sub s :
  occurs sub s ->
  exists before rest, s = before +:+ sub +:+ rest /\ first_occurrence sub before.
Proof.
  induction s as [|c s IH]; intros Hocc.
  - destruct Hocc as (b & a & E). exists "", "".
    destruct b; [|discriminate]. rewrite str_app_nil_l in E.
    destruct sub; [|discriminate]. split; [reflexivity|].
    intros p q Hpq. destruct p; [|discriminate]. destruct q; [reflexivity|discriminate].
  - destruct (Str.startswith (String c s) sub) eqn:E.
    + apply startswith_spec in E as [t Ht]. exists "", t. split; [exact Ht|].
      intros p q Hpq. apply (f_equal String.length) in Hpq.
      rewrite str_app_nil_l, !length_app_s in Hpq.
      apply length_zero_empty. lia.
    + assert (Hs : occurs sub s).
      { destruct Hocc as (b & a & Hb). destruct b as [|c' b].
        - rewrite str_app_nil_l in Hb.
          rewrite (proj2 (startswith_spec _ _)) in E by eauto. discriminate.
        - rewrite str_app_cons in Hb. injection Hb as _ ->. exists b, a. reflexivity. }
      destruct (IH Hs) as (before & rest & -> & Hfirst).
      exists (String c before), rest. split; [reflexivity|].
      intros p q Hpq. destruct p as [|c' p].
      * rewrite str_app_nil_l in Hpq.
        rewrite (proj2 (startswith_spec _ _)) in E; [discriminate|].
        exists (q +:+ rest). rewrite <- (app_assoc_s sub q rest), <- Hpq.
        rewrite app_assoc_s. reflexivity.
      * rewrite !str_app_cons in Hpq. injection Hpq as _ Hpq. eapply Hfirst, Hpq.
Qed.

Lemma occurrences_exist sub :
  sub <> "" -> forall s, occurrences sub s (Str.count_scan sub 0 s).
Proof.
  intros Hne s. remember (String.length s) as len eqn:Hlen.
  revert s Hlen. induction len as [len IH] using lt_wf_ind. intros s ->.
  destruct (classic_occurs sub s) as [Hocc|Hno].
  - destruct (first_occurrence_split _ _ Hocc) as (before & rest & -> & Hfirst).
    rewrite count_scan_first by assumption.
    apply occurrences_next; [exact Hfirst|].
    apply (IH (String.length rest)); [|reflexivity].
    rewrite !length_app_s. destruct sub; [congruence|]. simpl. lia.
  - rewrite count_scan_none by assumption. apply occurrences_none, Hno.
Qed.

Lemma skip_positions sub t :
  unbordered sub ->
  Str.count_scan sub 0 t = positions sub t ->
  forall v u, u <> "" -> sub = u +:+ v ->
    Str.count_scan sub (String.length v) (v +:+ t) = positions sub (v +:+ t).
Proof.
  intros Hub Ht. induction v as [|c v IH]; intros u Hu Hsub.
  - exact Ht.
  - rewrite str_app_cons. simpl.
    assert (E : Str.startswith (String c (v +:+ t)) sub = false).
    { apply not_true_is_false. intros E. apply startswith_spec in E as [x Hx].
      destruct (app_prefix_length (String c v) t sub x Hx) as [q Hq].
      { rewrite Hsub, length_app_s. lia. }
      destruct (Hub u (String c v) q Hsub Hq); congruence. }
    rewrite E. simpl. apply (IH (u +:+ String c "")).
    + destruct u; discriminate.
    + rewrite app_assoc_s. exact Hsub.
Qed.

Lemma count_scan_positions sub :
  unbordered sub -> sub <> "" ->
  forall s, Str.count_scan sub 0 s = positions sub s.
Proof.
  intros Hub Hne s. remember (String.length s) as len eqn:Hlen.
  revert s Hlen. induction len as [len IH] using lt_wf_ind. intros s ->.
  destruct s as [|c s].
  - simpl. destruct sub; [congruence|reflexivity].
  - simpl. destruct (Str.startswith (String c s) sub) eqn:E.
    + apply startswith_spec in E as [t Ht].
      destruct sub as [|a sub]; [congruence|].
      rewrite str_app_cons in Ht. injection Ht as -> ->.
      simpl String.length.
      replace (S (String.length sub) - 1)%nat with (String.length sub) by lia.
      f_equal. apply (skip_positions (String a sub) t Hub) with (u := String a "");
        [|discriminate|reflexivity].
      apply (IH (String.length t)); [|reflexivity].
      simpl. rewrite length_app_s. lia.
    + apply (IH (String.length s)); [simpl; lia|reflexivity].
Qed.

Lemma positions_empty s : positions "" s = S (String.length s).
Proof. induction s as [|c s IH]; [reflexivity|]. simpl in *. rewrite IH. reflexivity. Qed.

Lemma slice_from_app u v : slice_from (String.length u) (u +:+ v) = v.
Proof. induction u as [|c u IH]; [destruct v; reflexivity|exact IH]. Qed.

Lemma unborderedb_sound sub : unborderedb sub = true -> unbordered sub.
Proof.
  intros H u v w Hu Hv.
  destruct v as [|c v]; [left; reflexivity|]. right.
  destruct u as [|a u]; [reflexivity|]. exfalso.
  unfold unborderedb in H. rewrite forallb_forall in H.
  specialize (H (String.length u)).
  assert (Hin : In (String.length u) (seq 0 (String.length sub - 1))).
  { apply in_seq. rewrite Hu, length_app_s. simpl. lia. }
  apply H in Hin. apply negb_true_iff in Hin.
  change (S (String.length u)) with (String.length (String a u)) in Hin.
  rewrite Hu in Hin at 2. rewrite slice_from_app in Hin.
  rewrite (proj2 (startswith_spec _ _)) in Hin by eauto. discriminate.
Qed.

(** C8, as it holds: on a file that cannot be read the counter returns
    zero; on a readable file it returns the number of occurrences of the
    placeholder in the raw text that a scan from left to right finds when
    it resumes after the end of each occurrence found, so that occurrences
    do not overlap; for a token that cannot overlap itself, as the default
    placeholder, that is the number of positions at which the token
    starts. *)
Theorem counter_counts_occurrences f ph :
  match f with
  | Stored content _ =>
      (ph <> "" ->
       forall n, occurrences ph content n <-> count_remaining_placeholders f ph = n)
      /\ (unbordered ph -> count_remaining_placeholders f ph = positions ph content)
  | Missing _ | Unreadable _ => count_remaining_placeholders f ph = 0%nat
  end.
Proof.
  destruct f as [e|e|content w]; try reflexivity. split.
  - intros Hne n. simpl. unfold Str.count. destruct ph as [|a ph]; [congruence|].
    split.
    + apply occurrences_count, Hne.
    + intros <-. apply occurrences_exist, Hne.
  - intros Hub. simpl. unfold Str.count. destruct ph as [|a ph].
    + symmetry. apply positions_empty.
    + apply count_scan_positions; [exact Hub|discriminate].
Qed.

Example default_placeholder_unbordered : unbordered PLACEHOLDER_HASH.
Proof. apply unborderedb_sound. vm_compute. reflexivity. Qed.

(** C8, as stated, fails for a token that overlaps itself: in the text of
    a manifest whose entry holds the hash [00000000] the token [0000]
    occurs at five positions, and the counter returns 2, as [str.count]
    has it. *)
Lemma counter_counterexample :
  let content :=
    Example.dump (Example.manifest_of
                    [Example.entry "abc123" "00000000" Scenario.url]) in
  count_remaining_placeholders (Stored content []) "0000" = 2%nat
  /\ positions "0000" content = 5%nat
  /\ count_remaining_placeholders (Stored content []) "0000"
     <> positions "0000" content.
Proof.
  intros content.
  assert (Hc : count_remaining_placeholders (Stored content []) "0000" = 2%nat)
    by (vm_compute; reflexivity).
  assert (Hp : positions "0000" content = 5%nat) by (vm_compute; reflexivity).
  split; [exact Hc|]. split; [exact Hp|]. rewrite Hc, Hp. discriminate.
Qed.

(** ** FixLoop *)

Section Loop.
Variable json_load : string -> loaded.
Variable json_dump : json -> string.
Variable a : args.

Local Abbreviation step := (iteration json_load json_dump a).
Local Abbreviation loop := (for_loop json_load json_dump a).

Ltac step_cases :=
  unfold iteration;
  repeat match goal with
         | |- context [match ?x with _ => _ end] =>
             let E := fresh "E" in destruct x eqn:E
         end.

Lemma no_summary_app st es :
  no_summary st -> forallb (fun e => negb (is_summary e)) es = true ->
  forallb (fun e => negb (is_summary e)) (out st ++ es) = true.
Proof. intros H1 H2. rewrite forallb_app, H1, H2. reflexivity. Qed.

Lemma step_attempts b st : attempts (fst (step b st)) = S (attempts st).
Proof. step_cases; reflexivity. Qed.

Lemma step_no_summary b st : no_summary st -> no_summary (fst (step b st)).
Proof.
  intros H. unfold no_summary in *. step_cases; simpl;
    rewrite ?forallb_app, ?H; simpl; rewrite ?forallb_app, ?H; reflexivity.
Qed.

Lemma step_exit_code b st st' code : step b st = (st', SysExit code) -> code = 1%Z.
Proof. step_cases; intros [= <- <-] || intros [=]; reflexivity. Qed.

Lemma patched_once_keep st st' :
  patched_once st -> replacements st' = replacements st ->
  processed_revs st ⊆ processed_revs st' -> patched_once st'.
Proof.
  intros [Hnd Hsub] Hr Hp. unfold patched_once. rewrite Hr.
  split; [exact Hnd|]. intros rev Hin. apply Hp, Hsub, Hin.
Qed.

Lemma patched_once_add st st' rev new_hash description :
  patched_once st -> rev ∉ processed_revs st ->
  replacements st' = replacements st ++ [(rev, new_hash, description)] ->
  processed_revs st' = processed_revs st ∪ {[rev]} -> patched_once st'.
Proof.
  intros [Hnd Hsub] Hnew Hr Hp. unfold patched_once, revisions in *.
  rewrite Hr, Hp, map_app. simpl. split.
  - apply NoDup_app. split; [exact Hnd|]. split.
    + intros x Hx Hx'. apply list_elem_of_singleton in Hx' as ->.
      apply Hnew, Hsub, Hx.
    + apply NoDup_singleton.
  - intros x Hx. apply elem_of_app in Hx as [Hx|Hx].
    + apply elem_of_union_l, Hsub, Hx.
    + apply list_elem_of_singleton in Hx as ->. apply elem_of_union_r.
      apply elem_of_singleton. reflexivity.
Qed.

Lemma step_patched_once b st : patched_once st -> patched_once (fst (step b st)).
Proof.
  intros H. step_cases; simpl;
    try (eapply patched_once_keep; [exact H|reflexivity|simpl; set_solver]);
    (eapply patched_once_add; [exact H| |reflexivity|reflexivity]; simpl; assumption).
Qed.

(** The pass on a diagnostic naming a processed revision: a warning and
    on to the next pass. *)
Lemma step_already_processed st returncode stdout stderr rev new_hash url :
  returncode <> 0%Z ->
  extract_hash_mismatch_info stderr = (Some rev, Some new_hash, url) ->
  rev ∈ processed_revs st ->
  step (Completed returncode stdout stderr) st
  = (emit [EAlreadyProcessed rev] (start_attempt st), Continue).
Proof.
  intros Hrc Hx Hin. unfold iteration.
  apply Z.eqb_neq in Hrc. rewrite Hrc, Hx.
  destruct (extract_truthy _ _ _ _ Hx) as [-> ->].
  destruct (decide (rev ∈ processed_revs (start_attempt st))) as [_|Hn];
    [reflexivity|]. exfalso. apply Hn, Hin.
Qed.

Lemma loop_attempts_le build n st :
  (attempts st <= attempts (fst (loop build n st)))%nat.
Proof.
  revert st. induction n as [|n IH]; intros st; simpl; [lia|].
  pose proof (step_attempts (build (attempts st)) st) as Hs.
  destruct (step (build (attempts st)) st) as [st' [| | | |err]]; simpl in *;
    try lia.
  specialize (IH st'). lia.
Qed.

Lemma loop_runs_a_build build n st :
  (0 < n)%nat -> (S (attempts st) <= attempts (fst (loop build n st)))%nat.
Proof.
  intros Hn. destruct n as [|n]; [lia|]. simpl.
  pose proof (step_attempts (build (attempts st)) st) as Hs.
  destruct (step (build (attempts st)) st) as [st' [| | | |err]] eqn:E; simpl in *;
    try lia.
  pose proof (loop_attempts_le build n st'). lia.
Qed.

Lemma loop_exhausted_attempts build n st st' :
  loop build n st = (st', Exhausted) -> attempts st' = (attempts st + n)%nat.
Proof.
  revert st. induction n as [|n IH]; intros st; simpl.
  - intros [= <-]. lia.
  - pose proof (step_attempts (build (attempts st)) st) as Hs.
    destruct (step (build (attempts st)) st) as [st1 [| | | |err]]; simpl in *;
      try discriminate.
    intros H. rewrite (IH _ H). lia.
Qed.

Lemma loop_patched_once build n st :
  patched_once st -> patched_once (fst (loop build n st)).
Proof.
  revert st. induction n as [|n IH]; intros st H; simpl; [exact H|].
  pose proof (step_patched_once (build (attempts st)) st H) as Hs.
  destruct (step (build (attempts st)) st) as [st1 [| | | |err]]; simpl in *;
    auto.
Qed.

Lemma loop_no_summary build n st :
  no_summary st -> no_summary (fst (loop build n st)).
Proof.
  revert st. induction n as [|n IH]; intros st H; simpl; [exact H|].
  pose proof (step_no_summary (build (attempts st)) st H) as Hs.
  destruct (step (build (attempts st)) st) as [st1 [| | | |err]]; simpl in *;
    auto.
Qed.

Lemma loop_exit_code build n st st' code :
  loop build n st = (st', Exited code) -> code = 1%Z.
Proof.
  revert st. induction n as [|n IH]; intros st; simpl; [discriminate|].
  destruct (step (build (attempts st)) st) as [st1 [| |c| |err]] eqn:E;
    try discriminate; eauto.
  intros [= <- <-]. eapply step_exit_code, E.
Qed.

(** Passes that all continue can be run in two stretches. *)
Lemma loop_split build j n st stj :
  loop build j st = (stj, Exhausted) ->
  loop build (j + n) st = loop build n stj.
Proof.
  revert st. induction j as [|j IH]; intros st; simpl.
  - intros [= <-]. reflexivity.
  - destruct (step (build (attempts st)) st) as [st1 [| | | |err]];
      try discriminate. apply IH.
Qed.

(** From a state in which [rev] is processed, builds that keep failing
    with the diagnostic of [rev] are each answered by a skip, until the
    passes run out. *)
Lemma loop_on_processed_revision build rev n :
  forall st,
    rev ∈ processed_revs st ->
    (forall k, (attempts st <= k)%nat ->
       exists returncode stdout stderr new_hash url,
         build k = Completed returncode stdout stderr /\ returncode <> 0%Z
         /\ extract_hash_mismatch_info stderr = (Some rev, Some new_hash, url)) ->
    exists st',
      loop build n st = (st', Exhausted)
      /\ json_file st' = json_file st
      /\ replacements st' = replacements st
      /\ processed_revs st' = processed_revs st
      /\ attempts st' = (attempts st + n)%nat.
Proof.
  induction n as [|n IH]; intros st Hin Hbuild; simpl.
  - exists st. rewrite Nat.add_0_r. auto.
  - destruct (Hbuild (attempts st) ltac:(lia))
      as (rc & so & se & h & url & -> & Hrc & Hx).
    rewrite (step_already_processed st rc so se rev h url Hrc Hx Hin).
    destruct (IH (emit [EAlreadyProcessed rev] (start_attempt st))) as (st' & -> & ? & ? & ? & ?).
    + exact Hin.
    + intros k Hk. apply Hbuild. simpl in Hk. lia.
    + exists st'. simpl in *. repeat split; try assumption. lia.
Qed.
End Loop.

(** C2: the replacement records of a run never name a revision twice; a
    diagnostic naming a processed revision is answered by a warning and
    the next pass, with nothing patched; and once the loop has reached a
    state in which a revision is processed, builds that keep failing with
    that revision's diagnostic change neither the file nor the records,
    and the run ends in [ExhaustedIterations] after exactly
    [max_iterations] builds. *)
Theorem revision_patched_at_most_once json_load json_dump a e :
  NoDup (revisions (replacements (final (main json_load json_dump a e))))
  /\ (forall st returncode stdout stderr rev new_hash url,
        returncode <> 0%Z ->
        extract_hash_mismatch_info stderr = (Some rev, Some new_hash, url) ->
        rev ∈ processed_revs st ->
        iteration json_load json_dump a (Completed returncode stdout stderr) st
        = (emit [EAlreadyProcessed rev] (start_attempt st), Continue))
  /\ (forall st0 j stj rev,
        (j <= Z.to_nat (max_iterations a))%nat ->
        for_loop json_load json_dump a (build e) j st0 = (stj, Exhausted) ->
        rev ∈ processed_revs stj ->
        (forall k, (attempts stj <= k)%nat ->
           exists returncode stdout stderr new_hash url,
             build e k = Completed returncode stdout stderr /\ returncode <> 0%Z
             /\ extract_hash_mismatch_info stderr = (Some rev, Some new_hash, url)) ->
        let r := run_loop json_load json_dump a e st0 in
        ended r = Some ExhaustedIterations
        /\ attempts (final r) = (attempts st0 + Z.to_nat (max_iterations a))%nat
        /\ replacements (final r) = replacements stj
        /\ json_file (final r) = json_file stj).
Proof.
  split; [|split].
  - assert (Hinit : forall f es, patched_once (emit es (initial_state f))).
    { intros f es. split; [apply NoDup_nil; exact I|]. intros rev Hin. inversion Hin. }
    assert (Hrun : forall st, patched_once st ->
              NoDup (revisions (replacements (final (run_loop json_load json_dump a e st))))).
    { intros st Hst. unfold run_loop.
      pose proof (loop_patched_once json_load json_dump a (build e)
                    (Z.to_nat (max_iterations a)) st Hst) as [Hnd _].
      destruct (for_loop json_load json_dump a (build e) _ st) as [st' [| | | |err]];
        simpl in *; repeat case_match; simpl; exact Hnd. }
    unfold main. repeat case_match; simpl; try (apply NoDup_nil; exact I);
      apply Hrun, Hinit.
  - intros st returncode stdout stderr rev new_hash url.
    apply step_already_processed.
  - intros st0 j stj rev Hj Hloop Hin Hbuild r. subst r. unfold run_loop.
    replace (Z.to_nat (max_iterations a))
      with (j + (Z.to_nat (max_iterations a) - j))%nat by lia.
    rewrite (loop_split _ _ _ _ _ _ _ _ Hloop).
    destruct (loop_on_processed_revision json_load json_dump a (build e) rev
                (Z.to_nat (max_iterations a) - j) stj Hin Hbuild)
      as (st' & -> & Hf & Hr & _ & Ha).
    pose proof (loop_exhausted_attempts _ _ _ _ _ _ _ Hloop) as Hj'.
    repeat case_match; simpl; repeat split; try assumption; lia.
Qed.

Lemma revision_patched_at_most_once_witness :
  let a := Scenario.arguments 3 in
  let e := Env Scenario.stored BackupCreated Scenario.always_mismatch in
  let st0 := emit [EFound 1] (initial_state Scenario.stored) in
  let r := run_loop Scenario.load Example.dump a e st0 in
  ended r = Some ExhaustedIterations
  /\ attempts (final r) = 3%nat
  /\ revisions (replacements (final r)) = ["abc123"].
Proof.
  intros a e st0 r.
  destruct (revision_patched_at_most_once Scenario.load Example.dump a e)
    as (_ & _ & H).
  set (stj := fst (for_loop Scenario.load Example.dump a (build e) 1 st0)).
  assert (Hloop : for_loop Scenario.load Example.dump a (build e) 1 st0
                  = (stj, Exhausted)) by (vm_compute; reflexivity).
  assert (Hin : "abc123" ∈ processed_revs stj)
    by (apply (bool_decide_unpack _); vm_compute; exact I).
  assert (Hbuild : forall k, (attempts stj <= k)%nat ->
            exists returncode stdout stderr new_hash url,
              build e k = Completed returncode stdout stderr /\ returncode <> 0%Z
              /\ extract_hash_mismatch_info stderr
                 = (Some "abc123", Some new_hash, url)).
  { intros k _. exists 1%Z, "", (Example.mismatch_output "abc123" "sha256-NEW="),
      "sha256-NEW=", None.
    split; [reflexivity|]. split; [discriminate|vm_compute; reflexivity]. }
  destruct (H st0 1%nat stj "abc123" ltac:(vm_compute; lia) Hloop Hin Hbuild)
    as (Hend & Hatt & Hrs & _).
  split; [exact Hend|]. split; [exact Hatt|].
  fold r in Hrs. rewrite Hrs. vm_compute. reflexivity.
Defined.

Lemma emit_no_summary st es :
  no_summary st -> forallb (fun e => negb (is_summary e)) es = true ->
  no_summary (emit es st).
Proof. intros H1 H2. unfold no_summary. simpl. rewrite forallb_app, H1, H2. reflexivity. Qed.

Lemma summarised_not_no_summary r : summarised r -> ~ no_summary (final r).
Proof.
  intros (before & after & E & _) H. unfold no_summary in H.
  rewrite E, !forallb_app in H. simpl in H.
  rewrite andb_false_r in H. discriminate.
Qed.

Lemma print_summary_records rs :
  print_summary rs
  = ESummaryTotal (length rs)
    :: imap (fun i r =>
               ESummaryEntry (S i) (snd r) (Str.slice_to 12 (fst (fst r))) (snd (fst r)))
         rs.
Proof.
  unfold print_summary. f_equal.
  assert (H : forall k, summary_entries k rs
              = imap (fun i r => ESummaryEntry (k + i) (snd r)
                                   (Str.slice_to 12 (fst (fst r))) (snd (fst r))) rs).
  { induction rs as [|[[rev h] d] rs IH]; intros k; [reflexivity|]. simpl.
    rewrite Nat.add_0_r, IH. f_equal. apply imap_ext. intros i x _. simpl.
    f_equal. lia. }
  rewrite H. reflexivity.
Qed.

Lemma run_loop_summary json_load json_dump a e st :
  no_summary st ->
  let r := run_loop json_load json_dump a e st in
  let rs := replacements (final r) in
  match ended r with
  | Some Success | Some ExhaustedIterations =>
      (exists before,
          forallb (fun e => negb (is_summary e)) before = true
          /\ out (final r)
             = before ++ print_summary rs
               ++ (if dry_run a && negb (length rs =? 0)%nat
                   then [EApplyHint] else []))
      /\ status r = 0%Z
  | Some UnrecoverableBuildFailure | Some UnexpectedError =>
      no_summary (final r) /\ status r = 1%Z
  | Some UserAborted => no_summary (final r) /\ status r = 130%Z
  | None => False
  end.
Proof.
  intros Hst r rs. subst rs r. unfold run_loop.
  pose proof (loop_no_summary json_load json_dump a (build e)
                (Z.to_nat (max_iterations a)) st Hst) as Hno.
  destruct (for_loop json_load json_dump a (build e) _ st) as [st' [| |code| |err]] eqn:E;
    cbn [fst] in Hno; cbv zeta.
  - cbn [emit replacements].
    destruct (dry_run a && negb (length (replacements st') =? 0)%nat) eqn:Hc;
      cbn [ended status final emit replacements out json_file processed_revs attempts];
      rewrite Hc; (split; [|reflexivity]); exists (out st');
      (split; [exact Hno|]); rewrite <- ?app_assoc, ?List.app_nil_r; reflexivity.
  - cbn [emit replacements].
    destruct (dry_run a && negb (length (replacements st') =? 0)%nat) eqn:Hc;
      cbn [ended status final emit replacements out json_file processed_revs attempts];
      rewrite Hc; (split; [|reflexivity]);
      exists (out st' ++ [EMaxIterations (max_iterations a)]);
      (split; [apply no_summary_app; [exact Hno|reflexivity]|]);
      rewrite <- ?app_assoc, ?List.app_nil_r; reflexivity.
  - split; [exact Hno|]. eapply loop_exit_code, E.
  - split; [|reflexivity]. apply emit_no_summary; [exact Hno|reflexivity].
  - split; [|reflexivity]. apply emit_no_summary; [exact Hno|reflexivity].
Qed.

(** C1, as it holds: a run that ends in [Success] or [ExhaustedIterations]
    prints the summary once (the number of replacement records, then for
    every record, in order, its number, description, revision cut to 12
    characters and hash), prints after it on standard output nothing but,
    in a preview that has records, the hint to run without preview, and
    returns with status 0.  A run that ends in [UnrecoverableBuildFailure] exits with status 1
    and one that ends in [UserAborted] with status 130, and neither prints
    a summary; nor does a run that leaves through the handler of
    unexpected errors, or a process that leaves before the loop starts. *)
Theorem summary_on_normal_completion json_load json_dump a e :
  let r := main json_load json_dump a e in
  let rs := replacements (final r) in
  match ended r with
  | Some Success | Some ExhaustedIterations =>
      (exists before,
          forallb (fun e => negb (is_summary e)) before = true
          /\ out (final r)
             = before
               ++ ESummaryTotal (length rs)
                  :: imap (fun i rec =>
                             ESummaryEntry (S i) (snd rec)
                               (Str.slice_to 12 (fst (fst rec))) (snd (fst rec))) rs
               ++ (if dry_run a && negb (length rs =? 0)%nat
                   then [EApplyHint] else []))
      /\ status r = 0%Z
  | Some UnrecoverableBuildFailure | Some UnexpectedError =>
      no_summary (final r) /\ status r = 1%Z
  | Some UserAborted => no_summary (final r) /\ status r = 130%Z
  | None => no_summary (final r)
  end.
Proof.
  intros r rs. subst rs r. unfold main.
  assert (Hrun : forall es, forallb (fun e => negb (is_summary e)) es = true ->
            let r := run_loop json_load json_dump a e
                       (emit es (initial_state (manifest e))) in
            let rs := replacements (final r) in
            match ended r with
            | Some Success | Some ExhaustedIterations =>
                (exists before,
                    forallb (fun e => negb (is_summary e)) before = true
                    /\ out (final r)
                       = before
                         ++ ESummaryTotal (length rs)
                            :: imap (fun i rec =>
                                       ESummaryEntry (S i) (snd rec)
                                         (Str.slice_to 12 (fst (fst rec)))
                                         (snd (fst rec))) rs
                         ++ (if dry_run a && negb (length rs =? 0)%nat
                             then [EApplyHint] else []))
                /\ status r = 0%Z
            | Some UnrecoverableBuildFailure | Some UnexpectedError =>
                no_summary (final r) /\ status r = 1%Z
            | Some UserAborted => no_summary (final r) /\ status r = 130%Z
            | None => no_summary (final r)
            end).
  { intros es Hes r rs.
    assert (Hinit : no_summary (initial_state (manifest e))) by reflexivity.
    pose proof (run_loop_summary json_load json_dump a e
                  (emit es (initial_state (manifest e)))
                  (emit_no_summary _ _ Hinit Hes)) as H.
    cbv zeta in H. subst rs r.
    rewrite print_summary_records in H.
    destruct (ended (run_loop json_load json_dump a e
                       (emit es (initial_state (manifest e))))) as [[| | | |]|];
      try exact H. destruct H. }
  destruct (manifest e) as [err|err|content w]; [reflexivity|reflexivity|].
  destruct (json_load content) as [data|msg]; [|reflexivity].
  set (proceed :=
         if (0 <? count_remaining_placeholders (Stored content w)
                    (placeholder_hash a))%nat
         then run_loop json_load json_dump a e
                (emit [EFound (count_remaining_placeholders (Stored content w)
                                 (placeholder_hash a))]
                   (initial_state (Stored content w)))
         else Result (emit [ENoPlaceholders] (initial_state (Stored content w)))
                None 0).
  assert (Hproceed :
    match ended proceed with
    | Some Success | Some ExhaustedIterations =>
        (exists before,
            forallb (fun e => negb (is_summary e)) before = true
            /\ out (final proceed)
               = before
                 ++ ESummaryTotal (length (replacements (final proceed)))
                    :: imap (fun i rec =>
                               ESummaryEntry (S i) (snd rec)
                                 (Str.slice_to 12 (fst (fst rec)))
                                 (snd (fst rec))) (replacements (final proceed))
                 ++ (if dry_run a
                        && negb (length (replacements (final proceed)) =? 0)%nat
                     then [EApplyHint] else []))
        /\ status proceed = 0%Z
    | Some UnrecoverableBuildFailure | Some UnexpectedError =>
        no_summary (final proceed) /\ status proceed = 1%Z
    | Some UserAborted => no_summary (final proceed) /\ status proceed = 130%Z
    | None => no_summary (final proceed)
    end).
  { subst proceed. destruct (0 <? _)%nat; [apply Hrun|]; reflexivity. }
  cbv zeta.
  destruct (negb (no_backup a) && negb (dry_run a)); [|exact Hproceed].
  destruct (backup e) as [|[answer|err|]];
    [exact Hproceed| |reflexivity|reflexivity].
  destruct (declined answer); [reflexivity|exact Hproceed].
Qed.

(** C1, as stated, fails: a run that patches one entry and then meets a
    build failure without a hash mismatch ends in
    [UnrecoverableBuildFailure] with status 1, one replacement record and
    no summary. *)
Lemma summary_counterexample :
  let r := Scenario.run 5 Scenario.mismatch_then_unrelated in
  ended r = Some UnrecoverableBuildFailure
  /\ status r = 1%Z
  /\ replacements (final r) = [("abc123", "sha256-NEW=", "org/repo")]
  /\ out (final r)
     = [EFound 1; EAttempt 1;
        EMismatch "org/repo" "abc123" None "sha256-NEW=";
        EUpdated "Updated hash for entry at path: deps[0]";
        EProgress 1 0; EAllReplaced; EFinalBuild;
        EAttempt 2; EUnrelated 0]
  /\ ~ summarised r.
Proof.
  intros r.
  assert (Hout : out (final r)
     = [EFound 1; EAttempt 1;
        EMismatch "org/repo" "abc123" None "sha256-NEW=";
        EUpdated "Updated hash for entry at path: deps[0]";
        EProgress 1 0; EAllReplaced; EFinalBuild;
        EAttempt 2; EUnrelated 0]) by (vm_compute; reflexivity).
  split; [vm_compute; reflexivity|]. split; [vm_compute; reflexivity|].
  split; [vm_compute; reflexivity|]. split; [exact Hout|].
  intros H. apply summarised_not_no_summary in H. apply H.
  unfold no_summary. rewrite Hout. reflexivity.
Qed.

(** C9, as it holds: after a successful patch the loop counts the
    placeholders left in the file as the patch left it and reports that
    count; when it is zero the loop in preview mode stops at once, with no
    further build, and in non-preview mode announces a final build and
    goes on to the next pass, whose build is the confirming one if the
    iteration limit leaves a pass: a patch made on the last permitted pass
    ends the loop exhausted, with no confirming build. *)
Theorem confirming_build_within_limit json_load json_dump a build n st
    returncode stdout stderr rev new_hash url message path f' :
  build (attempts st) = Completed returncode stdout stderr ->
  returncode <> 0%Z ->
  extract_hash_mismatch_info stderr = (Some rev, Some new_hash, url) ->
  rev ∉ processed_revs st ->
  update_json_by_rev json_load json_dump (json_file st) rev new_hash
    (placeholder_hash a) (dry_run a) = ((true, message, path), f') ->
  let remaining := count_remaining_placeholders f' (placeholder_hash a) in
  let description := get_entry_description json_load (json_file st) rev in
  exists st',
    iteration json_load json_dump a (build (attempts st)) st
    = (st', if (remaining =? 0)%nat && dry_run a then Break else Continue)
    /\ json_file st' = f'
    /\ attempts st' = S (attempts st)
    /\ replacements st' = replacements st ++ [(rev, new_hash, description)]
    /\ EProgress (S (length (replacements st))) remaining ∈ out st'
    /\ (remaining = 0%nat -> dry_run a = true ->
        for_loop json_load json_dump a build (S n) st = (st', Broke))
    /\ (remaining = 0%nat -> dry_run a = false ->
        EFinalBuild ∈ out st'
        /\ for_loop json_load json_dump a build (S n) st
           = for_loop json_load json_dump a build n st'
        /\ (n = 0%nat ->
            for_loop json_load json_dump a build (S n) st = (st', Exhausted))
        /\ ((0 < n)%nat ->
            (S (attempts st')
             <= attempts (fst (for_loop json_load json_dump a build (S n) st)))%nat)).
Proof.
  intros Hb Hrc Hx Hnew Hup remaining description.
  assert (Hstep : exists st',
    iteration json_load json_dump a (build (attempts st)) st
    = (st', if (remaining =? 0)%nat && dry_run a then Break else Continue)
    /\ json_file st' = f'
    /\ attempts st' = S (attempts st)
    /\ replacements st' = replacements st ++ [(rev, new_hash, description)]
    /\ EProgress (S (length (replacements st))) remaining ∈ out st'
    /\ (remaining = 0%nat -> dry_run a = false -> EFinalBuild ∈ out st')).
  { rewrite Hb. unfold iteration. apply Z.eqb_neq in Hrc. rewrite Hrc, Hx.
    destruct (extract_truthy _ _ _ _ Hx) as [-> ->].
    destruct (decide (rev ∈ processed_revs (start_attempt st))) as [Hin|_];
      [exfalso; apply Hnew, Hin|].
    cbn [start_attempt json_file replacements processed_revs attempts out].
    rewrite Hup. fold remaining. fold description.
    assert (Hlen : length (replacements st ++ [(rev, new_hash, description)])
                   = S (length (replacements st)))
      by (rewrite length_app; simpl; lia).
    rewrite Hlen.
    destruct (remaining =? 0)%nat eqn:Hz;
      [destruct (dry_run a) eqn:Hd|]; simpl;
      eexists; (split; [reflexivity|]); simpl;
      repeat split; try (intros; congruence);
      try (apply Nat.eqb_neq in Hz; intros; congruence);
      rewrite !elem_of_app, !elem_of_cons; intros; tauto. }
  destruct Hstep as (st' & Hstep & Hf & Ha & Hr & Hp & Hfinal).
  exists st'. split; [exact Hstep|]. split; [exact Hf|]. split; [exact Ha|].
  split; [exact Hr|]. split; [exact Hp|]. split.
  - intros Hz Hd. simpl. rewrite Hstep, Hz, Hd. reflexivity.
  - intros Hz Hd.
    assert (Hnext : for_loop json_load json_dump a build (S n) st
                    = for_loop json_load json_dump a build n st')
      by (simpl; rewrite Hstep, Hz, Hd; reflexivity).
    split; [apply Hfinal; assumption|]. split; [exact Hnext|]. split.
    + intros ->. rewrite Hnext. reflexivity.
    + intros Hn. rewrite Hnext. apply loop_runs_a_build, Hn.
Qed.

Lemma confirming_build_within_limit_witness :
  let a := Scenario.arguments 2 in
  let st := emit [EFound 1] (initial_state Scenario.stored) in
  let loop := for_loop Scenario.load Example.dump a Scenario.always_mismatch in
  ("abc123" ∉ processed_revs st)
  /\ update_json_by_rev Scenario.load Example.dump (json_file st) "abc123" "sha256-NEW="
       (placeholder_hash a) (dry_run a)
     = ((true, "Updated hash for entry at path: deps[0]", Some "deps[0]"),
        Stored (Example.dump Scenario.data1) [])
  /\ (2 <= attempts (fst (loop 2%nat st)))%nat.
Proof.
  intros a st loop.
  assert (Hnew : "abc123" ∉ processed_revs st) by (simpl; set_solver).
  assert (Hup : update_json_by_rev Scenario.load Example.dump (json_file st)
                  "abc123" "sha256-NEW=" (placeholder_hash a) (dry_run a)
                = ((true, "Updated hash for entry at path: deps[0]", Some "deps[0]"),
                   Stored (Example.dump Scenario.data1) []))
    by (vm_compute; reflexivity).
  split; [exact Hnew|]. split; [exact Hup|].
  destruct (confirming_build_within_limit Scenario.load Example.dump a
              Scenario.always_mismatch 1%nat st 1%Z ""
              (Example.mismatch_output "abc123" "sha256-NEW=")
              "abc123" "sha256-NEW=" None _ _ _
              eq_refl ltac:(discriminate) ltac:(vm_compute; reflexivity) Hnew Hup)
    as (st' & _ & _ & Ha & _ & _ & _ & Hconfirm).
  destruct (Hconfirm ltac:(vm_compute; reflexivity) eq_refl) as (_ & _ & _ & Hge).
  specialize (Hge ltac:(lia)). rewrite Ha in Hge. simpl in Hge. exact Hge.
Defined.

(** C9, as stated, fails at the iteration limit: with [max_iterations = 1]
    the one permitted build fails with a mismatch, the patch succeeds and
    leaves no placeholder, the loop announces a final build, and the run
    ends in [ExhaustedIterations] having run no build after the patch. *)
Lemma confirming_build_counterexample :
  let r := Scenario.run 1 Scenario.always_mismatch in
  dry_run (Scenario.arguments 1) = false
  /\ ended r = Some ExhaustedIterations
  /\ attempts (final r) = 1%nat
  /\ json_file (final r) = Stored (Example.dump Scenario.data1) []
  /\ out (final r)
     = [EFound 1; EAttempt 1;
        EMismatch "org/repo" "abc123" None "sha256-NEW=";
        EUpdated "Updated hash for entry at path: deps[0]";
        EProgress 1 0; EAllReplaced; EFinalBuild;
        EMaxIterations 1;
        ESummaryTotal 1; ESummaryEntry 1 "org/repo" "abc123" "sha256-NEW="].
Proof.
  repeat split; vm_compute; reflexivity.
Qed.

(** ** The description lookup *)




(** The same entry under the default placeholder is described by the name
    in its URL, and so is the custom one if the lookup is given the
    document the patcher sees and the default is what the entry holds. *)
Example description_with_default_placeholder :
  get_entry_description Scenario.load Scenario.stored "abc123" = "org/repo".
Proof. vm_compute. reflexivity. Qed.


(** * Further properties of the program *)

(** ** OutputParser: which match is taken *)

(** X1: whenever the parser reports a hash, it is the hash of the first
    computed-hash line of the text (no such line starts further left), and
    the token is taken to the end of its run of hash characters. *)
Theorem parser_takes_first_hash output rev new_hash url :
  extract_hash_mismatch_info output = (rev, Some new_hash, url) ->
  exists before line token after,
    output = before +:+ line
    /\ computed_hash_at line token after
    /\ new_hash = "sha256-" +:+ token
    /\ stops Re.is_hash_char after
    /\ forall b1 b2, before = b1 +:+ b2 -> b2 <> "" ->
         forall token' after', ~ computed_hash_at (b2 +:+ line) token' after'.
Proof.
  intros H. apply extract_hash_is_group in H as (hm & Hs & ->).
  apply search_leftmost in Hs as (before & line & -> & Hm & Hleft).
  destruct (match_here_hash_pattern _ _ Hm) as (token & after & Hat & Hstop & Hg).
  exists before, line, token, after. repeat split; try assumption.
  intros b1 b2 E Hb2. apply match_here_hash_none. eapply Hleft; eassumption.
Qed.

Lemma parser_takes_first_hash_witness :
  let output :=
    "got: sha256-first+/= rest" +:+ Example.newline +:+ "got: sha256-second" in
  extract_hash_mismatch_info output = (None, Some "sha256-first+/=", None)
  /\ exists before line token after,
       output = before +:+ line /\ computed_hash_at line token after
       /\ "sha256-first+/=" = "sha256-" +:+ token.
Proof.
  intros output.
  assert (E : extract_hash_mismatch_info output = (None, Some "sha256-first+/=", None))
    by (vm_compute; reflexivity).
  split; [exact E|].
  destruct (parser_takes_first_hash output None "sha256-first+/=" None E)
    as (before & line & token & after & H1 & H2 & H3 & _).
  exists before, line, token, after. auto.
Defined.

(** X2: the shape of every parser result: no revision or URL without a
    hash, no URL without a revision; a revision is a non-empty string of
    the characters [a-f0-9]; a hash is [sha256-] followed by a non-empty
    token over the hash alphabet. *)
Theorem parser_result_shape output :
  match extract_hash_mismatch_info output with
  | (rev, new_hash, url) =>
      (new_hash = None -> rev = None /\ url = None)
      /\ (rev = None -> url = None)
      /\ (forall r, rev = Some r -> r <> "" /\ Str.all Re.is_hex r = true)
      /\ (forall h, new_hash = Some h ->
           exists token, h = "sha256-" +:+ token /\ token <> ""
                         /\ Str.all Re.is_hash_char token = true)
  end.
Proof.
  unfold extract_hash_mismatch_info.
  destruct (Re.search hash_pattern output) as [hm|] eqn:Hh.
  2: { split; [auto|]. split; [auto|]. split; intros ? [=]. }
  apply search_hash_pattern in Hh as (_ & _ & token & _ & _ & _ & _ & Htok & Hhc & Hg).
  assert (Hhash : forall h, Some (Re.group hm 2 2) = Some h ->
            exists token, h = "sha256-" +:+ token /\ token <> ""
                          /\ Str.all Re.is_hash_char token = true).
  { intros h [= <-]. exists token. auto. }
  destruct (Re.search rev_pattern output) as [rm|] eqn:Hr.
  - apply search_rev_pattern in Hr as (_ & r & _ & _ & Hne & Hhex & Hgr).
    rewrite Hgr. split; [intros [=]|]. split; [intros [=]|].
    split; [intros r' [= <-]; auto|exact Hhash].
  - destruct (Re.search url_pattern output) as [um|] eqn:Hu.
    + apply search_url_pattern in Hu as (_ & _ & r & _ & _ & _ & _ & Hne & Hhex & Hgr).
      rewrite Hgr. split; [intros [=]|]. split; [intros [=]|].
      split; [intros r' [= <-]; auto|exact Hhash].
    + split; [intros [=]|]. split; [reflexivity|].
      split; [intros r' [=]|exact Hhash].
Qed.

Lemma search_url_pattern_for rev output m :
  Re.search (url_pattern_for rev) output = Some m ->
  exists base,
    archive_url_for rev base output
    /\ Re.group m 1 5 = "https://" +:+ base +:+ archive_suffix rev.
Proof.
  intros H. apply search_sound in H as (before & rest & -> & Hacc).
  unfold url_pattern_for in Hacc. invert_accepts.
  eexists. split; [eexists before, _; repeat split; eauto|]. reflexivity.
Qed.

Lemma search_url_pattern_for_complete rev base output :
  archive_url_for rev base output -> is_Some (Re.search (url_pattern_for rev) output).
Proof.
  intros (before & after & -> & Hb & Hns).
  apply search_complete
    with (m := ["trying "; "https://"; base; "/+archive/"; rev; ".tar.gz"]).
  unfold url_pattern_for. repeat constructor; auto.
Qed.

Lemma search_url_pattern_groups output m :
  Re.search url_pattern output = Some m ->
  exists base,
    archive_url_for (Re.group m 4 1) base output
    /\ Re.group m 4 1 <> "" /\ Str.all Re.is_hex (Re.group m 4 1) = true
    /\ Re.group m 1 5 = "https://" +:+ base +:+ archive_suffix (Re.group m 4 1).
Proof.
  intros H. apply search_sound in H as (before & rest & -> & Hacc).
  unfold url_pattern in Hacc. invert_accepts.
  eexists. split; [eexists before, _; repeat split; eauto|].
  repeat split; assumption.
Qed.

Lemma replace_scan_skip old new w rest :
  Str.replace_scan old new (String.length w) (w +:+ rest)
  = Str.replace_scan old new 0 rest.
Proof.
  induction w as [|c w IH]; [reflexivity|].
  rewrite str_app_cons. simpl. exact IH.
Qed.

Lemma replace_scan_first old new before rest :
  old <> "" -> first_occurrence old before ->
  Str.replace_scan old new 0 (before +:+ old +:+ rest)
  = before +:+ new +:+ Str.replace_scan old new 0 rest.
Proof.
  intros Hne. induction before as [|c before IH]; intros Hfirst.
  - rewrite !str_app_nil_l. destruct old as [|a old]; [congruence|].
    rewrite str_app_cons.
    change (Str.replace_scan (String a old) new 0 (String a (old +:+ rest)))
      with (if Str.startswith (String a (old +:+ rest)) (String a old)
            then new +:+ Str.replace_scan (String a old) new
                           (String.length (String a old) - 1) (old +:+ rest)
            else String a (Str.replace_scan (String a old) new 0 (old +:+ rest))).
    rewrite <- str_app_cons. rewrite (proj2 (startswith_spec _ _)) by eauto.
    simpl String.length.
    replace (S (String.length old) - 1)%nat with (String.length old) by lia.
    rewrite replace_scan_skip. reflexivity.
  - pose proof (first_occurrence_not_start old c before rest Hfirst) as E.
    rewrite str_app_cons in *.
    change (Str.replace_scan old new 0 (String c (before +:+ old +:+ rest)))
      with (if Str.startswith (String c (before +:+ old +:+ rest)) old
            then new +:+ Str.replace_scan old new (String.length old - 1)
                           (before +:+ old +:+ rest)
            else String c (Str.replace_scan old new 0 (before +:+ old +:+ rest))).
    rewrite E, IH by (eapply first_occurrence_tail, Hfirst). reflexivity.
Qed.

(** Removing a suffix that occurs nowhere else leaves what stood before
    it. *)
Lemma replace_suffix_once x old :
  old <> "" -> first_occurrence old x -> Str.replace (x +:+ old) old "" = x.
Proof.
  intros Hne Hfirst. unfold Str.replace. destruct old as [|a old]; [congruence|].
  pose proof (replace_scan_first (String a old) "" x "" Hne Hfirst) as H.
  rewrite str_app_nil_r in H. rewrite H. simpl. rewrite str_app_nil_r. reflexivity.
Qed.

Lemma archive_suffix_nonempty rev : archive_suffix rev <> "".
Proof. discriminate. Qed.

Lemma strip_archive_suffix rev base :
  first_occurrence (archive_suffix rev) ("https://" +:+ base) ->
  Str.replace ("https://" +:+ base +:+ archive_suffix rev) (archive_suffix rev) ""
  = "https://" +:+ base.
Proof.
  intros Hfirst.
  pose proof (replace_suffix_once _ _ (archive_suffix_nonempty rev) Hfirst) as H.
  rewrite app_assoc_s in H. exact H.
Qed.

(** X3: with a computed-hash line and an unpack line in the text, the
    revision is the one an unpack line names, whatever archive URLs the
    text holds; the URL is null exactly when the text has no archive URL
    for that revision, and otherwise is such a URL with every
    [/+archive/<rev>.tar.gz] removed: the part before the suffix when the
    suffix occurs once. *)
Theorem parser_prefers_unpack_line output :
  has_computed_hash output -> has_unpack_line output ->
  exists rev new_hash url,
    extract_hash_mismatch_info output = (Some rev, Some new_hash, url)
    /\ (exists before after,
          output = before +:+ "unpacking source archive /build/" +:+ rev
                   +:+ ".tar.gz" +:+ after
          /\ rev <> "" /\ Str.all Re.is_hex rev = true)
    /\ (url = None <-> forall base, ~ archive_url_for rev base output)
    /\ (forall u, url = Some u ->
          exists base,
            archive_url_for rev base output
            /\ u = Str.replace ("https://" +:+ base +:+ archive_suffix rev)
                     (archive_suffix rev) ""
            /\ (first_occurrence (archive_suffix rev) ("https://" +:+ base) ->
                u = "https://" +:+ base)).
Proof.
  intros Hh Hr.
  apply search_hash_pattern_iff in Hh as [hm Hhm].
  apply search_rev_pattern_iff in Hr as [rm Hrm].
  pose proof (search_rev_pattern _ _ Hrm) as (before & rev & after & E & Hne & Hhex & Hg).
  unfold extract_hash_mismatch_info. rewrite Hhm, Hrm, Hg.
  exists rev, (Re.group hm 2 2).
  destruct (Re.search (url_pattern_for rev) output) as [um|] eqn:Hu.
  - destruct (search_url_pattern_for _ _ _ Hu) as (base & Hfor & Hg1).
    eexists. split; [reflexivity|]. split; [eauto|]. split.
    + split; [discriminate|]. intros Hno. exfalso. apply (Hno base Hfor).
    + intros u [= <-]. exists base. split; [exact Hfor|]. rewrite Hg1.
      split; [reflexivity|]. intros Hfirst.
      exact (strip_archive_suffix rev base Hfirst).
  - exists None. split; [reflexivity|]. split; [eauto|]. split.
    + split; [|reflexivity]. intros _ base Hfor.
      apply search_url_pattern_for_complete in Hfor as [m Hm]. congruence.
    + discriminate.
Qed.

Lemma has_unpack_line_by_search output :
  is_Some (Re.search rev_pattern output) -> has_unpack_line output.
Proof. apply search_rev_pattern_iff. Qed.

Lemma has_archive_url_by_search output :
  is_Some (Re.search url_pattern output) -> has_archive_url output.
Proof. apply search_url_pattern_iff. Qed.

Lemma parser_prefers_unpack_line_witness :
  let output :=
    "trying https://host.example/repo/+archive/0123abc.tar.gz" +:+ Example.newline
    +:+ "trying https://other.example/x/+archive/ffff.tar.gz" +:+ Example.newline
    +:+ "unpacking source archive /build/0123abc.tar.gz" +:+ Example.newline
    +:+ "  got:    sha256-NEW=" +:+ Example.newline in
  has_computed_hash output /\ has_unpack_line output
  /\ extract_hash_mismatch_info output
     = (Some "0123abc", Some "sha256-NEW=", Some "https://host.example/repo").
Proof.
  intros output.
  assert (Hh : has_computed_hash output)
    by (apply computed_hash_by_search; vm_compute; eauto).
  assert (Hr : has_unpack_line output)
    by (apply has_unpack_line_by_search; vm_compute; eauto).
  split; [exact Hh|]. split; [exact Hr|].
  destruct (parser_prefers_unpack_line output Hh Hr) as (rev & h & url & E & _).
  rewrite E. vm_compute in E. exact (eq_sym E).
Defined.

(** X4: with a computed-hash line, no unpack line and an archive-URL line,
    the revision is the one an archive URL of the text names, and the URL
    is that archive URL with every [/+archive/<rev>.tar.gz] removed: the
    part before the suffix when the suffix occurs once. *)
Theorem parser_falls_back_to_archive_url output :
  has_computed_hash output -> ~ has_unpack_line output -> has_archive_url output ->
  exists rev new_hash base,
    extract_hash_mismatch_info output
    = (Some rev, Some new_hash,
       Some (Str.replace ("https://" +:+ base +:+ archive_suffix rev)
               (archive_suffix rev) ""))
    /\ archive_url_for rev base output
    /\ rev <> "" /\ Str.all Re.is_hex rev = true
    /\ (first_occurrence (archive_suffix rev) ("https://" +:+ base) ->
        Str.replace ("https://" +:+ base +:+ archive_suffix rev) (archive_suffix rev) ""
        = "https://" +:+ base).
Proof.
  intros Hh Hr Hu.
  apply search_hash_pattern_iff in Hh as [hm Hhm].
  assert (Er : Re.search rev_pattern output = None).
  { destruct (Re.search rev_pattern output) eqn:E; [|reflexivity].
    exfalso. apply Hr, search_rev_pattern_iff. eauto. }
  apply search_url_pattern_iff in Hu as [um Hum].
  destruct (search_url_pattern_groups _ _ Hum) as (base & Hfor & Hne & Hhex & Hg1).
  unfold extract_hash_mismatch_info. rewrite Hhm, Er, Hum.
  exists (Re.group um 4 1), (Re.group hm 2 2), base.
  split; [rewrite Hg1; reflexivity|]. repeat split; try assumption.
  intros Hfirst. exact (strip_archive_suffix _ base Hfirst).
Qed.

Lemma parser_falls_back_to_archive_url_witness :
  let output :=
    "trying https://host.example/repo/+archive/0123abc.tar.gz" +:+ Example.newline
    +:+ "  got:    sha256-NEW=" +:+ Example.newline in
  has_computed_hash output /\ ~ has_unpack_line output /\ has_archive_url output
  /\ extract_hash_mismatch_info output
     = (Some "0123abc", Some "sha256-NEW=", Some "https://host.example/repo").
Proof.
  intros output.
  assert (Hh : has_computed_hash output)
    by (apply computed_hash_by_search; vm_compute; eauto).
  assert (Hr : ~ has_unpack_line output)
    by (apply no_unpack_line_by_search; vm_compute; reflexivity).
  assert (Hu : has_archive_url output)
    by (apply has_archive_url_by_search; vm_compute; eauto).
  split; [exact Hh|]. split; [exact Hr|]. split; [exact Hu|].
  destruct (parser_falls_back_to_archive_url output Hh Hr Hu)
    as (rev & h & base & E & _).
  rewrite E. vm_compute in E. exact (eq_sym E).
Defined.

(** ** ManifestPatcher: what the patch touches *)

Lemma deref_update_same (f : json -> json) ref :
  forall d x, deref ref d = Some x -> deref ref (update_at ref f d) = Some (f x).
Proof.
  induction ref as [|i ref IH]; intros d x; simpl.
  - intros [= ->]. reflexivity.
  - destruct d as [| | | | |items|members]; try discriminate.
    + rewrite list_lookup_alter_eq. destruct (items !! i) as [v|]; [|discriminate].
      simpl. apply IH.
    + rewrite list_lookup_alter_eq. destruct (members !! i) as [[k v]|]; [|discriminate].
      simpl. apply IH.
Qed.

Lemma deref_update_diverge (f : json -> json) ref ref' :
  diverge ref ref' -> forall d, deref ref' (update_at ref f d) = deref ref' d.
Proof.
  intros (common & i & j & r1 & r2 & -> & -> & Hij).
  induction common as [|c common IH]; intros d; simpl.
  - destruct d as [| | | | |items|members]; try reflexivity.
    + rewrite list_lookup_alter_ne by exact Hij. reflexivity.
    + rewrite list_lookup_alter_ne by exact Hij. reflexivity.
  - destruct d as [| | | | |items|members]; try reflexivity.
    + rewrite list_lookup_alter_eq. destruct (items !! c) as [v|]; [|reflexivity].
      simpl. apply IH.
    + rewrite list_lookup_alter_eq. destruct (members !! c) as [[k v]|]; [|reflexivity].
      simpl. apply IH.
Qed.

Lemma dict_set_keys key v members :
  is_Some (dict_get key members) ->
  map fst (dict_set key v members) = map fst members.
Proof.
  induction members as [|[k w] members IH]; simpl; [intros [? [=]]|].
  destruct (String.eqb k key); simpl; [reflexivity|].
  intros H. rewrite IH by exact H. reflexivity.
Qed.

Lemma dict_get_set_other key key' v members :
  key' <> key -> dict_get key' (dict_set key v members) = dict_get key' members.
Proof.
  intros Hne. induction members as [|[k w] members IH]; simpl.
  - apply String.eqb_neq in Hne. rewrite String.eqb_sym, Hne. reflexivity.
  - destruct (String.eqb k key) eqn:E; simpl.
    + apply String.eqb_eq in E as ->.
      apply String.eqb_neq in Hne. rewrite String.eqb_sym, Hne. reflexivity.
    + destruct (String.eqb k key'); [reflexivity|exact IH].
Qed.

(** X5: a successful non-preview patch writes the document in which the
    located entry, at its place, has the new hash; the entry keeps its
    keys in their order and the values of its other fields. *)
Theorem patch_sets_hash_in_place json_load json_dump content data tr new_hash ph r :
  json_load content = Loaded data ->
  find_entry_by_rev tr ph data = Some r ->
  exists members data',
    found_entry r = JObject members
    /\ snd (update_json_by_rev json_load json_dump (Stored content [])
              tr new_hash ph false)
       = Stored (json_dump data') []
    /\ deref (found_ref r) data'
       = Some (JObject (dict_set "hash" (JString new_hash) members))
    /\ map fst (dict_set "hash" (JString new_hash) members) = map fst members
    /\ dict_get "hash" (dict_set "hash" (JString new_hash) members)
       = Some (JString new_hash)
    /\ forall key, key <> "hash" ->
         dict_get key (dict_set "hash" (JString new_hash) members)
         = dict_get key members.
Proof.
  intros Hload Hfind.
  destruct (found_is_eligible _ _ _ _ Hfind) as [(members & He & Hrev & Hhash) Hd].
  exists members,
    (update_at (found_ref r) (set_item "hash" (JString new_hash)) data).
  split; [exact He|]. split.
  { unfold update_json_by_rev.
    rewrite Hload, Hfind, (found_is_truthy _ _ _ _ Hfind). reflexivity. }
  split.
  { rewrite (deref_update_same _ _ _ _ Hd), He. reflexivity. }
  split; [apply dict_set_keys; rewrite Hhash; eauto|].
  split; [apply dict_get_set|].
  intros key Hkey. apply dict_get_set_other, Hkey.
Qed.

Lemma patch_sets_hash_in_place_witness :
  Scenario.load (Example.dump Scenario.data0) = Loaded Scenario.data0
  /\ exists data',
       snd (update_json_by_rev Scenario.load Example.dump
              (Stored (Example.dump Scenario.data0) [])
              "abc123" "sha256-NEW=" PLACEHOLDER_HASH false)
       = Stored (Example.dump data') []
       /\ deref [1; 0]%nat data'
          = Some (Example.entry "abc123" "sha256-NEW=" Scenario.url).
Proof.
  assert (Hload : Scenario.load (Example.dump Scenario.data0) = Loaded Scenario.data0)
    by (vm_compute; reflexivity).
  assert (Hfind : find_entry_by_rev "abc123" PLACEHOLDER_HASH Scenario.data0
                  = Some (Found "deps[0]" [1; 0]%nat
                            (Example.entry "abc123" PLACEHOLDER_HASH Scenario.url)))
    by (vm_compute; reflexivity).
  split; [exact Hload|].
  destruct (patch_sets_hash_in_place Scenario.load Example.dump _ _ _ "sha256-NEW="
              _ _ Hload Hfind) as (members & data' & He & Hw & Hd & _).
  simpl in He. injection He as <-.
  exists data'. split; [exact Hw|exact Hd].
Defined.

(** X6: the document a successful non-preview patch writes is the loaded
    one but for the located entry: every node whose reference parts ways
    with that of the located entry (the entry's siblings, the other
    branches of the document and all they hold) is in the written document
    what it was in the loaded one. *)
Theorem patch_leaves_other_branches json_load json_dump content data tr new_hash ph r :
  json_load content = Loaded data ->
  find_entry_by_rev tr ph data = Some r ->
  exists data',
    update_json_by_rev json_load json_dump (Stored content []) tr new_hash ph false
    = ((true, "Updated hash for entry at path: " +:+ found_path r, Some (found_path r)),
       Stored (json_dump data') [])
    /\ forall ref, diverge (found_ref r) ref -> deref ref data' = deref ref data.
Proof.
  intros Hload Hfind.
  exists (update_at (found_ref r) (set_item "hash" (JString new_hash)) data).
  split.
  - unfold update_json_by_rev.
    rewrite Hload, Hfind, (found_is_truthy _ _ _ _ Hfind). reflexivity.
  - intros ref Hdiv. apply deref_update_diverge, Hdiv.
Qed.

Lemma patch_leaves_other_branches_witness :
  let second := Example.entry "def456" PLACEHOLDER_HASH "https://b.example/y" in
  let data :=
    Example.manifest_of
      [Example.entry "abc123" PLACEHOLDER_HASH "https://a.example/x"; second] in
  let load := Example.load_among [data] in
  load (Example.dump data) = Loaded data
  /\ diverge [1; 0]%nat [1; 1]%nat
  /\ exists data',
       snd (update_json_by_rev load Example.dump (Stored (Example.dump data) [])
              "abc123" "sha256-NEW=" PLACEHOLDER_HASH false)
       = Stored (Example.dump data') []
       /\ deref [1; 1]%nat data' = Some second.
Proof.
  intros second data load.
  assert (Hload : load (Example.dump data) = Loaded data) by (vm_compute; reflexivity).
  assert (Hdiv : diverge [1; 0]%nat [1; 1]%nat).
  { exists [1%nat], 0%nat, 1%nat, [], []. repeat split; discriminate. }
  assert (Hfind : find_entry_by_rev "abc123" PLACEHOLDER_HASH data
                  = Some (Found "deps[0]" [1; 0]%nat
                            (Example.entry "abc123" PLACEHOLDER_HASH
                               "https://a.example/x")))
    by (vm_compute; reflexivity).
  split; [exact Hload|]. split; [exact Hdiv|].
  destruct (patch_leaves_other_branches load Example.dump (Example.dump data) data
              "abc123" "sha256-NEW=" PLACEHOLDER_HASH _ Hload Hfind)
    as (data' & Hw & Hkeep).
  exists data'. split; [rewrite Hw; reflexivity|].
  rewrite (Hkeep [1; 1]%nat Hdiv). reflexivity.
Defined.

(** ** PlaceholderCounter: what zero means *)

Lemma count_scan_zero_iff sub s :
  sub <> "" -> Str.count_scan sub 0 s = 0%nat <-> ~ occurs sub s.
Proof.
  intros Hne. split.
  - intros Hz Hocc.
    destruct (first_occurrence_split _ _ Hocc) as (before & rest & -> & Hfirst).
    rewrite count_scan_first in Hz by assumption. discriminate.
  - apply count_scan_none.
Qed.

(** X7: for a non-empty placeholder, the counter is zero on a readable
    file exactly when the placeholder occurs nowhere in its text, which is
    what [placeholder in text] tests. *)
Theorem counter_zero_iff_absent content w ph :
  ph <> "" ->
  (count_remaining_placeholders (Stored content w) ph = 0%nat <-> ~ occurs ph content)
  /\ (count_remaining_placeholders (Stored content w) ph = 0%nat
      <-> Str.contains ph content = false).
Proof.
  intros Hne.
  assert (H : count_remaining_placeholders (Stored content w) ph = 0%nat
              <-> ~ occurs ph content).
  { simpl. unfold Str.count. destruct ph as [|c ph]; [congruence|].
    apply count_scan_zero_iff, Hne. }
  split; [exact H|]. rewrite H, <- contains_spec.
  destruct (Str.contains ph content); split; congruence.
Qed.

Lemma counter_zero_iff_absent_witness :
  PLACEHOLDER_HASH <> ""
  /\ count_remaining_placeholders (Stored (Example.dump Scenario.data1) [])
       PLACEHOLDER_HASH = 0%nat.
Proof.
  assert (Hne : PLACEHOLDER_HASH <> "") by discriminate.
  split; [exact Hne|].
  apply (counter_zero_iff_absent (Example.dump Scenario.data1) [] _ Hne).
  vm_compute. reflexivity.
Defined.

(** ** The description lookup: the name read off a URL *)

Lemma all_app cls u v :
  Str.all cls (u +:+ v) = Str.all cls u && Str.all cls v.
Proof.
  induction u as [|c u IH]; [reflexivity|].
  rewrite str_app_cons. simpl. rewrite IH, andb_assoc. reflexivity.
Qed.

Lemma first_occurrence_suffix sub b1 b2 :
  first_occurrence sub (b1 +:+ b2) -> first_occurrence sub b2.
Proof.
  induction b1 as [|c b1 IH]; [auto|].
  rewrite str_app_cons. intros H. apply IH. eapply first_occurrence_tail, H.
Qed.

Lemma no_prefix_before sub pre b1 b2 rest :
  first_occurrence sub pre -> pre = b1 +:+ b2 -> b2 <> "" ->
  Str.strip_prefix sub (b2 +:+ sub +:+ rest) = None.
Proof.
  intros Hfirst -> Hb2. apply first_occurrence_suffix in Hfirst.
  destruct b2 as [|c b2]; [congruence|].
  pose proof (first_occurrence_not_start sub c b2 rest Hfirst) as E.
  unfold Str.startswith in E.
  destruct (Str.strip_prefix sub (String c b2 +:+ sub +:+ rest)); [discriminate|reflexivity].
Qed.

Lemma match_here_lit l ts s :
  Re.match_here (Re.TLit l :: ts) (l +:+ s) = option_map (cons l) (Re.match_here ts s).
Proof. cbn [Re.match_here]. rewrite strip_prefix_app. reflexivity. Qed.

Lemma match_here_lit_none l ts s :
  Str.strip_prefix l s = None -> Re.match_here (Re.TLit l :: ts) s = None.
Proof. intros H. cbn [Re.match_here]. rewrite H. reflexivity. Qed.

Lemma match_here_plus_run cls ts w s r :
  w <> "" -> Str.all cls w = true -> stops cls s -> Re.match_here ts s = Some r ->
  Re.match_here (Re.TPlus cls :: ts) (w +:+ s) = Some (w :: r).
Proof.
  intros Hw Hall Hstop Hr. destruct w as [|c w]; [congruence|].
  simpl in Hall. apply andb_true_iff in Hall as [Hc Hall].
  rewrite str_app_cons. cbn [Re.match_here]. rewrite Hc.
  rewrite (greedy_run cls _ w s r Hall Hstop Hr). reflexivity.
Qed.

Lemma search_after_first_literal l ts pre rest m :
  first_occurrence l pre ->
  Re.match_here (Re.TLit l :: ts) (l +:+ rest) = Some m ->
  Re.search (Re.TLit l :: ts) (pre +:+ l +:+ rest) = Some m.
Proof.
  intros Hfirst Hm. apply search_at_first; [exact Hm|].
  intros b1 b2 E Hb2. apply match_here_lit_none.
  eapply no_prefix_before; eassumption.
Qed.

(** X8: a URL whose first [github.com/] is followed by two non-empty path
    segments is described by those two segments, [owner/repo], as they
    stand: a [.git] at the end of the second is kept. *)
Theorem github_description pre owner repo rest :
  first_occurrence "github.com/" pre ->
  owner <> "" -> Str.all Re.not_slash owner = true ->
  repo <> "" -> Str.all Re.not_slash repo = true ->
  stops Re.not_slash rest ->
  url_name (pre +:+ "github.com/" +:+ owner +:+ "/" +:+ repo +:+ rest)
  = owner +:+ "/" +:+ repo.
Proof.
  intros Hfirst Ho Hao Hr Har Hstop. unfold url_name.
  assert (Hc : Str.contains "github.com"
                 (pre +:+ "github.com/" +:+ owner +:+ "/" +:+ repo +:+ rest) = true).
  { apply contains_spec. exists pre, ("/" +:+ owner +:+ "/" +:+ repo +:+ rest).
    reflexivity. }
  rewrite Hc.
  assert (Hm : Re.match_here github_pattern
                 ("github.com/" +:+ owner +:+ "/" +:+ repo +:+ rest)
               = Some ["github.com/"; owner; "/"; repo]).
  { unfold github_pattern. rewrite match_here_lit.
    rewrite (match_here_plus_run Re.not_slash _ owner ("/" +:+ repo +:+ rest)
               ["/"; repo]); [reflexivity|assumption|assumption|reflexivity|].
    rewrite match_here_lit.
    rewrite (match_here_plus_run Re.not_slash [] repo rest []);
      [reflexivity|assumption|assumption|assumption|reflexivity]. }
  unfold github_pattern in *.
  rewrite (search_after_first_literal _ _ _ _ _ Hfirst Hm). reflexivity.
Qed.

Lemma first_occurrenceb_sound sub before :
  first_occurrenceb sub before = true -> first_occurrence sub before.
Proof.
  intros H p q E. destruct q as [|c q]; [reflexivity|]. exfalso.
  unfold first_occurrenceb in H. rewrite forallb_forall in H.
  specialize (H (String.length p)).
  assert (Hin : In (String.length p) (seq 0 (String.length before))).
  { apply in_seq. apply (f_equal String.length) in E.
    rewrite !length_app_s in E. simpl in E. lia. }
  apply H in Hin. apply negb_true_iff in Hin.
  rewrite E, slice_from_app in Hin.
  rewrite (proj2 (startswith_spec _ _)) in Hin by eauto. discriminate.
Qed.

Lemma github_description_witness :
  first_occurrence "github.com/" "https://"
  /\ url_name "https://github.com/org/repo.git/tree/main" = "org/repo.git".
Proof.
  assert (Hfirst : first_occurrence "github.com/" "https://")
    by (apply first_occurrenceb_sound; vm_compute; reflexivity).
  split; [exact Hfirst|].
  apply (github_description "https://" "org" "repo.git" "/tree/main" Hfirst);
    try discriminate; reflexivity.
Defined.

Lemma split_no_sep name :
  Str.all Re.not_slash name = true -> Str.split "/" name = [name].
Proof.
  induction name as [|c name IH]; [reflexivity|]. simpl.
  intros H. apply andb_true_iff in H as [Hc Hall].
  unfold Re.not_slash in Hc. apply negb_true_iff in Hc. rewrite Hc, (IH Hall).
  reflexivity.
Qed.

Lemma split_ends_with pre name :
  Str.all Re.not_slash name = true ->
  exists h l, Str.split "/" (pre +:+ "/" +:+ name) = h :: l ++ [name].
Proof.
  intros Hall. induction pre as [|c pre (h & l & IH)].
  - exists "", []. rewrite str_app_nil_l.
    change ("/" +:+ name) with (String "/" name). simpl.
    rewrite (split_no_sep _ Hall). reflexivity.
  - rewrite str_app_cons. simpl. rewrite IH. destruct (Ascii.eqb c "/").
    + exists "", (h :: l). reflexivity.
    + exists (String c h), l. reflexivity.
Qed.

Lemma last_segment_of pre name :
  Str.all Re.not_slash name = true ->
  Str.last (Str.split "/" (pre +:+ "/" +:+ name)) = name.
Proof.
  intros Hall. destruct (split_ends_with pre name Hall) as (h & l & ->).
  unfold Str.last. rewrite app_comm_cons. apply List.last_last.
Qed.

(** X9: a URL that names neither host is described by its last path
    segment with every [.git] in it removed: the segment without its
    [.git] ending when [.git] occurs nowhere else in it. *)
Theorem other_host_description pre name :
  Str.contains "github.com" (pre +:+ "/" +:+ name) = false ->
  Str.contains "chromium.googlesource.com" (pre +:+ "/" +:+ name) = false ->
  Str.all Re.not_slash name = true ->
  url_name (pre +:+ "/" +:+ name) = Str.replace name ".git" ""
  /\ forall stem, name = stem +:+ ".git" -> first_occurrence ".git" stem ->
       url_name (pre +:+ "/" +:+ name) = stem.
Proof.
  intros Hg Hc Hall.
  assert (H : url_name (pre +:+ "/" +:+ name) = Str.replace name ".git" "").
  { unfold url_name, last_segment. rewrite Hg, Hc, (last_segment_of _ _ Hall).
    reflexivity. }
  split; [exact H|]. intros stem -> Hfirst. rewrite H.
  apply replace_suffix_once; [discriminate|exact Hfirst].
Qed.

Lemma other_host_description_witness :
  url_name "https://gitlab.example/group/tool.git" = "tool".
Proof.
  assert (Hfirst : first_occurrence ".git" "tool")
    by (apply first_occurrenceb_sound; vm_compute; reflexivity).
  destruct (other_host_description "https://gitlab.example/group" "tool.git"
              ltac:(vm_compute; reflexivity) ltac:(vm_compute; reflexivity)
              ltac:(vm_compute; reflexivity)) as [_ H].
  exact (H "tool" eq_refl Hfirst).
Defined.

Lemma at_end_false x :
  x <> "" -> Str.all Re.not_newline x = true -> Re.at_end x = false.
Proof.
  destruct x as [|c x]; [congruence|]. intros _ H. simpl in H.
  apply andb_true_iff in H as [Hc _]. simpl.
  destruct x; [|reflexivity].
  unfold Re.not_newline in Hc. apply negb_true_iff in Hc. exact Hc.
Qed.

Lemma git_end_none x :
  x <> "" -> x <> ".git" -> Str.all Re.not_newline x = true ->
  Re.match_here [Re.TOpt ".git"; Re.TEnd] x = None.
Proof.
  intros Hne Hgit Hall. cbn [Re.match_here].
  rewrite (at_end_false x Hne Hall).
  destruct (Str.strip_prefix ".git" x) as [s'|] eqn:E; [|reflexivity].
  apply strip_prefix_spec in E as ->.
  rewrite all_app in Hall. apply andb_true_iff in Hall as [_ Hall].
  assert (Hs : s' <> "") by (intros ->; apply Hgit; reflexivity).
  rewrite (at_end_false s' Hs Hall). reflexivity.
Qed.

(** The lazy loop stops at the first place the rest of the pattern
    matches. *)
Lemma lazy_run_first cls k w s r :
  Str.all cls w = true -> k s = Some r ->
  (forall w1 w2, w = w1 +:+ w2 -> w2 <> "" -> k (w2 +:+ s) = None) ->
  Re.lazy_run cls k (w +:+ s) = Some (w, r).
Proof.
  intros Hall Hk. induction w as [|c w IH]; intros Hnone.
  - rewrite str_app_nil_l. destruct s; simpl; rewrite Hk; reflexivity.
  - simpl in Hall. apply andb_true_iff in Hall as [Hc Hall].
    rewrite str_app_cons. simpl.
    rewrite <- str_app_cons, (Hnone "" (String c w) eq_refl) by discriminate.
    rewrite Hc, IH; [reflexivity|exact Hall|].
    intros w1 w2 E Hw2. apply (Hnone (String c w1) w2); [|exact Hw2].
    rewrite str_app_cons, E. reflexivity.
Qed.

Lemma match_here_lazy cls ts c w s r :
  cls c = true -> Str.all cls w = true -> Re.match_here ts s = Some r ->
  (forall w1 w2, w = w1 +:+ w2 -> w2 <> "" -> Re.match_here ts (w2 +:+ s) = None) ->
  Re.match_here (Re.TPlusLazy cls :: ts) (String c (w +:+ s)) = Some (String c w :: r).
Proof.
  intros Hc Hall Hr Hnone. cbn [Re.match_here]. rewrite Hc.
  rewrite (lazy_run_first cls _ w s r Hall Hr Hnone). reflexivity.
Qed.

Lemma chromium_search pre c w s r :
  first_occurrence "chromium.googlesource.com/" pre ->
  Re.not_newline c = true -> Str.all Re.not_newline w = true ->
  Re.match_here [Re.TOpt ".git"; Re.TEnd] s = Some r ->
  (forall w1 w2, w = w1 +:+ w2 -> w2 <> "" ->
     Re.match_here [Re.TOpt ".git"; Re.TEnd] (w2 +:+ s) = None) ->
  Re.search chromium_pattern
    (pre +:+ "chromium.googlesource.com/" +:+ String c (w +:+ s))
  = Some ("chromium.googlesource.com/" :: String c w :: r).
Proof.
  intros Hfirst Hc Hall Hr Hnone. unfold chromium_pattern.
  apply search_after_first_literal; [exact Hfirst|].
  rewrite match_here_lit, (match_here_lazy _ _ c w s r Hc Hall Hr Hnone).
  reflexivity.
Qed.

Lemma chromium_contains pre path :
  Str.contains "chromium.googlesource.com"
    (pre +:+ "chromium.googlesource.com/" +:+ path) = true.
Proof. apply contains_spec. exists pre, ("/" +:+ path). reflexivity. Qed.

(** X10: a URL without [github.com] whose first
    [chromium.googlesource.com/] is followed by a non-empty path free of
    line breaks is described by that path, less one [.git] at its end if
    something stands before it. *)
Theorem chromium_description pre path :
  Str.contains "github.com" (pre +:+ "chromium.googlesource.com/" +:+ path) = false ->
  first_occurrence "chromium.googlesource.com/" pre ->
  path <> "" -> Str.all Re.not_newline path = true ->
  (forall stem, stem <> "" -> path = stem +:+ ".git" ->
     url_name (pre +:+ "chromium.googlesource.com/" +:+ path) = stem)
  /\ ((forall stem, stem <> "" -> path <> stem +:+ ".git") ->
      url_name (pre +:+ "chromium.googlesource.com/" +:+ path) = path).
Proof.
  intros Hg Hfirst Hpath Hall. unfold url_name.
  rewrite Hg, chromium_contains. split.
  - intros stem Hstem ->. destruct stem as [|c w]; [congruence|].
    change (String c w +:+ ".git") with (String c (w +:+ ".git")) in *.
    simpl in Hall.
    apply andb_true_iff in Hall as [Hc Hall].
    rewrite all_app in Hall. apply andb_true_iff in Hall as [Hw _].
    rewrite (chromium_search pre c w ".git" [".git"; ""] Hfirst Hc Hw eq_refl);
      [reflexivity|].
    intros w1 w2 -> Hw2. apply git_end_none.
    + destruct w2; [congruence|discriminate].
    + intros E. apply (f_equal String.length) in E.
      rewrite length_app_s in E. simpl in E. destruct w2; [congruence|simpl in E; lia].
    + rewrite all_app in Hw. apply andb_true_iff in Hw as [_ Hw2'].
      rewrite all_app, Hw2'. reflexivity.
  - intros Hnogit. destruct path as [|c w]; [congruence|]. simpl in Hall.
    apply andb_true_iff in Hall as [Hc Hw].
    rewrite <- (str_app_nil_r w) at 1.
    rewrite (chromium_search pre c w "" [""; ""] Hfirst Hc Hw eq_refl);
      [reflexivity|].
    intros w1 w2 -> Hw2. rewrite str_app_nil_r. apply git_end_none; [exact Hw2| |].
    + intros ->. apply (Hnogit (String c w1)); [discriminate|reflexivity].
    + rewrite all_app in Hw. apply andb_true_iff in Hw as [_ Hw2']. exact Hw2'.
Qed.

Lemma chromium_description_witness :
  url_name "https://chromium.googlesource.com/chromium/tools/depot_tools.git"
  = "chromium/tools/depot_tools".
Proof.
  assert (Hfirst : first_occurrence "chromium.googlesource.com/" "https://")
    by (apply first_occurrenceb_sound; vm_compute; reflexivity).
  destruct (chromium_description "https://" "chromium/tools/depot_tools.git"
              ltac:(vm_compute; reflexivity) Hfirst ltac:(discriminate)
              ltac:(vm_compute; reflexivity)) as [H _].
  exact (H "chromium/tools/depot_tools" ltac:(discriminate) eq_refl).
Defined.

(** ** FixLoop: what every run keeps *)

Section Runs.
Variable json_load : string -> loaded.
Variable json_dump : json -> string.
Variable a : args.

Local Abbreviation step := (iteration json_load json_dump a).
Local Abbreviation loop := (for_loop json_load json_dump a).
Local Abbreviation update := (update_json_by_rev json_load json_dump).

Ltac step_cases :=
  unfold iteration;
  repeat match goal with
         | |- context [match ?x with _ => _ end] =>
             let E := fresh "E" in destruct x eqn:E
         end.

Lemma update_dry f tr h ph : snd (update f tr h ph true) = f.
Proof.
  unfold update_json_by_rev. repeat case_match; reflexivity.
Qed.

Lemma update_writes_dump f tr h ph dry :
  text_of (snd (update f tr h ph dry)) = text_of f
  \/ exists d kept,
       text_of (snd (update f tr h ph dry)) = Some (json_dump d)
       \/ text_of (snd (update f tr h ph dry)) = Some (Str.slice_to kept (json_dump d)).
Proof.
  unfold update_json_by_rev.
  destruct f as [e|e|content w]; try (left; reflexivity).
  destruct (json_load content) as [data|msg]; [|left; reflexivity].
  destruct (find_entry_by_rev tr ph data) as [r|]; [|left; reflexivity].
  destruct (negb (py_truthy (found_entry r))); [left; reflexivity|].
  destruct dry; [left; reflexivity|].
  destruct (next_write w) as [[|err|kept err] w']; simpl.
  - right. eexists _, 0%nat. left. reflexivity.
  - left. reflexivity.
  - right. eexists _, kept. right. reflexivity.
Qed.

Lemma update_plain c tr h ph dry :
  snd (update (Stored c []) tr h ph dry) = Stored c []
  \/ exists d, snd (update (Stored c []) tr h ph dry) = Stored (json_dump d) [].
Proof.
  unfold update_json_by_rev.
  destruct (json_load c) as [data|msg]; [|left; reflexivity].
  destruct (find_entry_by_rev tr ph data) as [r|]; [|left; reflexivity].
  destruct (negb (py_truthy (found_entry r))); [left; reflexivity|].
  destruct dry; [left; reflexivity|]. right. simpl. eauto.
Qed.

Lemma truthy_Some o x : truthy o = Some x -> o = Some x.
Proof.
  destruct o as [s|]; simpl; [|discriminate].
  destruct (String.eqb s ""); [discriminate|]. intros [= ->]. reflexivity.
Qed.

(** The pass, case by case: what it does to the file, the records and the
    processed set. *)
Lemma step_effect b st :
  let st' := fst (step b st) in
  attempts st' = S (attempts st)
  /\ processed_revs st ⊆ processed_revs st'
  /\ ((json_file st' = json_file st /\ replacements st' = replacements st)
      \/ exists returncode stdout stderr rev new_hash url description,
           b = Completed returncode stdout stderr /\ returncode <> 0%Z
           /\ extract_hash_mismatch_info stderr = (Some rev, Some new_hash, url)
           /\ (rev ∉ processed_revs st)
           /\ json_file st'
              = snd (update (json_file st) rev new_hash (placeholder_hash a) (dry_run a))
           /\ (replacements st' = replacements st
               \/ replacements st' = replacements st ++ [(rev, new_hash, description)])).
Proof.
  unfold iteration. destruct b as [returncode stdout stderr| |err].
  2-3: (simpl; split; [reflexivity|]; split; [set_solver|]; left; auto).
  destruct (returncode =? 0)%Z eqn:Hrc.
  { simpl. split; [reflexivity|]. split; [set_solver|]. left. auto. }
  apply Z.eqb_neq in Hrc.
  destruct (extract_hash_mismatch_info stderr) as [[rev new_hash] url] eqn:Hx.
  destruct (extract_truthy _ _ _ _ Hx) as [-> ->].
  destruct new_hash as [new_hash|].
  2: { simpl. split; [reflexivity|]. split; [set_solver|]. left. auto. }
  destruct rev as [rev|].
  2: { simpl. split; [reflexivity|]. split; [set_solver|]. left. auto. }
  destruct (decide (rev ∈ processed_revs (start_attempt st))) as [Hin|Hnew].
  { simpl. split; [reflexivity|]. split; [set_solver|]. left. auto. }
  cbn [start_attempt json_file replacements processed_revs attempts out] in *.
  destruct (update (json_file st) rev new_hash (placeholder_hash a) (dry_run a))
    as [[[success message] path] f'] eqn:Hu.
  assert (Hf : f' = snd (update (json_file st) rev new_hash (placeholder_hash a)
                           (dry_run a))) by (rewrite Hu; reflexivity).
  clear Hu.
  assert (Hgoal : forall st' description,
            attempts st' = S (attempts st) ->
            processed_revs st' = processed_revs st ∪ {[rev]} ->
            json_file st' = f' ->
            (replacements st' = replacements st
             \/ replacements st' = replacements st ++ [(rev, new_hash, description)]) ->
            attempts st' = S (attempts st)
            /\ processed_revs st ⊆ processed_revs st'
            /\ ((json_file st' = json_file st /\ replacements st' = replacements st)
                \/ exists returncode0 stdout0 stderr0 rev0 new_hash0 url0 description0,
                     Completed returncode stdout stderr
                     = Completed returncode0 stdout0 stderr0 /\ returncode0 <> 0%Z
                     /\ extract_hash_mismatch_info stderr0
                        = (Some rev0, Some new_hash0, url0)
                     /\ (rev0 ∉ processed_revs st)
                     /\ json_file st'
                        = snd (update (json_file st) rev0 new_hash0
                                 (placeholder_hash a) (dry_run a))
                     /\ (replacements st' = replacements st
                         \/ replacements st'
                            = replacements st ++ [(rev0, new_hash0, description0)]))).
  { intros st' description Ha Hp Hfile Hr. split; [exact Ha|].
    split; [rewrite Hp; apply union_subseteq_l|]. right.
    exists returncode, stdout, stderr, rev, new_hash, url, description.
    rewrite Hfile, Hf. auto 10. }
  repeat case_match; cbv zeta; cbn [fst];
    apply (Hgoal _ (get_entry_description json_load (json_file st) rev));
    simpl; auto.
Qed.

Lemma step_processes st returncode stdout stderr rev new_hash url :
  returncode <> 0%Z ->
  extract_hash_mismatch_info stderr = (Some rev, Some new_hash, url) ->
  rev ∈ processed_revs (fst (step (Completed returncode stdout stderr) st)).
Proof.
  intros Hrc Hx. unfold iteration. apply Z.eqb_neq in Hrc. rewrite Hrc, Hx.
  destruct (extract_truthy _ _ _ _ Hx) as [-> ->].
  destruct (decide (rev ∈ processed_revs (start_attempt st))) as [Hin|_];
    [exact Hin|].
  repeat case_match; simpl; set_solver.
Qed.

Lemma step_dry b st :
  dry_run a = true -> json_file (fst (step b st)) = json_file st.
Proof.
  intros Hdry. destruct (step_effect b st) as (_ & _ & [[H _]|H]); [exact H|].
  destruct H as (rc & so & se & rev & h & url & d & _ & _ & _ & _ & -> & _).
  rewrite Hdry. apply update_dry.
Qed.


Lemma loop_invariant (P : state -> Prop) build :
  (forall st, P st -> P (fst (step (build (attempts st)) st))) ->
  forall n st, P st -> P (fst (loop build n st)).
Proof.
  intros Hstep. induction n as [|n IH]; intros st H; simpl; [exact H|].
  specialize (Hstep st H).
  destruct (step (build (attempts st)) st) as [st1 [| | | |err]]; simpl in *; auto.
Qed.

Lemma loop_attempts_bound build n st :
  (attempts (fst (loop build n st)) <= attempts st + n)%nat.
Proof.
  revert st. induction n as [|n IH]; intros st; simpl; [lia|].
  pose proof (step_effect (build (attempts st)) st) as (Ha & _).
  destruct (step (build (attempts st)) st) as [st1 [| | | |err]]; simpl in *; try lia.
  specialize (IH st1). lia.
Qed.


Lemma loop_exited build n :
  forall st st' code,
    loop build n st = (st', Exited code) ->
    exists k returncode stdout stderr,
      attempts st' = S k /\ build k = Completed returncode stdout stderr
      /\ returncode <> 0%Z /\ ~ has_computed_hash stderr.
Proof.
  induction n as [|n IH]; intros st st' code; simpl; [discriminate|].
  destruct (step (build (attempts st)) st) as [st1 [| |c| |err]] eqn:E;
    try discriminate; [apply IH|].
  intros [= <- <-]. revert E. unfold iteration.
  destruct (build (attempts st)) as [returncode stdout stderr| |err'] eqn:Hb;
    [|discriminate|discriminate].
  destruct (returncode =? 0)%Z eqn:Hrc; [discriminate|]. apply Z.eqb_neq in Hrc.
  destruct (extract_hash_mismatch_info stderr) as [[rev new_hash] url] eqn:Hx.
  destruct (extract_truthy _ _ _ _ Hx) as [-> ->].
  destruct new_hash as [new_hash|].
  { repeat case_match; discriminate. }
  intros [= <-]. exists (attempts st), returncode, stdout, stderr.
  split; [reflexivity|]. split; [exact Hb|]. split; [exact Hrc|].
  intros Hh. apply search_hash_pattern_iff in Hh as [m Hm].
  unfold extract_hash_mismatch_info in Hx. rewrite Hm in Hx.
  repeat case_match; discriminate.
Qed.

(** A build that is interrupted, or that raises, ends the loop on the
    spot. *)
Lemma loop_stopped_by_build build n :
  forall st k,
    (attempts st <= k < attempts (fst (loop build n st)))%nat ->
    match build k with
    | Interrupted =>
        exists st', loop build n st = (st', Raised) /\ attempts st' = S k
    | BuildError err =>
        exists st', loop build n st = (st', Errored err) /\ attempts st' = S k
    | Completed _ _ _ => True
    end.
Proof.
  induction n as [|n IH]; intros st k; simpl; [lia|].
  pose proof (step_effect (build (attempts st)) st) as (Ha & _).
  destruct (decide (k = attempts st)) as [->|Hne].
  - intros _. unfold iteration in *.
    destruct (build (attempts st)) as [returncode stdout stderr| |err];
      [exact I| |]; eexists; (split; [reflexivity|]); reflexivity.
  - destruct (step (build (attempts st)) st) as [st1 [| | | |err]] eqn:E;
      cbn [fst] in *; intros Hk; try lia.
    apply IH. lia.
Qed.

Lemma step_continue b st st' :
  step b st = (st', Continue) ->
  exists returncode stdout stderr,
    b = Completed returncode stdout stderr /\ returncode <> 0%Z
    /\ has_computed_hash stderr.
Proof.
  unfold iteration.
  destruct b as [returncode stdout stderr| |err]; [|discriminate|discriminate].
  destruct (returncode =? 0)%Z eqn:Hrc; [discriminate|]. apply Z.eqb_neq in Hrc.
  destruct (extract_hash_mismatch_info stderr) as [[rev new_hash] url] eqn:Hx.
  destruct (extract_truthy _ _ _ _ Hx) as [-> ->].
  destruct new_hash as [new_hash|]; [|discriminate].
  intros _. exists returncode, stdout, stderr. split; [reflexivity|].
  split; [exact Hrc|]. apply search_hash_pattern_iff.
  unfold extract_hash_mismatch_info in Hx.
  destruct (Re.search hash_pattern stderr); [eauto|discriminate].
Qed.

Lemma loop_exhausted_builds build n :
  forall st st',
    loop build n st = (st', Exhausted) ->
    forall k, (attempts st <= k < attempts st + n)%nat ->
      exists returncode stdout stderr,
        build k = Completed returncode stdout stderr /\ returncode <> 0%Z
        /\ has_computed_hash stderr.
Proof.
  induction n as [|n IH]; intros st st'; simpl; [intros _ k Hk; lia|].
  pose proof (step_effect (build (attempts st)) st) as (Ha & _).
  destruct (step (build (attempts st)) st) as [st1 [| | | |err]] eqn:E;
    try discriminate.
  intros H k Hk. destruct (decide (k = attempts st)) as [->|Hne].
  - apply (step_continue _ _ _ E).
  - apply (IH st1 st' H). simpl in Ha. lia.
Qed.

(** What [run_loop] adds to the loop: output only. *)
Lemma run_loop_spec e st :
  let r := run_loop json_load json_dump a e st in
  let l := loop (build e) (Z.to_nat (max_iterations a)) st in
  ended r = Some (terminal_of (snd l))
  /\ json_file (final r) = json_file (fst l)
  /\ replacements (final r) = replacements (fst l)
  /\ processed_revs (final r) = processed_revs (fst l)
  /\ attempts (final r) = attempts (fst l).
Proof.
  cbv zeta. unfold run_loop.
  destruct (loop (build e) (Z.to_nat (max_iterations a)) st) as [st' [| | | |err]];
    repeat case_match; simpl; auto.
Qed.

(** How [main] reaches the loop, or leaves before it. *)
Lemma main_cases e :
  let r := main json_load json_dump a e in
  (ended r = None /\ exists es, final r = emit es (initial_state (manifest e)))
  \/ (exists content w data,
        manifest e = Stored content w /\ json_load content = Loaded data
        /\ (0 < count_remaining_placeholders (manifest e) (placeholder_hash a))%nat
        /\ r = run_loop json_load json_dump a e
                 (emit [EFound (count_remaining_placeholders (manifest e)
                                  (placeholder_hash a))]
                    (initial_state (manifest e)))).
Proof.
  cbv zeta. unfold main.
  destruct (manifest e) as [err|err|content w] eqn:Hm;
    [left; simpl; eauto|left; simpl; eauto|].
  destruct (json_load content) as [data|msg] eqn:Hload; [|left; simpl; eauto].
  assert (Hproceed :
    forall r,
      r = (if (0 <? count_remaining_placeholders (Stored content w)
                      (placeholder_hash a))%nat
           then run_loop json_load json_dump a e
                  (emit [EFound (count_remaining_placeholders (Stored content w)
                                   (placeholder_hash a))]
                     (initial_state (Stored content w)))
           else Result (emit [ENoPlaceholders] (initial_state (Stored content w)))
                  None 0) ->
      (ended r = None /\ exists es, final r = emit es (initial_state (Stored content w)))
      \/ (exists content0 w0 data0,
            Stored content w = Stored content0 w0 /\ json_load content0 = Loaded data0
            /\ (0 < count_remaining_placeholders (Stored content w)
                      (placeholder_hash a))%nat
            /\ r = run_loop json_load json_dump a e
                     (emit [EFound (count_remaining_placeholders (Stored content w)
                                      (placeholder_hash a))]
                        (initial_state (Stored content w))))).
  { intros r ->.
    destruct (0 <? _)%nat eqn:Hc.
    - right. apply Nat.ltb_lt in Hc. exists content, w, data. auto.
    - left. simpl. eauto. }
  destruct (negb (no_backup a) && negb (dry_run a)); [|apply Hproceed; reflexivity].
  destruct (backup e) as [|[answer|err|]];
    [apply Hproceed; reflexivity| |left; simpl; eauto|left; simpl; eauto].
  destruct (declined answer); [|apply Hproceed; reflexivity].
  left. simpl. eauto.
Qed.
End Runs.

(** X11: a preview run never changes the manifest: whatever the builds do,
    the file at the end of a run with [--dry-run] is the file it started
    with. *)
Theorem dry_run_never_writes json_load json_dump a e :
  dry_run a = true ->
  json_file (final (main json_load json_dump a e)) = manifest e.
Proof.
  intros Hdry.
  destruct (main_cases json_load json_dump a e) as [(_ & (es & ->))|H];
    [reflexivity|].
  destruct H as (content & w & data & _ & _ & _ & ->).
  destruct (run_loop_spec json_load json_dump a e
              (emit [EFound (count_remaining_placeholders (manifest e)
                               (placeholder_hash a))]
                 (initial_state (manifest e)))) as (_ & -> & _).
  apply (loop_invariant json_load json_dump a (fun st => json_file st = manifest e));
    [|reflexivity].
  intros st Hst. rewrite step_dry; assumption.
Qed.

Lemma dry_run_never_writes_witness :
  let a := Args true 5 true PLACEHOLDER_HASH in
  let e := Env Scenario.stored BackupCreated Scenario.always_mismatch in
  json_file (final (main Scenario.load Example.dump a e)) = Scenario.stored
  /\ attempts (final (main Scenario.load Example.dump a e)) = 5%nat.
Proof.
  intros a e. split.
  - exact (dry_run_never_writes Scenario.load Example.dump a e eq_refl).
  - vm_compute. reflexivity.
Defined.

(** X12: a run never starts more builds than [max_iterations] (none when
    it is zero or negative), and never holds more replacement records than
    the builds it ran. *)
Theorem builds_within_limit json_load json_dump a e :
  let r := main json_load json_dump a e in
  (attempts (final r) <= Z.to_nat (max_iterations a))%nat
  /\ (length (replacements (final r)) <= attempts (final r))%nat.
Proof.
  cbv zeta.
  destruct (main_cases json_load json_dump a e) as [(_ & (es & ->))|H];
    [simpl; lia|].
  destruct H as (content & w & data & _ & _ & _ & ->).
  set (st0 := emit _ _).
  destruct (run_loop_spec json_load json_dump a e st0) as (_ & _ & -> & _ & ->).
  split.
  - apply (loop_attempts_bound json_load json_dump a (build e) _ st0).
  - apply (loop_invariant json_load json_dump a
             (fun st => (length (replacements st) <= attempts st)%nat));
      [|simpl; lia].
    intros st Hst.
    destruct (step_effect json_load json_dump a (build e (attempts st)) st)
      as (Ha & _ & [[_ Hr]|H]).
    + rewrite Ha, Hr. lia.
    + destruct H as (? & ? & ? & ? & ? & ? & ? & _ & _ & _ & _ & _ & [Hr|Hr]);
        rewrite Ha, Hr, ?length_app; simpl; lia.
Qed.



(** X14: every replacement record comes from a build of the run: some
    build it ran failed with a diagnostic from which the parser read the
    record's revision and hash. *)
Theorem records_come_from_diagnostics json_load json_dump a e rev new_hash description :
  let r := main json_load json_dump a e in
  (rev, new_hash, description) ∈ replacements (final r) ->
  exists k returncode stdout stderr url,
    (k < attempts (final r))%nat
    /\ build e k = Completed returncode stdout stderr /\ returncode <> 0%Z
    /\ extract_hash_mismatch_info stderr = (Some rev, Some new_hash, url).
Proof.
  cbv zeta.
  destruct (main_cases json_load json_dump a e) as [(_ & (es & ->))|H].
  { simpl. intros Hin. inversion Hin. }
  destruct H as (content & w & data & _ & _ & _ & ->).
  set (st0 := emit _ _).
  destruct (run_loop_spec json_load json_dump a e st0) as (_ & _ & -> & _ & ->).
  revert rev new_hash description.
  apply (loop_invariant json_load json_dump a
           (fun st => forall rev new_hash description,
              (rev, new_hash, description) ∈ replacements st ->
              exists k returncode stdout stderr url,
                (k < attempts st)%nat
                /\ build e k = Completed returncode stdout stderr /\ returncode <> 0%Z
                /\ extract_hash_mismatch_info stderr = (Some rev, Some new_hash, url))).
  2: { simpl. intros ? ? ? Hin. inversion Hin. }
  intros st Hst rev new_hash description.
  destruct (step_effect json_load json_dump a (build e (attempts st)) st)
    as (Ha & _ & Heff).
  assert (Hold : (rev, new_hash, description) ∈ replacements st ->
            exists k returncode stdout stderr url,
              (k < attempts (fst (iteration json_load json_dump a
                                    (build e (attempts st)) st)))%nat
              /\ build e k = Completed returncode stdout stderr /\ returncode <> 0%Z
              /\ extract_hash_mismatch_info stderr = (Some rev, Some new_hash, url)).
  { intros Hin. destruct (Hst _ _ _ Hin) as (k & rc & so & se & url & Hk & H).
    exists k, rc, so, se, url. split; [rewrite Ha; lia|exact H]. }
  destruct Heff as [[_ Hr]|H]; [rewrite Hr; exact Hold|].
  destruct H as (rc & so & se & rev' & h' & url & d & Hb & Hrc & Hx & _ & _ & [Hr|Hr]);
    rewrite Hr; [exact Hold|].
  intros Hin. apply elem_of_app in Hin as [Hin|Hin]; [exact (Hold Hin)|].
  apply list_elem_of_singleton in Hin. injection Hin as -> -> ->.
  exists (attempts st), rc, so, se, url. split; [rewrite Ha; lia|]. auto.
Qed.

Lemma records_come_from_diagnostics_witness :
  let r := main Scenario.load Example.dump (Scenario.arguments 5)
             (Env Scenario.stored BackupCreated Scenario.mismatch_then_unrelated) in
  ("abc123", "sha256-NEW=", "org/repo") ∈ replacements (final r)
  /\ exists k returncode stdout stderr url,
       Scenario.mismatch_then_unrelated k = Completed returncode stdout stderr
       /\ extract_hash_mismatch_info stderr = (Some "abc123", Some "sha256-NEW=", url).
Proof.
  intros r.
  assert (Hin : ("abc123", "sha256-NEW=", "org/repo") ∈ replacements (final r))
    by (vm_compute; left).
  split; [exact Hin|].
  destruct (records_come_from_diagnostics Scenario.load Example.dump
              (Scenario.arguments 5)
              (Env Scenario.stored BackupCreated Scenario.mismatch_then_unrelated)
              _ _ _ Hin) as (k & rc & so & se & url & _ & Hb & _ & Hx).
  exists k, rc, so, se, url. auto.
Defined.

(** X15: what a run can leave in the manifest: the text it started with,
    the output of [json.dump] on a document or, after a write that failed
    part way, the first characters of such an output.  A run none of whose
    writes fails leaves the file it started with or the whole output of
    [json.dump]. *)
Theorem file_is_initial_or_dump json_load json_dump a e :
  let r := main json_load json_dump a e in
  (text_of (json_file (final r)) = text_of (manifest e)
   \/ exists d kept,
        text_of (json_file (final r)) = Some (json_dump d)
        \/ text_of (json_file (final r)) = Some (Str.slice_to kept (json_dump d)))
  /\ (forall content,
        manifest e = Stored content [] ->
        json_file (final r) = manifest e
        \/ exists d, json_file (final r) = Stored (json_dump d) []).
Proof.
  cbv zeta.
  destruct (main_cases json_load json_dump a e) as [(_ & (es & ->))|H];
    [split; [left; reflexivity|intros; left; reflexivity]|].
  destruct H as (content & w & data & _ & _ & _ & ->).
  set (st0 := emit _ _).
  destruct (run_loop_spec json_load json_dump a e st0) as (_ & -> & _).
  split.
  - apply (loop_invariant json_load json_dump a
             (fun st => text_of (json_file st) = text_of (manifest e)
                        \/ exists d kept,
                             text_of (json_file st) = Some (json_dump d)
                             \/ text_of (json_file st)
                                = Some (Str.slice_to kept (json_dump d))));
      [|left; reflexivity].
    intros st Hst.
    destruct (step_effect json_load json_dump a (build e (attempts st)) st)
      as (_ & _ & [[-> _]|H]); [exact Hst|].
    destruct H as (? & ? & ? & rev & h & ? & ? & _ & _ & _ & _ & -> & _).
    destruct (update_writes_dump json_load json_dump (json_file st) rev h
                (placeholder_hash a) (dry_run a)) as [->|Hd]; [exact Hst|right; exact Hd].
  - intros content0 Hm.
    apply (loop_invariant json_load json_dump a
             (fun st => json_file st = manifest e
                        \/ exists d, json_file st = Stored (json_dump d) []));
      [|left; reflexivity].
    intros st Hst.
    destruct (step_effect json_load json_dump a (build e (attempts st)) st)
      as (_ & _ & [[-> _]|H]); [exact Hst|].
    destruct H as (? & ? & ? & rev & h & ? & ? & _ & _ & _ & _ & -> & _).
    destruct Hst as [Hst|[d Hst]]; rewrite Hst, ?Hm.
    + destruct (update_plain json_load json_dump content0 rev h
                  (placeholder_hash a) (dry_run a)) as [->|Hd]; [left|right]; auto.
    + destruct (update_plain json_load json_dump (json_dump d) rev h
                  (placeholder_hash a) (dry_run a)) as [->|Hd]; right; eauto.
Qed.

(** A run whose one write fails part way ends with a manifest that holds
    the first characters of the new text. *)
Example run_with_failed_write :
  let e := Env (Stored (Example.dump Scenario.data0)
                  [WriteFails 12 "[Errno 28] No space left on device"])
             BackupCreated Scenario.always_mismatch in
  let r := main Scenario.load Example.dump (Scenario.arguments 2) e in
  json_file (final r)
  = Stored ("{" +:+ Example.newline +:+ "  " +:+ Example.dq +:+ "name"
            +:+ Example.dq +:+ ": ") []
  /\ replacements (final r) = []
  /\ ended r = Some ExhaustedIterations
  /\ out (final r)
     = [EFound 1; EAttempt 1;
        EMismatch "org/repo" "abc123" None "sha256-NEW=";
        EError "Error updating file: [Errno 28] No space left on device";
        EAttempt 2; EAlreadyProcessed "abc123";
        EMaxIterations 2; ESummaryTotal 0].
Proof. repeat split; vm_compute; reflexivity. Qed.

(** X16: with [max_iterations] zero or negative no build is run: the file
    and the records stay as they were, and a run that got as far as the
    loop ends in [ExhaustedIterations]. *)
Theorem no_iterations_no_builds json_load json_dump a e :
  (max_iterations a <= 0)%Z ->
  let r := main json_load json_dump a e in
  attempts (final r) = 0%nat
  /\ json_file (final r) = manifest e
  /\ replacements (final r) = []
  /\ (ended r = None \/ ended r = Some ExhaustedIterations).
Proof.
  intros Hmax. cbv zeta.
  destruct (main_cases json_load json_dump a e) as [(-> & (es & ->))|H];
    [simpl; auto|].
  destruct H as (content & w & data & _ & _ & _ & ->).
  set (st0 := emit _ _).
  destruct (run_loop_spec json_load json_dump a e st0) as (-> & -> & -> & _ & ->).
  replace (Z.to_nat (max_iterations a)) with 0%nat by lia. simpl. auto.
Qed.

Lemma no_iterations_no_builds_witness :
  (max_iterations (Scenario.arguments 0) <= 0)%Z
  /\ attempts (final (main Scenario.load Example.dump (Scenario.arguments 0)
                        (Env Scenario.stored BackupCreated Scenario.always_mismatch)))
     = 0%nat.
Proof.
  assert (Hmax : (max_iterations (Scenario.arguments 0) <= 0)%Z) by (simpl; lia).
  split; [exact Hmax|].
  destruct (no_iterations_no_builds Scenario.load Example.dump (Scenario.arguments 0)
              (Env Scenario.stored BackupCreated Scenario.always_mismatch) Hmax)
    as (Ha & _).
  exact Ha.
Defined.

(** X17: a process that leaves before the loop has run no build and left
    the file and the records alone; and a manifest that is missing,
    unreadable or not valid JSON makes the process leave before the loop
    with status 1. *)
Theorem early_exit_is_harmless json_load json_dump a e :
  let r := main json_load json_dump a e in
  (ended r = None ->
   attempts (final r) = 0%nat
   /\ json_file (final r) = manifest e
   /\ replacements (final r) = [])
  /\ ((forall content w data,
         manifest e = Stored content w -> json_load content <> Loaded data) ->
      ended r = None /\ status r = 1%Z).
Proof.
  cbv zeta. split.
  - destruct (main_cases json_load json_dump a e) as [(_ & (es & Hf))|H].
    + intros _. rewrite Hf. simpl. auto.
    + destruct H as (content & w & data & _ & _ & _ & ->).
      set (st0 := emit _ _).
      destruct (run_loop_spec json_load json_dump a e st0) as (-> & _). discriminate.
  - intros Hbad. unfold main.
    destruct (manifest e) as [err|err|content w]; [auto|auto|].
    destruct (json_load content) as [data|msg] eqn:Hload; [|auto].
    exfalso. exact (Hbad content w data eq_refl Hload).
Qed.

Lemma early_exit_is_harmless_witness :
  let e := Env (Stored "not json" []) BackupCreated Scenario.always_mismatch in
  let r := main Scenario.load Example.dump (Scenario.arguments 5) e in
  (forall content w data,
      manifest e = Stored content w -> Scenario.load content <> Loaded data)
  /\ status r = 1%Z /\ attempts (final r) = 0%nat.
Proof.
  intros e r.
  assert (Hbad : forall content w data,
            manifest e = Stored content w -> Scenario.load content <> Loaded data).
  { intros content w data [= <- <-] Hload. vm_compute in Hload. discriminate. }
  split; [exact Hbad|].
  destruct (early_exit_is_harmless Scenario.load Example.dump (Scenario.arguments 5) e)
    as (Hearly & Hstatus).
  destruct (Hstatus Hbad) as (Hend & Hs).
  split; [exact Hs|]. destruct (Hearly Hend) as (Ha & _). exact Ha.
Defined.

(** X18: a run ends in [UnrecoverableBuildFailure] only on its last build,
    when that build exited with a non-zero status and its error output
    held no computed-hash line. *)
Theorem gives_up_only_without_hash json_load json_dump a e :
  ended (main json_load json_dump a e) = Some UnrecoverableBuildFailure ->
  exists k returncode stdout stderr,
    attempts (final (main json_load json_dump a e)) = S k
    /\ build e k = Completed returncode stdout stderr
    /\ returncode <> 0%Z /\ ~ has_computed_hash stderr.
Proof.
  destruct (main_cases json_load json_dump a e) as [(-> & _)|H]; [discriminate|].
  destruct H as (content & w & data & _ & _ & _ & ->).
  set (st0 := emit _ _).
  destruct (run_loop_spec json_load json_dump a e st0) as (-> & _ & _ & _ & ->).
  destruct (for_loop json_load json_dump a (build e) _ st0) as [st' l] eqn:E.
  destruct l; try discriminate. intros _.
  exact (loop_exited json_load json_dump a _ _ _ _ _ E).
Qed.

Lemma gives_up_only_without_hash_witness :
  let r := main Scenario.load Example.dump (Scenario.arguments 5)
             (Env Scenario.stored BackupCreated Scenario.mismatch_then_unrelated) in
  ended r = Some UnrecoverableBuildFailure
  /\ exists k returncode stdout stderr,
       Scenario.mismatch_then_unrelated k = Completed returncode stdout stderr
       /\ ~ has_computed_hash stderr.
Proof.
  intros r.
  assert (H : ended r = Some UnrecoverableBuildFailure) by (vm_compute; reflexivity).
  split; [exact H|].
  destruct (gives_up_only_without_hash Scenario.load Example.dump (Scenario.arguments 5)
              (Env Scenario.stored BackupCreated Scenario.mismatch_then_unrelated) H)
    as (k & rc & so & se & _ & Hb & _ & Hno).
  exists k, rc, so, se. split; [exact Hb|exact Hno].
Defined.

(** X19: every revision a failed build of the run was diagnosed with is in
    the processed set at the end, whether its patch succeeded, failed or
    was skipped: a revision gets one patch attempt per run. *)
Theorem diagnosed_revisions_are_processed json_load json_dump a e
    k returncode stdout stderr rev new_hash url :
  let r := main json_load json_dump a e in
  (k < attempts (final r))%nat ->
  build e k = Completed returncode stdout stderr -> returncode <> 0%Z ->
  extract_hash_mismatch_info stderr = (Some rev, Some new_hash, url) ->
  rev ∈ processed_revs (final r).
Proof.
  cbv zeta.
  destruct (main_cases json_load json_dump a e) as [(_ & (es & ->))|H].
  { simpl. lia. }
  destruct H as (content & w & data & _ & _ & _ & ->).
  set (st0 := emit _ _).
  destruct (run_loop_spec json_load json_dump a e st0) as (_ & _ & _ & -> & ->).
  revert k returncode stdout stderr rev new_hash url.
  apply (loop_invariant json_load json_dump a
           (fun st => forall k returncode stdout stderr rev new_hash url,
              (k < attempts st)%nat ->
              build e k = Completed returncode stdout stderr -> returncode <> 0%Z ->
              extract_hash_mismatch_info stderr = (Some rev, Some new_hash, url) ->
              rev ∈ processed_revs st)).
  2: { simpl. intros. lia. }
  intros st Hst k rc so se rev h url Hk Hb Hrc Hx.
  destruct (step_effect json_load json_dump a (build e (attempts st)) st)
    as (Ha & Hsub & _).
  rewrite Ha in Hk. destruct (decide (k = attempts st)) as [->|Hne].
  - rewrite Hb. eapply step_processes; eassumption.
  - apply Hsub. eapply Hst; [|eassumption..]. lia.
Qed.

Lemma diagnosed_revisions_are_processed_witness :
  let r := main Scenario.load Example.dump (Scenario.arguments 5)
             (Env Scenario.stored BackupCreated Scenario.mismatch_then_unrelated) in
  (0 < attempts (final r))%nat /\ "abc123" ∈ processed_revs (final r).
Proof.
  intros r.
  assert (Hk : (0 < attempts (final r))%nat) by (vm_compute; lia).
  split; [exact Hk|].
  apply (diagnosed_revisions_are_processed Scenario.load Example.dump
           (Scenario.arguments 5)
           (Env Scenario.stored BackupCreated Scenario.mismatch_then_unrelated)
           0%nat 1%Z "" (Example.mismatch_output "abc123" "sha256-NEW=")
           "abc123" "sha256-NEW=" None Hk eq_refl);
    [discriminate|vm_compute; reflexivity].
Defined.

(** X20: the prompt that follows a failed backup, in a run that makes a
    backup of a valid manifest.  On the answer [y] (or [Y]) the run goes
    on as after a backup; on any other answer it says so and exits with
    status 0; when the input is at its end the process leaves through the
    handler of unexpected errors with status 1, and on a keyboard
    interrupt through the handler of interrupts with status 130.  In the
    last three cases no build is run and the file is left alone. *)
Theorem backup_prompt_outcomes json_load json_dump a e content w data reply :
  manifest e = Stored content w -> json_load content = Loaded data ->
  no_backup a = false -> dry_run a = false ->
  backup e = BackupFailed reply ->
  let r := main json_load json_dump a e in
  match reply with
  | Answered answer =>
      if String.eqb answer "y" || String.eqb answer "Y"
      then r = main json_load json_dump a (Env (manifest e) BackupCreated (build e))
      else r = Result (emit [EAbortedByUser] (initial_state (manifest e))) None 0
  | EndOfInput err =>
      r = Result (emit [EUnexpectedError err] (initial_state (manifest e))) None 1
  | PromptInterrupted =>
      r = Result (emit [EInterrupted] (initial_state (manifest e))) None 130
  end.
Proof.
  intros Hm Hload Hnb Hdry Hb. cbv zeta. unfold main. simpl.
  rewrite Hm, Hload, Hnb, Hdry, Hb. simpl.
  destruct reply as [answer|err|]; [|reflexivity|reflexivity].
  unfold declined. destruct (String.eqb answer "y" || String.eqb answer "Y");
    reflexivity.
Qed.

Lemma backup_prompt_outcomes_witness :
  let a := Args false 5 false PLACEHOLDER_HASH in
  let e := Env Scenario.stored (BackupFailed PromptInterrupted)
             Scenario.always_mismatch in
  let r := main Scenario.load Example.dump a e in
  Scenario.load (Example.dump Scenario.data0) = Loaded Scenario.data0
  /\ status r = 130%Z /\ attempts (final r) = 0%nat
  /\ json_file (final r) = Scenario.stored.
Proof.
  intros a e r.
  assert (Hload : Scenario.load (Example.dump Scenario.data0) = Loaded Scenario.data0)
    by (vm_compute; reflexivity).
  split; [exact Hload|].
  pose proof (backup_prompt_outcomes Scenario.load Example.dump a e
                (Example.dump Scenario.data0) [] Scenario.data0 PromptInterrupted
                eq_refl Hload eq_refl eq_refl eq_refl) as H.
  cbv zeta in H. subst r. rewrite H. simpl. auto.
Defined.

(** X21: a build that is interrupted from the keyboard, or that raises an
    exception, ends the run on the spot.  No later build is run; the run
    ends in [UserAborted] with status 130, or through the handler of
    unexpected errors with status 1, and the last thing it prints is that
    handler's message. *)
Theorem failed_build_call_ends_run json_load json_dump a e k :
  let r := main json_load json_dump a e in
  (k < attempts (final r))%nat ->
  match build e k with
  | Interrupted =>
      attempts (final r) = S k /\ ended r = Some UserAborted /\ status r = 130%Z
      /\ exists before, out (final r) = before ++ [EInterrupted]
  | BuildError err =>
      attempts (final r) = S k /\ ended r = Some UnexpectedError /\ status r = 1%Z
      /\ exists before, out (final r) = before ++ [EUnexpectedError err]
  | Completed _ _ _ => True
  end.
Proof.
  cbv zeta.
  destruct (main_cases json_load json_dump a e) as [(_ & (es & ->))|H];
    [simpl; lia|].
  destruct H as (content & w & data & _ & _ & _ & ->).
  set (st0 := emit _ _).
  destruct (run_loop_spec json_load json_dump a e st0) as (_ & _ & _ & _ & Ha).
  rewrite Ha. intros Hk.
  pose proof (loop_stopped_by_build json_load json_dump a (build e)
                (Z.to_nat (max_iterations a)) st0 k) as H.
  specialize (H ltac:(simpl; lia)).
  destruct (build e k) as [rc so se| |err]; [exact I| |];
    destruct H as (st' & Hl & Hatt); unfold run_loop; rewrite Hl; simpl;
    (split; [exact Hatt|]); (split; [reflexivity|]); (split; [reflexivity|]);
    eauto.
Qed.

Lemma failed_build_call_ends_run_witness :
  let build := fun k => match k with
                        | O => Scenario.mismatch
                        | 1%nat => Interrupted
                        | _ => Completed 0 "" ""
                        end in
  let r := main Scenario.load Example.dump (Scenario.arguments 5)
             (Env Scenario.stored BackupCreated build) in
  (1 < attempts (final r))%nat
  /\ attempts (final r) = 2%nat /\ ended r = Some UserAborted /\ status r = 130%Z.
Proof.
  intros build r.
  assert (Hk : (1 < attempts (final r))%nat) by (vm_compute; lia).
  split; [exact Hk|].
  destruct (failed_build_call_ends_run Scenario.load Example.dump (Scenario.arguments 5)
              (Env Scenario.stored BackupCreated build) 1%nat Hk)
    as (Ha & He & Hs & _).
  auto.
Defined.

(** X22: a run that ends in [ExhaustedIterations] ran exactly
    [max_iterations] builds, and every one of them failed with a
    computed-hash line in its error output. *)
Theorem exhausted_means_all_builds_failed json_load json_dump a e :
  let r := main json_load json_dump a e in
  ended r = Some ExhaustedIterations ->
  attempts (final r) = Z.to_nat (max_iterations a)
  /\ forall k, (k < Z.to_nat (max_iterations a))%nat ->
       exists returncode stdout stderr,
         build e k = Completed returncode stdout stderr /\ returncode <> 0%Z
         /\ has_computed_hash stderr.
Proof.
  cbv zeta.
  destruct (main_cases json_load json_dump a e) as [(-> & _)|H]; [discriminate|].
  destruct H as (content & w & data & _ & _ & _ & ->).
  set (st0 := emit _ _).
  destruct (run_loop_spec json_load json_dump a e st0) as (-> & _ & _ & _ & ->).
  destruct (for_loop json_load json_dump a (build e) _ st0) as [st' l] eqn:E.
  destruct l; try discriminate. intros _. split.
  - simpl. rewrite (loop_exhausted_attempts _ _ _ _ _ _ _ E). reflexivity.
  - intros k Hk.
    apply (loop_exhausted_builds json_load json_dump a _ _ _ _ E). simpl. lia.
Qed.

Lemma exhausted_means_all_builds_failed_witness :
  let r := main Scenario.load Example.dump (Scenario.arguments 3)
             (Env Scenario.stored BackupCreated Scenario.always_mismatch) in
  ended r = Some ExhaustedIterations /\ attempts (final r) = 3%nat.
Proof.
  intros r.
  assert (H : ended r = Some ExhaustedIterations) by (vm_compute; reflexivity).
  split; [exact H|].
  destruct (exhausted_means_all_builds_failed Scenario.load Example.dump
              (Scenario.arguments 3)
              (Env Scenario.stored BackupCreated Scenario.always_mismatch) H)
    as (Ha & _).
  exact Ha.
Defined.

(** ** The path of a backup *)

Lemma rsplit_no_sep b :
  Str.all Re.not_slash b = true -> Path.rsplit b = ("", b).
Proof.
  induction b as [|c b IH]; [reflexivity|]. simpl. intros H.
  apply andb_true_iff in H as [Hc Hall]. rewrite (IH Hall).
  unfold Re.not_slash in Hc. apply negb_true_iff in Hc.
  unfold Path.is_sep. rewrite Hc. reflexivity.
Qed.

Lemma rsplit_head_empty p t : Path.rsplit p = ("", t) -> t = p.
Proof.
  revert t. induction p as [|c p IH]; simpl; intros t.
  - intros [= <-]. reflexivity.
  - destruct (Path.rsplit p) as [h t'] eqn:E. destruct h as [|a h]; [|discriminate].
    destruct (Path.is_sep c); [discriminate|]. intros [= <-]. reflexivity.
Qed.

Lemma rsplit_tail_free p : Str.all Re.not_slash (snd (Path.rsplit p)) = true.
Proof.
  induction p as [|c p IH]; [reflexivity|]. simpl.
  destruct (Path.rsplit p) as [h t] eqn:E. simpl in IH.
  destruct h as [|a h]; [|exact IH].
  apply rsplit_head_empty in E as ->.
  destruct (Path.is_sep c) eqn:Hc; [exact IH|].
  unfold Path.is_sep in Hc. cbn [snd Str.all]. apply andb_true_iff. split.
  - unfold Re.not_slash. rewrite Hc. reflexivity.
  - exact IH.
Qed.

Lemma rsplit_app_tail x b :
  Str.all Re.not_slash b = true -> Path.endswith_sep x = true ->
  Path.rsplit (x +:+ b) = (x, b).
Proof.
  intros Hb. induction x as [|c x IH]; [discriminate|].
  rewrite str_app_cons. simpl. destruct x as [|d x].
  - intros Hc. rewrite str_app_nil_l, (rsplit_no_sep _ Hb), Hc. reflexivity.
  - intros Hx. rewrite (IH Hx). reflexivity.
Qed.

Lemma rstrip_no_trailing s : Path.endswith_sep (Path.rstrip s) = false.
Proof.
  induction s as [|c s IH]; [reflexivity|]. simpl.
  destruct (Path.rstrip s) as [|a r].
  - destruct (Path.is_sep c) eqn:Hc; [reflexivity|]. simpl. exact Hc.
  - exact IH.
Qed.

Lemma rstrip_app_sep s :
  s <> "" -> Path.endswith_sep s = false -> Path.rstrip (s +:+ "/") = s.
Proof.
  induction s as [|c s IH]; [congruence|]. intros _.
  rewrite str_app_cons. simpl. destruct s as [|d s].
  - intros Hc. rewrite str_app_nil_l. simpl. rewrite Hc. reflexivity.
  - intros Hs. rewrite IH by (discriminate || exact Hs). reflexivity.
Qed.

Lemma endswith_sep_app_sep s : Path.endswith_sep (s +:+ "/") = true.
Proof.
  induction s as [|c s IH]; [reflexivity|].
  rewrite str_app_cons. simpl. destruct (s +:+ "/") eqn:E; [|exact IH].
  destruct s; discriminate.
Qed.

Lemma all_sep_app_sep s :
  s <> "" -> Path.endswith_sep s = false -> Str.all Path.is_sep (s +:+ "/") = false.
Proof.
  induction s as [|c s IH]; [congruence|]. intros _.
  rewrite str_app_cons. simpl. destruct s as [|d s].
  - intros ->. reflexivity.
  - intros Hs. rewrite IH by (discriminate || exact Hs). apply andb_false_r.
Qed.

(** The directory a backup goes to is never empty, and ends with a slash
    only when it is made of slashes. *)
Lemma backup_dir_shape filepath :
  backup_dir filepath <> ""
  /\ (Path.endswith_sep (backup_dir filepath) = true ->
      Str.all Path.is_sep (backup_dir filepath) = true).
Proof.
  unfold backup_dir.
  destruct (String.eqb (Path.dirname filepath) "") eqn:E.
  - split; [discriminate|]. simpl. discriminate.
  - apply String.eqb_neq in E. split; [exact E|].
    unfold Path.dirname in *.
    destruct (negb (String.eqb (fst (Path.rsplit filepath)) "")
              && negb (Str.all Path.is_sep (fst (Path.rsplit filepath)))) eqn:C.
    + rewrite rstrip_no_trailing. discriminate.
    + intros _. apply andb_false_iff in C as [C|C].
      * apply negb_false_iff, String.eqb_eq in C. congruence.
      * apply negb_false_iff in C. exact C.
Qed.

(** X23: the backup is a hidden sibling of the manifest: its name is
    [.<name>.backup_<timestamp>] and its directory is the manifest's
    directory ([.] for a bare file name), for every time stamp without a
    slash. *)
Theorem backup_is_hidden_sibling filepath timestamp :
  Str.all Re.not_slash timestamp = true ->
  Path.basename (backup_path filepath timestamp)
  = "." +:+ Path.basename filepath +:+ ".backup_" +:+ timestamp
  /\ Path.dirname (backup_path filepath timestamp) = backup_dir filepath.
Proof.
  intros Hts.
  set (name := "." +:+ Path.basename filepath +:+ ".backup_" +:+ timestamp).
  assert (Hname : Str.all Re.not_slash name = true).
  { unfold name, Path.basename. rewrite !all_app, rsplit_tail_free, Hts. reflexivity. }
  destruct (backup_dir_shape filepath) as [Hne Hshape].
  unfold backup_path. fold name. unfold Path.join.
  assert (Hstart : Str.startswith name "/" = false) by reflexivity.
  rewrite Hstart.
  apply String.eqb_neq in Hne as Hne'. rewrite Hne'. simpl orb.
  destruct (Path.endswith_sep (backup_dir filepath)) eqn:Hend.
  - unfold Path.basename, Path.dirname.
    rewrite (rsplit_app_tail _ _ Hname Hend). simpl fst. simpl snd.
    split; [reflexivity|]. rewrite (Hshape eq_refl), andb_false_r. reflexivity.
  - unfold Path.basename, Path.dirname.
    rewrite <- app_assoc_s.
    rewrite (rsplit_app_tail _ _ Hname (endswith_sep_app_sep _)). simpl fst. simpl snd.
    split; [reflexivity|].
    rewrite (all_sep_app_sep _ Hne Hend).
    assert (Hn : String.eqb (backup_dir filepath +:+ "/") "" = false).
    { apply String.eqb_neq. destruct (backup_dir filepath); discriminate. }
    rewrite Hn. simpl. apply rstrip_app_sep; assumption.
Qed.

Lemma backup_is_hidden_sibling_witness :
  backup_path "deps/info.json" "20260101_120000"
  = "deps/.info.json.backup_20260101_120000"
  /\ backup_path "info.json" "20260101_120000"
     = "./.info.json.backup_20260101_120000"
  /\ Path.dirname (backup_path "deps/info.json" "20260101_120000") = "deps".
Proof.
  split; [vm_compute; reflexivity|]. split; [vm_compute; reflexivity|].
  destruct (backup_is_hidden_sibling "deps/info.json" "20260101_120000" eq_refl)
    as [_ H].
  rewrite H. vm_compute. reflexivity.
Defined.
